(** * MedEase AI backend: provider orchestration, consensus and lab-value extraction

    A shallow embedding of the inference-orchestration core of the backend
    (config/aiProvider.js, services/consensusAI.js and the extractor and
    merge code of controllers/aiController.js) together with the properties
    that its specification states about it.

    The first half of the file holds the embedding, one module per source
    file; the second half holds the statements and their proofs. *)

From Stdlib Require Import String Ascii List Bool Arith PeanoNat ZArith NArith Lia.
From Stdlib Require Import QArith Qminmax DecimalString DecimalNat Sorted FinFun.
From Stdlib Require Import Permutation.
Import ListNotations.
Open Scope string_scope.
Open Scope list_scope.
Open Scope nat_scope.

Set Implicit Arguments.
Set Warnings "-register-all".
Set Warnings "-automation".
Set Warnings "-default".

(* ===================================================================== *)
(** ** JavaScript strings *)
(* ===================================================================== *)

(** A JavaScript string is modelled as a Rocq [string]: one character per
    code unit.  Report text and provider output are taken to be 8-bit text;
    the two non-ASCII dashes that occur in the source's patterns are
    written as their UTF-8 bytes. *)
Module JsString.

Definition chars (s : string) : list ascii := list_ascii_of_string s.
Definition str (l : list ascii) : string := string_of_list_ascii l.

Definition code (c : ascii) : nat := nat_of_ascii c.

(** White space as [String.prototype.trim] and the pattern class [\s] see it
    (tab, line feed, vertical tab, form feed, carriage return, space). *)
Definition isSpace (c : ascii) : bool :=
  let n := code c in ((9 <=? n) && (n <=? 13)) || (n =? 32).

Definition isDigit (c : ascii) : bool :=
  let n := code c in (48 <=? n) && (n <=? 57).

Definition isUpper (c : ascii) : bool :=
  let n := code c in (65 <=? n) && (n <=? 90).

Definition isLower (c : ascii) : bool :=
  let n := code c in (97 <=? n) && (n <=? 122).

Definition isLetter (c : ascii) : bool := isUpper c || isLower c.

(** [\w]: letters, digits and the underscore. *)
Definition isWord (c : ascii) : bool := isLetter c || isDigit c || (code c =? 95).

Definition lowerChar (c : ascii) : ascii :=
  if isUpper c then ascii_of_nat (code c + 32) else c.

Definition upperChar (c : ascii) : ascii :=
  if isLower c then ascii_of_nat (code c - 32) else c.

Fixpoint toLowerCase (s : string) : string :=
  match s with
  | EmptyString => EmptyString
  | String c t => String (lowerChar c) (toLowerCase t)
  end.

Fixpoint dropSpaces (l : list ascii) : list ascii :=
  match l with
  | c :: t => if isSpace c then dropSpaces t else l
  | [] => []
  end.

Definition trimList (l : list ascii) : list ascii :=
  rev (dropSpaces (rev (dropSpaces l))).

Definition trim (s : string) : string := str (trimList (chars s)).

(** A string is falsy exactly when it is empty. *)
Definition nonEmpty (s : string) : bool :=
  match s with EmptyString => false | _ => true end.

Fixpoint isPrefix (p l : list ascii) : bool :=
  match p, l with
  | [], _ => true
  | a :: p', b :: l' => Ascii.eqb a b && isPrefix p' l'
  | _ :: _, [] => false
  end.

Definition startsWith (s p : string) : bool := isPrefix (chars p) (chars s).

(** [indexOf]: [None] stands for the source's [-1]. *)
Fixpoint indexOfList (p l : list ascii) (i : nat) : option nat :=
  if isPrefix p l then Some i
  else match l with
       | [] => None
       | _ :: t => indexOfList p t (S i)
       end.

Definition indexOf (s p : string) : option nat := indexOfList (chars p) (chars s) 0.

Fixpoint lastIndexOfList (p l : list ascii) (i : nat) : option nat :=
  match l with
  | [] => if isPrefix p [] then Some i else None
  | _ :: t =>
      match lastIndexOfList p t (S i) with
      | Some j => Some j
      | None => if isPrefix p l then Some i else None
      end
  end.

Definition lastIndexOf (s p : string) : option nat :=
  lastIndexOfList (chars p) (chars s) 0.

Definition includes (s p : string) : bool :=
  match indexOf s p with Some _ => true | None => false end.

(** [s.slice(a, b)] for [0 <= a] and [0 <= b]. *)
Definition slice (s : string) (a b : nat) : string :=
  str (firstn (b - a) (skipn a (chars s))).

(** [s.slice(a)]. *)
Definition sliceFrom (s : string) (a : nat) : string := str (skipn a (chars s)).

(** [s.substring(0, n)]. *)
Definition substring0 (s : string) (n : nat) : string := str (firstn n (chars s)).

Fixpoint join (sep : string) (l : list string) : string :=
  match l with
  | [] => EmptyString
  | [x] => x
  | x :: t => (x ++ sep ++ join sep t)%string
  end.

(** [String(n)] for a natural number. *)
Definition ofNat (n : nat) : string := NilEmpty.string_of_uint (Nat.to_uint n).

End JsString.

(* ===================================================================== *)
(** ** JavaScript arrays: the stable sort *)
(* ===================================================================== *)

Module JsArray.

Section Sort.
Variable A : Type.
(** The comparator of [Array.prototype.sort]: negative, zero or positive. *)
Variable cmp : A -> A -> Z.

Fixpoint insertSorted (x : A) (l : list A) : list A :=
  match l with
  | [] => [x]
  | y :: t => if (cmp x y <=? 0)%Z then x :: y :: t else y :: insertSorted x t
  end.

(** [Array.prototype.sort] is stable: elements that compare equal keep
    their order.  For a comparator that orders by a numeric key the
    result is the one the stable insertion sort below computes. *)
Fixpoint sort (l : list A) : list A :=
  match l with
  | [] => []
  | x :: t => insertSorted x (sort t)
  end.
End Sort.

End JsArray.

(* ===================================================================== *)
(** ** JavaScript objects used as dictionaries *)
(* ===================================================================== *)

(** A plain object used as a string-keyed dictionary is modelled by the list
    of its own properties in the order [Object.keys] enumerates them: the
    keys that are canonical array indices first, in ascending numeric
    order, then every other key in the order of insertion.  Names that an
    object inherits from [Object.prototype] are outside the model. *)
Module JsObject.
Import JsString.

Definition dict (V : Type) : Type := list (string * V).

Fixpoint parseDigits (l : list ascii) (acc : N) : option N :=
  match l with
  | [] => Some acc
  | c :: t =>
      if isDigit c then parseDigits t (acc * 10 + N.of_nat (code c - 48))%N
      else None
  end.

(** [arrayIndex k] is [Some i] when [k] is the canonical decimal form of an
    integer [i] with [0 <= i < 2^32 - 1]. *)
Definition arrayIndex (k : string) : option N :=
  match chars k with
  | [] => None
  | c :: t =>
      if Ascii.eqb c "0" && negb (match t with [] => true | _ => false end)
      then None
      else match parseDigits (c :: t) 0 with
           | Some n => if (n <=? 4294967294)%N then Some n else None
           | None => None
           end
  end.

Section Dict.
Variable V : Type.

Fixpoint get (k : string) (d : dict V) : option V :=
  match d with
  | [] => None
  | (k', v) :: t => if String.eqb k' k then Some v else get k t
  end.

Definition has (k : string) (d : dict V) : bool :=
  match get k d with Some _ => true | None => false end.

Fixpoint update (k : string) (v : V) (d : dict V) : dict V :=
  match d with
  | [] => []
  | (k', v') :: t =>
      if String.eqb k' k then (k', v) :: t else (k', v') :: update k v t
  end.

Fixpoint insertIndex (i : N) (k : string) (v : V) (d : dict V) : dict V :=
  match d with
  | [] => [(k, v)]
  | (k', v') :: t =>
      match arrayIndex k' with
      | Some j => if (j <? i)%N then (k', v') :: insertIndex i k v t
                  else (k, v) :: d
      | None => (k, v) :: d
      end
  end.

(** [d[k] = v]. *)
Definition set (k : string) (v : V) (d : dict V) : dict V :=
  if has k d then update k v d
  else match arrayIndex k with
       | Some i => insertIndex i k v d
       | None => d ++ [(k, v)]
       end.

Definition keys (d : dict V) : list string := map fst d.
Definition values (d : dict V) : list V := map snd d.
End Dict.

End JsObject.

(* ===================================================================== *)
(** ** JSON values *)
(* ===================================================================== *)

Module Json.
Import JsString JsObject.

(** The values [JSON.parse] produces.  A number is represented by its
    canonical serialisation (the text [JSON.stringify] prints for it), which
    identifies the number; an object by its property list. *)
Inductive json : Type :=
| JNull
| JBool (b : bool)
| JNum (repr : string)
| JStr (s : string)
| JArr (items : list json)
| JObj (props : list (string * json)).

Definition hexDigit (n : nat) : ascii :=
  nth n ["0"; "1"; "2"; "3"; "4"; "5"; "6"; "7"; "8"; "9";
         "a"; "b"; "c"; "d"; "e"; "f"]%char "0"%char.

Definition dquote : ascii := ascii_of_nat 34.
Definition backslash : ascii := ascii_of_nat 92.

Definition escapeChar (c : ascii) : string :=
  let n := code c in
  if n =? 34 then String backslash (String dquote EmptyString)
  else if n =? 92 then String backslash (String backslash EmptyString)
  else if n =? 8 then String backslash "b"
  else if n =? 12 then String backslash "f"
  else if n =? 10 then String backslash "n"
  else if n =? 13 then String backslash "r"
  else if n =? 9 then String backslash "t"
  else if n <? 32 then
    String backslash ("u00" ++ String (hexDigit (n / 16)) (String (hexDigit (n mod 16)) EmptyString))%string
  else String c EmptyString.

Fixpoint escape (s : string) : string :=
  match s with
  | EmptyString => EmptyString
  | String c t => (escapeChar c ++ escape t)%string
  end.

Definition quote (s : string) : string :=
  String dquote (escape s ++ String dquote EmptyString)%string.

(** [JSON.stringify(v)]. *)
Fixpoint stringify (v : json) : string :=
  match v with
  | JNull => "null"
  | JBool true => "true"
  | JBool false => "false"
  | JNum r => r
  | JStr s => quote s
  | JArr l => ("[" ++ join "," (map stringify l) ++ "]")%string
  | JObj ps =>
      ("{" ++ join ","
                (map (fun p => let '(k, x) := p in (quote k ++ ":" ++ stringify x)%string) ps)
           ++ "}")%string
  end.

Definition newline : string := String (ascii_of_nat 10) EmptyString.

(** [JSON.stringify(v, null, 2)], at the current indentation. *)
Fixpoint stringifyIndented (indent : string) (v : json) : string :=
  let inner := (indent ++ "  ")%string in
  let sep := ("," ++ newline ++ inner)%string in
  match v with
  | JArr [] => "[]"
  | JArr l =>
      ("[" ++ newline ++ inner ++ join sep (map (stringifyIndented inner) l)
           ++ newline ++ indent ++ "]")%string
  | JObj [] => "{}"
  | JObj ps =>
      ("{" ++ newline ++ inner
           ++ join sep (map (fun p => let '(k, x) := p in
                                      (quote k ++ ": " ++ stringifyIndented inner x)%string) ps)
           ++ newline ++ indent ++ "}")%string
  | _ => stringify v
  end.

(** [Boolean(v)]. *)
Definition truthy (v : json) : bool :=
  match v with
  | JNull => false
  | JBool b => b
  | JNum r => negb (String.eqb r "0")
  | JStr s => nonEmpty s
  | JArr _ => true
  | JObj _ => true
  end.

Definition isArray (v : json) : bool :=
  match v with JArr _ => true | _ => false end.

Fixpoint indexed (A : Type) (i : nat) (l : list A) : list (string * A) :=
  match l with
  | [] => []
  | x :: t => (ofNat i, x) :: indexed (S i) t
  end.

(** The first binding of each name in a property list. *)
Fixpoint firstBindings (ps : list (string * json)) : list (string * json) :=
  match ps with
  | [] => []
  | (k, v) :: t =>
      (k, v) :: filter (fun p => negb (String.eqb (fst p) k)) (firstBindings t)
  end.

(** The own enumerable properties of a value, as [Object.keys] lists them:
    the properties of an object, the elements of an array, the characters
    of a string; a number or a boolean has none. *)
Definition ownProps (v : json) : dict json :=
  match v with
  | JObj ps => firstBindings ps
  | JArr l => indexed 0 l
  | JStr s => indexed 0 (map (fun c => JStr (String c EmptyString)) (chars s))
  | _ => []
  end.

Definition ownKeys (v : json) : list string := keys (ownProps v).

(** [v[k]] for a name [k] that is not inherited: an own enumerable
    property, or the [length] of an array or of a string; [None] stands for
    [undefined]. *)
Definition getProp (v : json) (k : string) : option json :=
  match get k (ownProps v) with
  | Some x => Some x
  | None =>
      if String.eqb k "length" then
        match v with
        | JArr l => Some (JNum (ofNat (length l)))
        | JStr s => Some (JNum (ofNat (String.length s)))
        | _ => None
        end
      else None
  end.

End Json.

(* ===================================================================== *)
(** ** services/consensusAI.js: synthesis of a consensus *)
(* ===================================================================== *)

Module Consensus.
Import JsString JsArray JsObject Json.

(** A successful provider response, as [getMultiProviderResponses] returns
    it (sorted by ascending priority). *)
Record response : Type := {
  provider : string;
  model : string;
  content : string;
  priority : nat
}.

(** An entry of [fieldVotes[key]]. *)
Record voteRec : Type := {
  count : nat;
  value : json;
  sources : list string
}.

Inductive strategy : Type := Single | MultiProvider | Fallback | Validated.

Record consensus : Type := {
  c_content : string;
  c_parsed : option (dict json);
  c_providers : list string;
  c_models : list string;
  c_consensus : strategy;
  c_note : option string
}.

(** The comparator [(a, b) => b.count - a.count]. *)
Definition byCountDesc (a b : voteRec) : Z := (Z.of_nat (count b) - Z.of_nat (count a))%Z.

(** One pass of the inner loop of the vote count, for the property
    [key: value] of a parsed response of the provider [source]. *)
Definition castVote (source : string) (fieldVotes : dict (dict voteRec))
    (kv : string * json) : dict (dict voteRec) :=
  let '(key, value) := kv in
  let valueStr := stringify value in
  let forKey := match get key fieldVotes with Some d => d | None => [] end in
  let entry :=
    match get valueStr forKey with
    | Some r => r
    | None => {| count := 0; value := value; sources := [] |}
    end in
  set key
      (set valueStr
           {| count := S (count entry);
              value := Consensus.value entry;
              sources := sources entry ++ [source] |}
           forKey)
      fieldVotes.

(** [parsed.forEach((obj, idx) => Object.keys(obj).forEach(...))]; the
    source attributes the vote of [parsed[idx]] to [responses[idx]]. *)
Fixpoint countVotesFrom (names : list string) (idx : nat) (parsed : list json)
    (fieldVotes : dict (dict voteRec)) : dict (dict voteRec) :=
  match parsed with
  | [] => fieldVotes
  | obj :: rest =>
      countVotesFrom names (S idx) rest
        (fold_left (castVote (nth idx names EmptyString)) (ownProps obj) fieldVotes)
  end.

Definition countVotes (names : list string) (parsed : list json) : dict (dict voteRec) :=
  countVotesFrom names 0 parsed [].

(** The votes of one key, most agreed first. *)
Definition rankedVotes (byValue : dict voteRec) : list voteRec :=
  sort byCountDesc (values byValue).

(** One pass of the selection loop. *)
Definition selectKey (parsed : list json) (merged : dict json)
    (entry : string * dict voteRec) : dict json :=
  let '(key, byValue) := entry in
  match rankedVotes byValue with
  | [] => merged   (* no key of fieldVotes is without a vote *)
  | top :: _ =>
      if (2 <=? count top) || (length parsed =? 1) then set key (value top) merged
      else
        match parsed with
        | first :: _ =>
            match getProp first key with
            | Some firstProviderValue => set key firstProviderValue merged
            | None => merged
            end
        | [] => merged
        end
  end.

Definition selectValues (parsed : list json) (fieldVotes : dict (dict voteRec)) : dict json :=
  fold_left (selectKey parsed) fieldVotes [].

Definition itemStr (item : json) : string :=
  match item with JStr s => s | _ => stringify item end.

(** The items not seen before, in the order met. *)
Fixpoint uniqueItems (seen : list string) (items : list json) : list json :=
  match items with
  | [] => []
  | item :: rest =>
      if existsb (String.eqb (itemStr item)) seen then uniqueItems seen rest
      else item :: uniqueItems (itemStr item :: seen) rest
  end.

(** [parsed.map(p => p[key]).filter(Array.isArray).flat()]. *)
Definition allItems (parsed : list json) (key : string) : list json :=
  flat_map (fun p => match getProp p key with Some (JArr l) => l | _ => [] end) parsed.

Definition mergeArrays (parsed : list json) (merged : dict json) : dict json :=
  map (fun kv => let '(key, v) := kv in
                 if isArray v then (key, JArr (uniqueItems [] (allItems parsed key)))
                 else (key, v))
      merged.

(** The object [merged] that the synthesis builds from the parsed responses. *)
Definition mergeParsed (names : list string) (parsed : list json) : dict json :=
  mergeArrays parsed (selectValues parsed (countVotes names parsed)).

Section Synthesis.
(** [JSON.parse]; [None] when it throws. *)
Variable JSON_parse : string -> option json.

Definition parseContent (text : string) : option json :=
  match indexOf text "{", lastIndexOf text "}" with
  | Some start, Some stop => JSON_parse (slice text start (stop + 1))
  | _, _ => JSON_parse text
  end.

(** [responses.map(...).filter(Boolean)]. *)
Definition parsedResponses (responses : list response) : list json :=
  flat_map (fun r => match parseContent (content r) with
                     | Some v => if truthy v then [v] else []
                     | None => []
                     end)
           responses.

Definition synthesizeJsonConsensus (responses : list response) : consensus :=
  let parsed := parsedResponses responses in
  match parsed with
  | [] =>
      {| c_content := match responses with r :: _ => content r | [] => EmptyString end;
         c_parsed := None;
         c_providers := map provider responses;
         c_models := map model responses;
         c_consensus := Fallback;
         c_note := None |}
  | _ :: _ =>
      let merged := mergeParsed (map provider responses) parsed in
      {| c_content := stringifyIndented EmptyString (JObj merged);
         c_parsed := Some merged;
         c_providers := map provider responses;
         c_models := map model responses;
         c_consensus := if 1 <? length parsed then MultiProvider else Single;
         c_note := None |}
  end.

Definition synthesizeTextConsensus (responses : list response) : option consensus :=
  match responses with
  | [] => None
  | [r] =>
      Some {| c_content := content r; c_parsed := None;
              c_providers := [provider r]; c_models := [model r];
              c_consensus := Single; c_note := None |}
  | primary :: _ =>
      Some {| c_content := content primary; c_parsed := None;
              c_providers := map provider responses;
              c_models := map model responses;
              c_consensus := Validated;
              c_note := Some ("Validated by " ++ ofNat (length responses) ++ " providers: "
                                ++ join ", " (map provider responses))%string |}
  end.

(** [synthesizeConsensus]; the error is the message of the exception. *)
Definition synthesizeConsensus (responses : list response) (sectionType : string)
    : string + consensus :=
  match responses with
  | [] => inl "No successful responses from any provider"
  | [r] =>
      inr {| c_content := content r; c_parsed := None;
             c_providers := [provider r]; c_models := [model r];
             c_consensus := Single; c_note := None |}
  | primary :: _ =>
      if String.eqb sectionType "json" then inr (synthesizeJsonConsensus responses)
      else match synthesizeTextConsensus responses with
           | Some c => inr c
           | None => inl "No successful responses from any provider"
           end
  end.
End Synthesis.

End Consensus.

(* ===================================================================== *)
(** ** Effects: calls that change the outside world and may throw *)
(* ===================================================================== *)

Module Effect.

(** How a call ends: it returns a value, or it throws an [Error] (modelled
    by its message). *)
Inductive outcome (A : Type) : Type :=
| Returned (a : A)
| Thrown (message : string).
Arguments Returned {A} a.
Arguments Thrown {A} message.

Section Monad.
(** The state of everything outside the process: the network and the
    providers behind it. *)
Variable World : Type.

Definition M (A : Type) : Type := World -> outcome A * World.

Definition ret (A : Type) (a : A) : M A := fun w => (Returned a, w).

Definition throw (A : Type) (message : string) : M A := fun w => (Thrown message, w).

Definition bind (A B : Type) (c : M A) (f : A -> M B) : M B :=
  fun w => match c w with
           | (Returned a, w') => f a w'
           | (Thrown m, w') => (Thrown m, w')
           end.

(** [try { c } catch (err) { handler(err.message) }]. *)
Definition tryCatch (A : Type) (c : M A) (handler : string -> M A) : M A :=
  fun w => match c w with
           | (Returned a, w') => (Returned a, w')
           | (Thrown m, w') => handler m w'
           end.
End Monad.

Arguments ret {World A} a.
Arguments throw {World A} message.
Arguments bind {World A B} c f.
Arguments tryCatch {World A} c handler.

Declare Scope effect_scope.
Delimit Scope effect_scope with effect.
Notation "x <- c ;; k" := (bind c (fun x => k))
  (at level 61, c at next level, right associativity) : effect_scope.

End Effect.

(* ===================================================================== *)
(** ** config/aiProvider.js: registry, transports and the fallback chain *)
(* ===================================================================== *)

Module AiProvider.
Import JsString JsArray Effect.

(** *** Configuration *)

(** [process.env]: a variable that is not set reads as the empty string
    (the source tests every variable for truthiness before using it). *)
Definition environment : Type := string -> string.

(** [a || b] on strings. *)
Definition orElse (a b : string) : string := if nonEmpty a then a else b.

Definition GEMINI : string := "gemini".
Definition GROQ : string := "groq".
Definition HUGGINGFACE : string := "huggingface".
Definition OPENAI : string := "openai".
Definition OPENROUTER : string := "openrouter".
Definition PERPLEXITY : string := "perplexity".

Definition gatewayPrefix : string := "sk-or-v1-".

(** What [getGeminiClient] returns: nothing, the marker of a gateway key,
    or a client of the vendor's SDK. *)
Inductive geminiClient : Type :=
| NoClient
| GatewayKey (apiKey : string)
| DirectClient (apiKey : string).

Definition getOpenRouterClient (env : environment) (modelType : string) : option string :=
  let primaryKey := env "GEMINI_API_KEY" in
  let secondaryKey := orElse (env "ANTHROPIC_API_KEY") (env "OPENROUTER_API_KEY") in
  let perplexityKey := env "PERPLEXITY_API_KEY" in
  if String.eqb modelType "perplexity" && nonEmpty perplexityKey
     && startsWith perplexityKey gatewayPrefix
  then Some (trim perplexityKey)
  else if String.eqb modelType "gemini" && nonEmpty primaryKey
          && startsWith primaryKey gatewayPrefix
  then Some (trim primaryKey)
  else if String.eqb modelType "anthropic" && nonEmpty secondaryKey
          && startsWith secondaryKey gatewayPrefix
  then Some (trim secondaryKey)
  else if nonEmpty primaryKey && startsWith primaryKey gatewayPrefix
  then Some (trim primaryKey)
  else None.

Definition getGeminiClient (env : environment) : geminiClient :=
  let apiKey := env "GEMINI_API_KEY" in
  if negb (nonEmpty apiKey) || String.eqb apiKey "your_gemini_api_key_here"
     || negb (nonEmpty (trim apiKey))
  then NoClient
  else if startsWith (trim apiKey) gatewayPrefix then GatewayKey (trim apiKey)
  else DirectClient (trim apiKey).

(** [getGroqClient]: the key of the SDK client, when there is one. *)
Definition getGroqClient (env : environment) : option string :=
  let apiKey := env "GROQ_API_KEY" in
  if negb (nonEmpty apiKey) || String.eqb apiKey "your_groq_api_key_here"
     || negb (nonEmpty (trim apiKey))
  then None
  else Some (trim apiKey).

Definition getOpenAIClient (env : environment) : option string :=
  let apiKey := env "OPENAI_API_KEY" in
  if negb (nonEmpty apiKey) || String.eqb apiKey "your_openai_api_key_here"
  then None
  else Some apiKey.

(** *** Provider registry *)

Record providerDescriptor : Type := {
  name : string;
  model : string;
  apiKey : option string
}.

Definition configured (env : environment) (variable placeholder : string) : bool :=
  nonEmpty (env variable) && negb (String.eqb (env variable) placeholder).

(** The providers in the default priority order. *)
Definition defaultProviders (env : environment) : list providerDescriptor :=
  (if configured env "GEMINI_API_KEY" "your_gemini_api_key_here" then
     match getGeminiClient env with
     | NoClient => []
     | GatewayKey key =>
         [{| name := OPENROUTER;
             model := orElse (env "GEMINI_MODEL") "google/gemini-2.0-flash-exp";
             apiKey := Some key |}]
     | DirectClient _ =>
         [{| name := GEMINI;
             model := orElse (env "GEMINI_MODEL") "gemini-2.0-flash-exp";
             apiKey := None |}]
     end
   else [])
  ++ (if configured env "GROQ_API_KEY" "your_groq_api_key_here" then
        [{| name := GROQ;
            model := orElse (env "GROQ_MODEL") "llama-3.3-70b-versatile";
            apiKey := None |}]
      else [])
  ++ (if configured env "HUGGINGFACE_API_KEY" "your_huggingface_api_key_here" then
        [{| name := HUGGINGFACE;
            model := orElse (env "HUGGINGFACE_MODEL") "mistralai/Mistral-7B-Instruct-v0.2";
            apiKey := None |}]
      else [])
  ++ (if configured env "OPENAI_API_KEY" "your_openai_api_key_here" then
        [{| name := OPENAI;
            model := orElse (env "OPENAI_MODEL") "gpt-4o-mini";
            apiKey := None |}]
      else [])
  ++ (if configured env "PERPLEXITY_API_KEY" "your_perplexity_api_key_here" then
        if startsWith (env "PERPLEXITY_API_KEY") gatewayPrefix then
          match getOpenRouterClient env "perplexity" with
          | Some key =>
              [{| name := OPENROUTER;
                  model := orElse (env "PERPLEXITY_MODEL")
                                  "perplexity/llama-3.1-sonar-large-32k-online";
                  apiKey := Some key |}]
          | None => []
          end
        else
          [{| name := PERPLEXITY;
              model := orElse (env "PERPLEXITY_MODEL") "llama-3.1-sonar-large-32k-online";
              apiKey := None |}]
      else []).

Definition MAX_SAFE_INTEGER : Z := 9007199254740991%Z.

(** [orderMap.get(name)] for
    [orderMap = new Map(preferredOrder.map((name, index) => [name, index]))],
    the indices counted from [i]: a later entry replaces an earlier one of
    the same name. *)
Fixpoint orderMapGet (preferredOrder : list string) (i : nat) (n : string) : option nat :=
  match preferredOrder with
  | [] => None
  | n' :: rest =>
      match orderMapGet rest (S i) n with
      | Some j => Some j
      | None => if String.eqb n' n then Some i else None
      end
  end.

Definition rank (preferredOrder : list string) (p : providerDescriptor) : Z :=
  match orderMapGet preferredOrder 0 (name p) with
  | Some i => Z.of_nat i
  | None => MAX_SAFE_INTEGER
  end.

Definition byRank (preferredOrder : list string) (a b : providerDescriptor) : Z :=
  (rank preferredOrder a - rank preferredOrder b)%Z.

Definition reorder (preferredOrder : list string) (providers : list providerDescriptor)
    : list providerDescriptor :=
  match preferredOrder with
  | [] => providers
  | _ :: _ => sort (byRank preferredOrder) providers
  end.

Definition getAvailableProviders (env : environment) (preferredOrder : list string)
    : list providerDescriptor :=
  reorder preferredOrder (defaultProviders env).

(** *** Requests and answers on the wire *)

Record message : Type := { role : string; text : string }.

(** The options a transport receives.  A number is a rational here
    (non-finite numbers are outside the model); an absent [model] is the
    empty string. *)
Record callOptions : Type := {
  temperature : option Q;
  maxTokens : option Z;
  requestedModel : string
}.

(** The JSON body of a chat-completion request. *)
Record chatBody : Type := {
  cb_model : string;
  cb_messages : list message;
  cb_temperature : Q;
  cb_max_tokens : Z
}.

Inductive requestBody : Type :=
| ChatCompletion (body : chatBody)
| TextGeneration (inputs : string) (max_new_tokens : Z) (hf_temperature : Q).

Record httpRequest : Type := {
  url : string;
  bearer : string;
  body : requestBody
}.

(** What is read from the body of an answer: the assistant text at the
    path [choices?.[0]?.message?.content] of a chat completion, or one of
    the shapes of a text-generation answer. *)
Inductive payload : Type :=
| ChatAnswer (content : option string)
| GeneratedList (generated_text : option string)
| GeneratedObject (generated_text : option string)
| GeneratedString (s : string).

Record httpResponse : Type := {
  status : nat;
  errorText : string;
  answer : payload
}.

(** A call through a vendor SDK; the SDK throws when the transport fails. *)
Inductive sdkRequest : Type :=
| GeminiGenerate (key model : string) (generationConfig : option (Q * Z)) (prompt : string)
| GroqCreate (key : string) (body : chatBody)
| OpenAICreate (key : string) (body : chatBody).

Definition ok (r : httpResponse) : bool := (200 <=? status r) && (status r <=? 299).

Definition chatContent (r : httpResponse) : option string :=
  match answer r with ChatAnswer c => c | _ => None end.

(** [content && content.trim().length > 0]. *)
Definition hasText (content : option string) : bool :=
  match content with
  | Some c => nonEmpty c && (0 <? String.length (trim c))
  | None => false
  end.

(** [content || '{}']. *)
Definition orEmptyObject (content : option string) : string :=
  match content with Some c => orElse c "{}" | None => "{}" end.

Definition withSystem (systemPrompt : string) (messages : list message) : list message :=
  if nonEmpty systemPrompt then {| role := "system"; text := systemPrompt |} :: messages
  else messages.

Definition defaultTemperature : Q := 2 # 10.

(** [options.temperature ?? 0.2] and [options.maxTokens ?? 4000]. *)
Definition temperatureOf (options : callOptions) : Q :=
  match temperature options with Some t => t | None => defaultTemperature end.

Definition maxTokensOf (options : callOptions) : Z :=
  match maxTokens options with Some m => m | None => 4000%Z end.

(** The body that [callOpenRouter] sends for [model]. *)
Definition openRouterBody (model : string) (messageArray : list message)
    (temperature : Q) (maxTokens : Z) : chatBody :=
  {| cb_model := model;
     cb_messages := messageArray;
     cb_temperature := Qmax 0 (Qmin 2 temperature);
     cb_max_tokens := Z.max 1 (Z.min 32000 maxTokens) |}.

(** The body that [callGroq], [callPerplexity] and [callOpenAI] send. *)
Definition plainChatBody (model : string) (messageArray : list message)
    (options : callOptions) : chatBody :=
  {| cb_model := model;
     cb_messages := messageArray;
     cb_temperature := temperatureOf options;
     cb_max_tokens := maxTokensOf options |}.

(** The body that [callHuggingFace] sends. *)
Definition huggingFaceBody (prompt : string) (options : callOptions) : requestBody :=
  TextGeneration prompt
    (Z.min (match maxTokens options with Some m => m | None => 2000%Z end) 2000)
    (temperatureOf options).

(** The generation config that [callGemini] hands to the SDK. *)
Definition geminiConfig (options : callOptions) : Q * Z :=
  (temperatureOf options, maxTokensOf options).

(** *** Transport adapters *)

Section Transports.
Variable World : Type.
Variable env : environment.
(** [fetch]: the call rejects (and so does a body that cannot be read) or
    resolves to a response. *)
Variable fetch : httpRequest -> M World httpResponse.
(** A call of a vendor SDK: throws, or resolves to the text at the
    completion's path ([None] when it is absent). *)
Variable sdk : sdkRequest -> M World (option string).

Local Open Scope effect_scope.

Definition openRouterUrl : string := "https://openrouter.ai/api/v1/chat/completions".

Definition openRouterKey (requested : string) : string :=
  if includes requested "perplexity" then
    if nonEmpty (env "PERPLEXITY_API_KEY")
       && startsWith (env "PERPLEXITY_API_KEY") gatewayPrefix
    then env "PERPLEXITY_API_KEY"
    else orElse (env "ANTHROPIC_API_KEY")
                (orElse (env "OPENROUTER_API_KEY") (env "GEMINI_API_KEY"))
  else if includes requested "anthropic" || includes requested "claude" then
    orElse (env "ANTHROPIC_API_KEY")
           (orElse (env "OPENROUTER_API_KEY") (env "GEMINI_API_KEY"))
  else env "GEMINI_API_KEY".

Definition openRouterKeySource (requested : string) : string :=
  if includes requested "perplexity" then "PERPLEXITY_API_KEY"
  else if includes requested "anthropic" || includes requested "claude"
  then "ANTHROPIC_API_KEY or OPENROUTER_API_KEY"
  else "GEMINI_API_KEY".

Definition openRouterFallbackModels (model : string) : list string :=
  if includes model "perplexity" then
    ["perplexity/llama-3.1-sonar-large-32k-online";
     "perplexity/llama-3.1-sonar-huge-128k-online";
     "perplexity/llama-3.1-sonar-small-32k-online";
     "google/gemini-2.0-flash-exp"]
  else if includes model "anthropic" || includes model "claude" then
    ["anthropic/claude-3-haiku";
     "anthropic/claude-3-opus";
     "google/gemini-2.0-flash-exp"]
  else
    ["google/gemini-2.0-flash";
     "google/gemini-pro";
     "google/gemini-flash-1.5";
     "anthropic/claude-3-haiku"].

(** The message of the error thrown for a response that is not [ok]. *)
Definition openRouterFailure (response : httpResponse) : string :=
  let shown := substring0 (errorText response) 200 in
  if status response =? 400 then
    ("OpenRouter bad request (400): " ++ shown
       ++ ". Check model name and request format.")%string
  else if (status response =? 401) || (status response =? 403) then
    ("OpenRouter authentication failed (" ++ ofNat (status response)
       ++ "): Invalid API key.")%string
  else if status response =? 429 then
    ("OpenRouter rate limit (429): " ++ shown)%string
  else
    ("OpenRouter API error (" ++ ofNat (status response) ++ "): " ++ shown)%string.

Definition openRouterRequest (key model : string) (messageArray : list message)
    (t : Q) (m : Z) : httpRequest :=
  {| url := openRouterUrl; bearer := key;
     body := ChatCompletion (openRouterBody model messageArray t m) |}.

(** The loop over the fallback models: [Some content] when one of them
    answers with text, [None] when the loop ends or is left by [break]. *)
Fixpoint openRouterFallbacks (key model : string) (messageArray : list message)
    (t : Q) (m : Z) (fallbackModels : list string) : M World (option string) :=
  match fallbackModels with
  | [] => ret None
  | fallbackModel :: rest =>
      if String.eqb fallbackModel model
      then openRouterFallbacks key model messageArray t m rest
      else fun w =>
        match fetch (openRouterRequest key fallbackModel messageArray t m) w with
        | (Returned response, w') =>
            if ok response then
              if hasText (chatContent response)
              then (Returned (chatContent response), w')
              else openRouterFallbacks key model messageArray t m rest w'
            else if status response =? 400 then (Returned None, w')
            else openRouterFallbacks key model messageArray t m rest w'
        | (Thrown _, w') => openRouterFallbacks key model messageArray t m rest w'
        end
  end.

Definition callOpenRouter (messages : list message) (systemPrompt : string)
    (options : callOptions) : M World string :=
  let requested :=
    orElse (requestedModel options)
           (orElse (env "GEMINI_MODEL") "google/gemini-2.0-flash-exp") in
  let key := openRouterKey requested in
  if negb (nonEmpty key) then
    throw ("OpenRouter API key not configured - " ++ openRouterKeySource requested
             ++ " is missing or empty")%string
  else if negb (startsWith key gatewayPrefix) then
    throw ("OpenRouter API key format invalid - key should start with 'sk-or-v1-' but starts with: "
             ++ substring0 key (Nat.min 15 (String.length key)) ++ "...")%string
  else
    let model := requested in
    let t := temperatureOf options in
    let m := maxTokensOf options in
    let messageArray := withSystem systemPrompt messages in
    tryCatch
      (response <- fetch (openRouterRequest key model messageArray t m) ;;
       if negb (ok response) then throw (openRouterFailure response)
       else match chatContent response with
            | Some content =>
                if hasText (Some content) then ret content
                else throw "OpenRouter returned empty response"
            | None => throw "OpenRouter returned empty response"
            end)
      (fun err =>
         if includes err "404" || includes err "not found" || includes err "model" then
           found <- openRouterFallbacks key model messageArray t m
                      (openRouterFallbackModels model) ;;
           match found with
           | Some content => ret content
           | None => throw err
           end
         else throw err).

Definition linefeed : string := String (ascii_of_nat 10) EmptyString.

(** The single prompt that [callGemini] builds. *)
Fixpoint geminiTurns (messages : list message) : string :=
  match messages with
  | [] => EmptyString
  | msg :: rest =>
      ((if String.eqb (role msg) "user" then text msg ++ linefeed
        else if String.eqb (role msg) "assistant" then "Assistant: " ++ text msg ++ linefeed
        else EmptyString) ++ geminiTurns rest)%string
  end.

Definition geminiPrompt (messages : list message) (systemPrompt : string) : string :=
  ((if nonEmpty systemPrompt then systemPrompt ++ linefeed ++ linefeed else EmptyString)
     ++ geminiTurns messages)%string.

Fixpoint geminiFallbacks (key model fullPrompt : string) (fallbackModels : list string)
    : M World (option string) :=
  match fallbackModels with
  | [] => ret None
  | fallbackModelName :: rest =>
      if String.eqb fallbackModelName model
      then geminiFallbacks key model fullPrompt rest
      else fun w =>
        match sdk (GeminiGenerate key fallbackModelName None fullPrompt) w with
        | (Returned answered, w') =>
            if hasText answered then (Returned answered, w')
            else geminiFallbacks key model fullPrompt rest w'
        | (Thrown _, w') => geminiFallbacks key model fullPrompt rest w'
        end
  end.

Definition callGemini (messages : list message) (systemPrompt : string)
    (options : callOptions) : M World string :=
  match getGeminiClient env with
  | NoClient => throw "Gemini client not available"
  | GatewayKey _ => throw "Gemini client not available"
  | DirectClient key =>
      let model := orElse (env "GEMINI_MODEL") "gemini-2.0-flash-exp" in
      let fullPrompt := geminiPrompt messages systemPrompt in
      tryCatch
        (answered <- sdk (GeminiGenerate key model (Some (geminiConfig options)) fullPrompt) ;;
         match answered with
         | Some content =>
             if hasText (Some content) then ret content
             else throw "Gemini returned empty response"
         | None => throw "Gemini returned empty response"
         end)
        (fun err =>
           if includes err "404" || includes err "not found" then
             found <- geminiFallbacks key model fullPrompt
                        ["gemini-2.0-flash"; "gemini-2.5-flash";
                         "gemini-2.5-pro"; "gemini-2.0-flash-lite"] ;;
             match found with
             | Some content => ret content
             | None => throw err
             end
           else throw err)
  end.

Definition groqModels : list string :=
  [orElse (env "GROQ_MODEL") "llama-3.3-70b-versatile";
   "llama-3.3-70b-versatile";
   "llama-3.1-8b-instant";
   "llama-3.1-70b-versatile";
   "llama-3-8b-8192";
   "mixtral-8x7b-32768"].

Definition lastMessage (lastError : option string) : string :=
  match lastError with Some m => orElse m "Unknown error" | None => "Unknown error" end.

Fixpoint groqLoop (key : string) (messageArray : list message) (options : callOptions)
    (models : list string) (lastError : option string) : M World string :=
  match models with
  | [] => throw ("All Groq models failed: " ++ lastMessage lastError)%string
  | model :: rest => fun w =>
      match sdk (GroqCreate key (plainChatBody model messageArray options)) w with
      | (Returned content, w') => (Returned (orEmptyObject content), w')
      | (Thrown err, w') =>
          if includes err "decommissioned" || includes err "not found" || includes err "404"
          then groqLoop key messageArray options rest (Some err) w'
          else (Thrown err, w')
      end
  end.

Definition callGroq (messages : list message) (systemPrompt : string)
    (options : callOptions) : M World string :=
  match getGroqClient env with
  | None => throw "Groq client not available"
  | Some key => groqLoop key (withSystem systemPrompt messages) options groqModels None
  end.

Definition huggingFaceModels : list string :=
  [orElse (env "HUGGINGFACE_MODEL") "mistralai/Mistral-7B-Instruct-v0.2";
   "mistralai/Mistral-7B-Instruct-v0.2";
   "meta-llama/Llama-2-7b-chat-hf";
   "google/flan-t5-large"].

Fixpoint userTurns (messages : list message) : string :=
  match messages with
  | [] => EmptyString
  | msg :: rest =>
      ((if String.eqb (role msg) "user" then text msg ++ linefeed else EmptyString)
         ++ userTurns rest)%string
  end.

Definition huggingFacePrompt (messages : list message) (systemPrompt : string) : string :=
  ((if nonEmpty systemPrompt then systemPrompt ++ linefeed ++ linefeed else EmptyString)
     ++ userTurns messages)%string.

Definition huggingFaceRequest (key model prompt : string) (options : callOptions)
    : httpRequest :=
  {| url := ("https://api-inference.huggingface.co/models/" ++ model)%string;
     bearer := key;
     body := huggingFaceBody prompt options |}.

(** The body of the [try] block for one model: [Returned (Some text)] is
    [return text], [Returned None] is the [continue] for a model that is
    gone. *)
Definition huggingFaceAttempt (key model prompt : string) (options : callOptions)
    : M World (option string) :=
  response <- fetch (huggingFaceRequest key model prompt options) ;;
  if negb (ok response) then
    if (status response =? 410) || (status response =? 404) then ret None
    else throw ("Hugging Face API error: " ++ ofNat (status response) ++ " - "
                  ++ errorText response)%string
  else
    match answer response with
    | GeneratedList (Some generated) =>
        if nonEmpty generated then ret (Some (trim generated))
        else throw "Unexpected Hugging Face response format"
    | GeneratedObject (Some generated) =>
        if nonEmpty generated then ret (Some (trim generated))
        else throw "Unexpected Hugging Face response format"
    | GeneratedString s => ret (Some (trim s))
    | _ => throw "Unexpected Hugging Face response format"
    end.

Fixpoint huggingFaceLoop (key prompt : string) (options : callOptions)
    (models : list string) (lastError : option string) : M World string :=
  match models with
  | [] => throw ("All Hugging Face models failed: " ++ lastMessage lastError)%string
  | model :: rest => fun w =>
      match huggingFaceAttempt key model prompt options w with
      | (Returned (Some generated), w') => (Returned generated, w')
      | (Returned None, w') =>
          huggingFaceLoop key prompt options rest
            (Some ("Model " ++ model ++ " not available")%string) w'
      | (Thrown err, w') =>
          if includes err "410" || includes err "404" || includes err "not available"
          then huggingFaceLoop key prompt options rest (Some err) w'
          else (Thrown err, w')
      end
  end.

Definition callHuggingFace (messages : list message) (systemPrompt : string)
    (options : callOptions) : M World string :=
  let key := env "HUGGINGFACE_API_KEY" in
  if negb (nonEmpty key) || String.eqb key "your_huggingface_api_key_here"
  then throw "Hugging Face API key not configured"
  else huggingFaceLoop key (huggingFacePrompt messages systemPrompt) options
         huggingFaceModels None.

Definition perplexityRequest (key model : string) (messages : list message)
    (systemPrompt : string) (options : callOptions) : httpRequest :=
  {| url := "https://api.perplexity.ai/chat/completions";
     bearer := trim key;
     body := ChatCompletion
               (plainChatBody model (withSystem systemPrompt messages) options) |}.

Definition callPerplexity (messages : list message) (systemPrompt : string)
    (options : callOptions) : M World string :=
  let key := env "PERPLEXITY_API_KEY" in
  if negb (nonEmpty key) || String.eqb key "your_perplexity_api_key_here"
     || negb (nonEmpty (trim key))
  then throw "Perplexity API key not configured"
  else
    let model := orElse (env "PERPLEXITY_MODEL") "llama-3.1-sonar-large-32k-online" in
    tryCatch
      (response <- fetch (perplexityRequest key model messages systemPrompt options) ;;
       if negb (ok response) then
         throw ("Perplexity API error: " ++ ofNat (status response) ++ " - "
                  ++ errorText response)%string
       else ret (orEmptyObject (chatContent response)))
      (fun err => throw ("Perplexity API failed: " ++ err)%string).

Definition callOpenAI (messages : list message) (systemPrompt : string)
    (options : callOptions) : M World string :=
  match getOpenAIClient env with
  | None => throw "OpenAI client not available"
  | Some key =>
      let model := orElse (env "OPENAI_MODEL") "gpt-4o-mini" in
      content <- sdk (OpenAICreate key
                        (plainChatBody model (withSystem systemPrompt messages) options)) ;;
      ret (orEmptyObject content)
  end.

Definition callProvider (providerName : string) (messages : list message)
    (systemPrompt : string) (options : callOptions) : M World string :=
  if String.eqb providerName GEMINI then callGemini messages systemPrompt options
  else if String.eqb providerName OPENROUTER then callOpenRouter messages systemPrompt options
  else if String.eqb providerName GROQ then callGroq messages systemPrompt options
  else if String.eqb providerName HUGGINGFACE then callHuggingFace messages systemPrompt options
  else if String.eqb providerName OPENAI then callOpenAI messages systemPrompt options
  else if String.eqb providerName PERPLEXITY then callPerplexity messages systemPrompt options
  else throw ("Unknown provider: " ++ providerName)%string.
End Transports.

(** *** The fallback chain *)

Record generateOptions : Type := {
  preferredProviders : list string;
  g_temperature : option Q;
  g_maxTokens : option Z;
  g_model : string
}.

Record aiResponse : Type := {
  r_content : string;
  r_provider : string;
  r_model : string
}.

(** An entry of the [errors] array. *)
Record errorInfo : Type := {
  e_provider : string;
  e_error : string
}.

Inductive failureClass : Type := RateLimited | AuthFailure | OtherFailure.

Definition classify (errorMsg : string) : failureClass :=
  if includes errorMsg "429" || includes errorMsg "Too Many Requests"
     || includes errorMsg "Quota exceeded" || includes errorMsg "rate limit"
  then RateLimited
  else if includes errorMsg "API key" || includes errorMsg "401" || includes errorMsg "403"
          || includes errorMsg "invalid" || includes errorMsg "Unauthorized"
          || includes errorMsg "authentication"
  then AuthFailure
  else OtherFailure.

(** Where the loop over the providers ends: with the response of the first
    provider that succeeds, or past the end of the list. *)
Record chainEnd : Type := {
  found : option aiResponse;
  lastError : option string;
  errors : list errorInfo
}.

(** The options that the chain hands to [callProvider] for a provider:
    [{ temperature, maxTokens, model: model || provider.model }]. *)
Definition optionsFor (options : generateOptions) (provider : providerDescriptor)
    : callOptions :=
  {| temperature := Some (match g_temperature options with
                          | Some t => t
                          | None => defaultTemperature
                          end);
     maxTokens := Some (match g_maxTokens options with
                        | Some m => m
                        | None => 4000%Z
                        end);
     requestedModel := orElse (g_model options) (model provider) |}.

Section Chain.
Variable World : Type.
(** [callProvider(provider.name, messages, systemPrompt, options)] with the
    messages and the system prompt of the call in progress. *)
Variable call : string -> callOptions -> M World string.

Fixpoint tryProviders (options : generateOptions) (providers : list providerDescriptor)
    (lastErr : option string) (errs : list errorInfo) : M World chainEnd :=
  match providers with
  | [] => ret {| found := None; lastError := lastErr; errors := errs |}
  | provider :: rest => fun w =>
      let actualModel := orElse (g_model options) (model provider) in
      match call (name provider) (optionsFor options provider) w with
      | (Returned result, w') =>
          (Returned {| found := Some {| r_content := result;
                                        r_provider := name provider;
                                        r_model := actualModel |};
                       lastError := lastErr; errors := errs |}, w')
      | (Thrown err, w') =>
          let errorMsg := orElse err "Error" in
          let errs' := errs ++ [{| e_provider := name provider;
                                   e_error := substring0 errorMsg 200 |}] in
          match classify errorMsg with
          | RateLimited => tryProviders options rest (Some err) errs' w'
          | AuthFailure => tryProviders options rest (Some err) errs' w'
          | OtherFailure => tryProviders options rest (Some err) errs' w'
          end
      end
  end.

Definition noProvidersMessage : string :=
  "No AI providers configured. Please set at least one API key in server/.env".

Definition exhaustedMessage (lastErr : option string) : string :=
  ("All AI providers failed. Please check your API keys and try again. The system tried all available providers but none succeeded. Last error: "
     ++ lastMessage lastErr)%string.

(** [generateAIResponse] once the registry has answered. *)
Definition generateFrom (options : generateOptions) (providers : list providerDescriptor)
    : M World aiResponse :=
  match providers with
  | [] => throw noProvidersMessage
  | _ :: _ =>
      bind (tryProviders options providers None [])
           (fun e => match found e with
                     | Some response => ret response
                     | None => throw (exhaustedMessage (lastError e))
                     end)
  end.
End Chain.

Section Generate.
Variable World : Type.
Variable env : environment.
Variable fetch : httpRequest -> M World httpResponse.
Variable sdk : sdkRequest -> M World (option string).

Definition generateAIResponse (messages : list message) (systemPrompt : string)
    (options : generateOptions) : M World aiResponse :=
  generateFrom (fun providerName => callProvider env fetch sdk providerName messages systemPrompt)
               options
               (getAvailableProviders env (preferredProviders options)).
End Generate.

End AiProvider.

(* ===================================================================== *)
(** ** Regular expressions *)
(* ===================================================================== *)

(** The patterns of the source are written in a small regular-expression
    language and run by a backtracking matcher with the priorities of the
    JavaScript one: the alternatives of [|] are tried from left to right, a
    quantifier is greedy, and an iteration of [*] that consumes nothing is
    not taken. *)
Module Regex.
Import JsString.

Inductive regex : Type :=
| Eps                                   (* the empty pattern *)
| Chr (accepts : ascii -> bool)         (* one character of a class *)
| Cat (r1 r2 : regex)                   (* r1 r2 *)
| Alt (r1 r2 : regex)                   (* r1|r2 *)
| Star (r : regex)                      (* r* *)
| Group (n : nat) (r : regex)           (* the n-th capturing group *)
| Bol                                   (* ^ *)
| Eol                                   (* $ *)
| WordBoundary.                         (* \b *)

Record state : Type := {
  pos : nat;                            (* index of the next character *)
  before : option ascii;                (* the character before it *)
  rest : list ascii;                    (* the characters from it on *)
  caps : list (nat * (nat * nat))       (* group, start, end *)
}.

Definition wordBefore (st : state) : bool :=
  match before st with Some c => isWord c | None => false end.

Definition wordAfter (st : state) : bool :=
  match rest st with c :: _ => isWord c | [] => false end.

(** [run r st k]: match [r] at [st], then go on with [k]; [None] when every
    way of matching fails. *)
Fixpoint run (A : Type) (r : regex) (st : state) (k : state -> option A) : option A :=
  match r with
  | Eps => k st
  | Chr accepts =>
      match rest st with
      | c :: t =>
          if accepts c
          then k {| pos := S (pos st); before := Some c; rest := t; caps := caps st |}
          else None
      | [] => None
      end
  | Cat r1 r2 => run r1 st (fun st' => run r2 st' k)
  | Alt r1 r2 =>
      match run r1 st k with
      | Some x => Some x
      | None => run r2 st k
      end
  | Star r1 =>
      (fix iterate (fuel : nat) (st : state) : option A :=
         match fuel with
         | O => k st
         | S fuel' =>
             match run r1 st (fun st' => if pos st' =? pos st then None
                                         else iterate fuel' st') with
             | Some x => Some x
             | None => k st
             end
         end) (S (length (rest st))) st
  | Group n r1 =>
      run r1 st (fun st' =>
        k {| pos := pos st'; before := before st'; rest := rest st';
             caps := (n, (pos st, pos st')) :: caps st' |})
  | Bol => if pos st =? 0 then k st else None
  | Eol => match rest st with [] => k st | _ :: _ => None end
  | WordBoundary => if xorb (wordBefore st) (wordAfter st) then k st else None
  end.

(** A match: where it starts and the state at its end. *)
Record found : Type := {
  index : nat;
  final : state
}.

Definition stop (m : found) : nat := pos (final m).

(** The match that starts exactly at [st]. *)
Definition matchAt (r : regex) (st : state) : option found :=
  run r st (fun st' => Some {| index := pos st; final := st' |}).

(** The leftmost match at or after [st]. *)
Fixpoint searchFrom (r : regex) (i : nat) (prev : option ascii) (l : list ascii)
    : option found :=
  match matchAt r {| pos := i; before := prev; rest := l; caps := [] |} with
  | Some m => Some m
  | None =>
      match l with
      | [] => None
      | c :: t => searchFrom r (S i) (Some c) t
      end
  end.

(** [s.match(r)] for a pattern without the [g] flag. *)
Definition exec (r : regex) (s : string) : option found :=
  searchFrom r 0 None (chars s).

(** [r.test(s)]. *)
Definition test (r : regex) (s : string) : bool :=
  match exec r s with Some _ => true | None => false end.

(** [m[0]]. *)
Definition matched (s : string) (m : found) : string := slice s (index m) (stop m).

Fixpoint lookupCap (n : nat) (l : list (nat * (nat * nat))) : option (nat * nat) :=
  match l with
  | [] => None
  | (n', span) :: t => if n' =? n then Some span else lookupCap n t
  end.

(** [m[n]]; every group the source reads takes part in each match of its
    pattern. *)
Definition group (s : string) (m : found) (n : nat) : string :=
  match lookupCap n (caps (final m)) with
  | Some (a, b) => slice s a b
  | None => EmptyString
  end.

(** The matches of a pattern with the [g] flag, from left to right; after a
    match that is empty the search moves one character on. *)
Fixpoint matchesFrom (fuel : nat) (r : regex) (i : nat) (prev : option ascii)
    (l : list ascii) : list found :=
  match fuel with
  | O => []
  | S fuel' =>
      match searchFrom r i prev l with
      | None => []
      | Some m =>
          let st := final m in
          if pos st =? index m then
            match rest st with
            | [] => [m]
            | c :: t => m :: matchesFrom fuel' r (S (pos st)) (Some c) t
            end
          else m :: matchesFrom fuel' r (pos st) (before st) (rest st)
      end
  end.

Definition matches (r : regex) (s : string) : list found :=
  matchesFrom (S (String.length s)) r 0 None (chars s).

(** [s.match(r)] for a pattern with the [g] flag: the matched texts
    (the empty list stands for [null]). *)
Definition matchAll (r : regex) (s : string) : list string :=
  map (matched s) (matches r s).

(** [s.replace(r, by)] for a pattern with the [g] flag and a replacement
    without [$]. *)
Fixpoint replaceIn (s : string) (by_ : string) (from : nat) (ms : list found) : string :=
  match ms with
  | [] => sliceFrom s from
  | m :: t => (slice s from (index m) ++ by_ ++ replaceIn s by_ (stop m) t)%string
  end.

Definition replaceAll (r : regex) (by_ : string) (s : string) : string :=
  replaceIn s by_ 0 (matches r s).

(** [s.split(r)] for a pattern without groups.  [p] is the end of the last
    separator, [piece] the characters since (latest first), the state is at
    the position under test. *)
Fixpoint splitFrom (fuel : nat) (r : regex) (p : nat) (piece : list ascii) (st : state)
    : list string :=
  match fuel with
  | O => []
  | S fuel' =>
      match rest st with
      | [] => [str (rev piece)]
      | c :: t =>
          let next := {| pos := S (pos st); before := Some c; rest := t; caps := [] |} in
          match matchAt r st with
          | None => splitFrom fuel' r p (c :: piece) next
          | Some m =>
              if stop m =? p then splitFrom fuel' r p (c :: piece) next
              else str (rev piece)
                     :: splitFrom fuel' r (stop m) []
                          {| pos := stop m; before := before (final m);
                             rest := rest (final m); caps := [] |}
          end
      end
  end.

Definition split (r : regex) (s : string) : list string :=
  match s with
  | EmptyString =>
      match matchAt r {| pos := 0; before := None; rest := []; caps := [] |} with
      | Some _ => []
      | None => [EmptyString]
      end
  | _ => splitFrom (2 * String.length s + 2) r 0 []
                   {| pos := 0; before := None; rest := chars s; caps := [] |}
  end.

(** *** Pattern constructors *)

Definition chr (c : ascii) : regex := Chr (Ascii.eqb c).

(** A class given by the list of its characters. *)
Definition oneOf (cs : string) : regex := Chr (fun c => existsb (Ascii.eqb c) (chars cs)).

Definition noneOf (cs : string) : regex :=
  Chr (fun c => negb (existsb (Ascii.eqb c) (chars cs))).

Definition digit : regex := Chr isDigit.
Definition space : regex := Chr isSpace.

Definition plus (r : regex) : regex := Cat r (Star r).
Definition opt (r : regex) : regex := Alt r Eps.

Fixpoint seq (rs : list regex) : regex :=
  match rs with
  | [] => Eps
  | [r] => r
  | r :: t => Cat r (seq t)
  end.

Fixpoint alts (rs : list regex) : regex :=
  match rs with
  | [] => Chr (fun _ => false)
  | [r] => r
  | r :: t => Alt r (alts t)
  end.

(** A literal text. *)
Fixpoint litChars (l : list ascii) : regex :=
  match l with
  | [] => Eps
  | [c] => chr c
  | c :: t => Cat (chr c) (litChars t)
  end.

Definition lit (s : string) : regex := litChars (chars s).

(** A literal text under the [i] flag. *)
Fixpoint litCharsI (l : list ascii) : regex :=
  match l with
  | [] => Eps
  | [c] => Chr (fun x => Ascii.eqb (lowerChar x) (lowerChar c))
  | c :: t => Cat (Chr (fun x => Ascii.eqb (lowerChar x) (lowerChar c))) (litCharsI t)
  end.

Definition litI (s : string) : regex := litCharsI (chars s).

(** The en dash and the em dash, as UTF-8. *)
Definition enDash : regex :=
  litChars [ascii_of_nat 226; ascii_of_nat 128; ascii_of_nat 147].
Definition emDash : regex :=
  litChars [ascii_of_nat 226; ascii_of_nat 128; ascii_of_nat 148].

End Regex.

(* ===================================================================== *)
(** ** controllers/aiController.js: lab-value extraction and merging *)
(* ===================================================================== *)

Module AiController.
Import JsString Json Regex.

(** A finding. *)
Record finding : Type := {
  test : string;
  value : string;
  unit : string;
  referenceRange : string;
  flag : string;
  severity : string;
  interpretation : string
}.

(** *** Patterns

    Each pattern is preceded by its text in the source; there a blank is
    put between a star and a closing parenthesis that follows it. *)

Definition FLAG_TERMS : list string :=
  ["critical high"; "critical low"; "very high"; "very low"; "high"; "low";
   "elevated"; "reduced"; "above normal"; "below normal"; "above range"; "below range"].

(** [new RegExp(`\\b(${FLAG_TERMS.join('|')})\\b`, 'i')] *)
Definition FLAG_REGEX : regex :=
  seq [WordBoundary; Group 1 (alts (map litI FLAG_TERMS)); WordBoundary].

(** [/\b(wnl|within normal limits|normal|negative)\b/i] *)
Definition NORMAL_REGEX : regex :=
  seq [WordBoundary;
       Group 1 (alts [litI "wnl"; litI "within normal limits"; litI "normal"; litI "negative"]);
       WordBoundary].

(** [-?\d+(?:\.\d+)?] *)
Definition signedNumber : regex :=
  seq [opt (chr "-"); plus digit; opt (Cat (chr ".") (plus digit))].

(** [/(-?\d+(?:\.\d+)?)\s*(?:-|–|—|to|TO)\s*(-?\d+(?:\.\d+)?)/i] *)
Definition RANGE_REGEX : regex :=
  seq [Group 1 signedNumber; Star space;
       alts [chr "-"; enDash; emDash; litI "to"; litI "TO"];
       Star space; Group 2 signedNumber].

(** The class [[a-zA-Z%\/]]. *)
Definition unitChar : regex := Chr (fun c => isLetter c || Ascii.eqb c "%" || Ascii.eqb c "/").

(** [/([a-zA-Z%\/]+(?:\^[\d]+)?)$/] *)
Definition UNIT_REGEX : regex :=
  seq [Group 1 (Cat (plus unitChar) (opt (Cat (chr "^") (plus digit)))); Eol].

(** [/-?\d+(?:\.\d+)?/g] *)
Definition NUMBER_REGEX : regex := signedNumber.

(** [\d+\.?\d*] *)
Definition plainNumber : regex := seq [plus digit; opt (chr "."); Star digit].

(** The class [[-–—to]] under the [i] flag. *)
Definition dashOrTo : regex := alts [oneOf "-toTO"; enDash; emDash].

(** [(\d+\.?\d* )\s*[-–—to]\s*(\d+\.?\d* )] *)
Definition looseRange : regex :=
  seq [Group 1 plainNumber; Star space; dashOrTo; Star space; Group 2 plainNumber].

(** [/\(([^)]*reference[^)]* )\)/i] *)
Definition parenReference : regex :=
  seq [chr "("; Group 1 (seq [Star (noneOf ")"); litI "reference"; Star (noneOf ")")]); chr ")"].

(** [/\[([^\]]*reference[^\]]* )\]/i] *)
Definition bracketReference : regex :=
  seq [chr "["; Group 1 (seq [Star (noneOf "]"); litI "reference"; Star (noneOf "]")]); chr "]"].

(** [/(?:ref|reference):\s*([0-9.\s\-–—to]+)/i] *)
Definition labelledReference : regex :=
  seq [Alt (litI "ref") (litI "reference"); chr ":"; Star space;
       Group 1 (plus (alts [Chr (fun c => isDigit c || isSpace c
                                          || existsb (Ascii.eqb c) (chars ".-toTO"));
                            enDash; emDash]))].

(** [/\s{2,}/g] *)
Definition spaceRun : regex := seq [space; space; Star space].

(** [/\s*\|\s*|\s{2,}|\s*:\s*/] *)
Definition fieldSeparator : regex :=
  alts [seq [Star space; chr "|"; Star space];
        spaceRun;
        seq [Star space; chr ":"; Star space]].

(** [/^-?\d+\.?\d*$/] *)
Definition bareNumber : regex := seq [Bol; opt (chr "-"); plus digit; opt (chr "."); Star digit; Eol].

(** [/^[a-zA-Z%\/]+$/] *)
Definition bareUnit : regex := seq [Bol; plus unitChar; Eol].

(** [/[\(\[][^\)\]]*(\d+\.?\d* )\s*[-–—to]\s*(\d+\.?\d* )[^\)\]]*[\)\]]/i] *)
Definition bracketedRange : regex :=
  seq [oneOf "(["; Star (noneOf ")]"); looseRange; Star (noneOf ")]"); oneOf ")]"].

(** [/(?:ref|reference|normal|range)[:\s]*(\d+\.?\d* )\s*[-–—to]\s*(\d+\.?\d* )/i] *)
Definition contextRange : regex :=
  seq [alts [litI "ref"; litI "reference"; litI "normal"; litI "range"];
       Star (Chr (fun c => Ascii.eqb c ":" || isSpace c));
       looseRange].

(** [/\r?\n+/] *)
Definition lineBreak : regex :=
  seq [opt (chr (ascii_of_nat 13)); plus (chr (ascii_of_nat 10))].

(** [/\t+/g] and [/\s+/g] *)
Definition tabs : regex := plus (chr (ascii_of_nat 9)).
Definition spaces : regex := plus space.

(** [/^[-=._]+$/] *)
Definition separatorLine : regex := seq [Bol; plus (oneOf "-=._"); Eol].

(** [/^(test|parameter|name|value|result|unit|reference|normal|range|flag|status)/i] *)
Definition headerWord : regex :=
  seq [Bol;
       Group 1 (alts (map litI ["test"; "parameter"; "name"; "value"; "result"; "unit";
                                "reference"; "normal"; "range"; "flag"; "status"]))].

(** [/\d/] *)
Definition anyDigit : regex := digit.

(** *** Flags *)

Definition capitalize (word : string) : string :=
  match word with
  | EmptyString => EmptyString
  | String c t => String (upperChar c) (toLowerCase t)
  end.

Definition normalizeFlagWord (word : string) : string :=
  let lower := toLowerCase word in
  if includes lower "critical" && includes lower "high" then "Critical High"
  else if includes lower "critical" && includes lower "low" then "Critical Low"
  else if includes lower "high" || includes lower "above" || includes lower "elevated"
  then "High"
  else if includes lower "low" || includes lower "below" || includes lower "reduced"
  then "Low"
  else capitalize word.

Definition deriveSeverity (word : string) : string :=
  let lower := toLowerCase word in
  if includes lower "critical" then "critical"
  else if includes lower "high" || includes lower "above" || includes lower "elevated"
  then "high"
  else if includes lower "low" || includes lower "below" || includes lower "reduced"
  then "low"
  else EmptyString.

(** [`${a} - ${b}`] for the two groups of a range. *)
Definition rangeText (s : string) (m : found) : string :=
  (group s m 1 ++ " - " ++ group s m 2)%string.

(** [`${flag} value${referenceRange ? ` (reference ${referenceRange})` : ''}`] *)
Definition interpretationText (flagText range : string) : string :=
  (flagText ++ " value"
     ++ (if nonEmpty range then " (reference " ++ range ++ ")" else EmptyString))%string.

(** *** One logical row *)

(** The reference range that [parseAbnormalRow] finds when the row holds no
    plain range: in parentheses or brackets, then after a label. *)
Definition labelledRange (working : string) : string :=
  let fromParen :=
    match (match exec parenReference working with
           | Some m => Some (group working m 1)
           | None => match exec bracketReference working with
                     | Some m => Some (group working m 1)
                     | None => None
                     end
           end) with
    | Some refText =>
        match exec RANGE_REGEX refText with
        | Some rm => rangeText refText rm
        | None => EmptyString
        end
    | None => EmptyString
    end in
  match exec labelledReference working with
  | Some m =>
      let refText := group working m 1 in
      match exec RANGE_REGEX refText with
      | Some rm => rangeText refText rm
      | None => fromParen
      end
  | None => fromParen
  end.

Definition parseAbnormalRow (row fallbackTest : string) : option finding :=
  match exec FLAG_REGEX row with
  | None => None
  | Some flagMatch =>
      let flagWord := group row flagMatch 1 in
      if Regex.test NORMAL_REGEX flagWord then None
      else
        let normalizedFlag := normalizeFlagWord flagWord in
        let severity := deriveSeverity flagWord in
        let working := trim (slice row 0 (index flagMatch)) in
        let '(referenceRange, working) :=
          match exec RANGE_REGEX working with
          | Some rangeMatch =>
              (rangeText working rangeMatch,
               trim (slice working 0 (index rangeMatch)
                       ++ sliceFrom working (stop rangeMatch))%string)
          | None => (labelledRange working, working)
          end in
        let '(value, working) :=
          match rev (matchAll NUMBER_REGEX working) with
          | last :: _ =>
              match lastIndexOf working last with
              | Some idx => (last, trim (slice working 0 idx))
              | None => (last, working)
              end
          | [] => (EmptyString, working)
          end in
        let '(unit, working) :=
          match exec UNIT_REGEX working with
          | Some unitMatch =>
              (group working unitMatch 1, trim (slice working 0 (index unitMatch)))
          | None => (EmptyString, working)
          end in
        let testName :=
          trim (replaceAll spaceRun " "
                  (if nonEmpty working then working else fallbackTest)) in
        if negb (nonEmpty testName) || negb (nonEmpty value) then None
        else Some {| test := testName;
                     value := value;
                     unit := unit;
                     referenceRange := referenceRange;
                     flag := normalizedFlag;
                     severity := severity;
                     interpretation := interpretationText normalizedFlag referenceRange |}
  end.

(** *** One line of a table *)

(** The variables [test], [value], [unit] and [referenceRange] of the loop
    over the parts of a line. *)
Record fields : Type := {
  f_test : string;
  f_value : string;
  f_unit : string;
  f_range : string
}.

(** One pass of the loop over the parts. *)
Definition classifyPart (flagWord : string) (acc : fields) (part : string) : fields :=
  if Regex.test bareNumber part && negb (nonEmpty (f_value acc)) then
    {| f_test := f_test acc; f_value := part; f_unit := f_unit acc; f_range := f_range acc |}
  else
    let rangeMatch := exec RANGE_REGEX part in
    if (match rangeMatch with Some _ => true | None => false end)
       && negb (nonEmpty (f_range acc)) then
      {| f_test := f_test acc; f_value := f_value acc; f_unit := f_unit acc;
         f_range := match rangeMatch with
                    | Some m => rangeText part m
                    | None => EmptyString
                    end |}
    else if Regex.test bareUnit part && negb (nonEmpty (f_unit acc)) && nonEmpty (f_value acc) then
      {| f_test := f_test acc; f_value := f_value acc; f_unit := part; f_range := f_range acc |}
    else if Regex.test FLAG_REGEX part && String.eqb part flagWord then acc
    else if negb (nonEmpty (f_value acc)) && negb (nonEmpty (f_range acc)) then
      {| f_test := (f_test acc ++ (if nonEmpty (f_test acc) then " " else EmptyString) ++ part)%string;
         f_value := f_value acc; f_unit := f_unit acc; f_range := f_range acc |}
    else acc.

(** The parts of a line: split at the separators, trimmed, the empty ones
    dropped. *)
Definition lineParts (line : string) : list string :=
  filter nonEmpty (map trim (split fieldSeparator line)).

(** [extractTestDataFromLine(line, nextLine, prevLine)]; an absent
    neighbour is the empty string. *)
Definition extractTestDataFromLine (line nextLine prevLine : string) : option finding :=
  match exec FLAG_REGEX line with
  | None => None
  | Some flagMatch =>
      let flagWord := group line flagMatch 1 in
      if Regex.test NORMAL_REGEX flagWord then None
      else
        let flag := normalizeFlagWord flagWord in
        let acc := fold_left (classifyPart flagWord) (lineParts line)
                     {| f_test := EmptyString; f_value := EmptyString;
                        f_unit := EmptyString; f_range := EmptyString |} in
        let referenceRange := f_range acc in
        let referenceRange :=
          if negb (nonEmpty referenceRange) then
            match exec bracketedRange line with
            | Some parenMatch =>
                let whole := matched line parenMatch in
                match exec RANGE_REGEX whole with
                | Some rangeMatch => rangeText whole rangeMatch
                | None => referenceRange
                end
            | None => referenceRange
            end
          else referenceRange in
        let referenceRange :=
          if negb (nonEmpty referenceRange) then
            let context := toLowerCase (prevLine ++ " " ++ nextLine)%string in
            match exec contextRange context with
            | Some contextRangeMatch => rangeText context contextRangeMatch
            | None => referenceRange
            end
          else referenceRange in
        if negb (nonEmpty (f_test acc)) || negb (nonEmpty (f_value acc)) then None
        else Some {| test := trim (f_test acc);
                     value := trim (f_value acc);
                     unit := trim (f_unit acc);
                     referenceRange := trim referenceRange;
                     flag := flag;
                     severity := deriveSeverity flagWord;
                     interpretation := interpretationText flag referenceRange |}
  end.

(** *** The whole document *)

Definition cleanLine (line : string) : string :=
  replaceAll (chr "|") "|" (trim (replaceAll spaces " " (replaceAll tabs " " line))).

Definition keepLine (line : string) : bool :=
  nonEmpty line && negb (Regex.test separatorLine line) && (3 <? String.length line).

Definition cleanedLinesOf (text : string) : list string :=
  filter keepLine (map cleanLine (split lineBreak text)).

(** The first strategy: line by line.  [prev] is the line before [lines]
    (empty when there is none). *)
Fixpoint tableFindings (prev : string) (lines : list string) : list finding :=
  match lines with
  | [] => []
  | line :: rest =>
      let next := match rest with l :: _ => l | [] => EmptyString end in
      if Regex.test headerWord line && negb (Regex.test anyDigit line) then tableFindings line rest
      else if negb (Regex.test anyDigit line) then tableFindings line rest
      else
        match extractTestDataFromLine line next prev with
        | Some extracted =>
            if nonEmpty (flag extracted) && negb (Regex.test NORMAL_REGEX (flag extracted))
            then extracted :: tableFindings line rest
            else tableFindings line rest
        | None => tableFindings line rest
        end
  end.

(** The second strategy: the rows that the buffer yields. *)
Fixpoint bufferRows (buffer : list string) (lines : list string) : list string :=
  match lines with
  | [] => []
  | line :: rest =>
      if negb (Regex.test anyDigit line) && (match buffer with [] => true | _ => false end)
      then bufferRows [line] rest
      else
        let buffer := buffer ++ [line] in
        let joined := trim (join " " buffer) in
        if Regex.test FLAG_REGEX joined || Regex.test NORMAL_REGEX joined
           || (180 <? String.length joined)
        then
          if Regex.test FLAG_REGEX joined && negb (Regex.test NORMAL_REGEX joined)
          then joined :: bufferRows [] rest
          else bufferRows [] rest
        else bufferRows buffer rest
  end.

(** The key under which two findings are the same test. *)
Definition testKey (f : finding) : string := trim (toLowerCase (test f)).

(** The loop that parses the rows of the buffer; it adds a row's finding
    unless a finding of the same test is there already. *)
Fixpoint addParsedRows (rows : list string) (lastTest : string) (findings : list finding)
    : list finding :=
  match rows with
  | [] => findings
  | row :: rest =>
      match parseAbnormalRow row lastTest with
      | Some parsed =>
          addParsedRows rest (test parsed)
            (if existsb (fun f => String.eqb (testKey f) (testKey parsed)) findings
             then findings
             else findings ++ [parsed])
      | None => addParsedRows rest lastTest findings
      end
  end.

Definition extractAbnormalFromText (text : string) : list finding :=
  let cleanedLines := cleanedLinesOf text in
  addParsedRows (bufferRows [] cleanedLines) EmptyString (tableFindings EmptyString cleanedLines).

(** *** Findings of the AI and the merge *)

(** An element of the AI's [abnormal_values].  The text fields are strings
    (an absent one is the empty string), as the prompt prescribes; the value
    is any JSON value. *)
Record abnormalValue : Type := {
  av_test : string;
  av_name : string;
  av_value : option json;
  av_unit : string;
  av_units : string;
  av_reference_range : string;
  av_referenceRange : string;
  av_range : string;
  av_reference : string;
  av_ref_range : string;
  av_interpretation : string;
  av_meaning : string;
  av_flag : string;
  av_status : string;
  av_severity : string;
  av_level : string
}.

Definition orElse (a b : string) : string := if nonEmpty a then a else b.

(** [String(v)]. *)
Fixpoint toText (v : json) : string :=
  match v with
  | JNull => "null"
  | JBool true => "true"
  | JBool false => "false"
  | JNum r => r
  | JStr s => s
  | JArr l =>
      join "," (map (fun x => match x with JNull => EmptyString | _ => toText x end) l)
  | JObj _ => "[object Object]"
  end.

(** The callback of [result.abnormal_values.map]. *)
Definition normalizeAbnormalValue (v : abnormalValue) : finding :=
  let referenceRange :=
    orElse (av_reference_range v)
      (orElse (av_referenceRange v)
         (orElse (av_range v) (orElse (av_reference v) (av_ref_range v)))) in
  let referenceRange :=
    if negb (nonEmpty referenceRange) && nonEmpty (av_interpretation v) then
      match exec looseRange (av_interpretation v) with
      | Some rangeMatch => rangeText (av_interpretation v) rangeMatch
      | None => referenceRange
      end
    else referenceRange in
  {| test := orElse (av_test v) (av_name v);
     value := match av_value v with
              | Some x => if truthy x then toText x else EmptyString
              | None => EmptyString
              end;
     unit := orElse (av_unit v) (av_units v);
     referenceRange := referenceRange;
     interpretation := orElse (av_interpretation v) (av_meaning v);
     flag := orElse (av_flag v) (av_status v);
     severity := orElse (av_severity v) (av_level v) |}.

(** [f.test && extracted.test && f.test.toLowerCase().trim() ===
    extracted.test.toLowerCase().trim()] *)
Definition sameTest (f extracted : finding) : bool :=
  nonEmpty (test f) && nonEmpty (test extracted)
  && String.eqb (testKey f) (testKey extracted).

Definition withRange (f : finding) (range : string) : finding :=
  {| test := test f; value := value f; unit := unit f; referenceRange := range;
     flag := flag f; severity := severity f; interpretation := interpretation f |}.

(** One pass of the merge loop: the first finding of the same test, when
    there is one, takes the extracted range if it has none; otherwise the
    extracted finding is added at the end. *)
Fixpoint mergeOne (extracted : finding) (mergedFindings : list finding) : list finding :=
  match mergedFindings with
  | [] => [extracted]
  | existing :: rest =>
      if sameTest existing extracted then
        (if nonEmpty (referenceRange extracted) && negb (nonEmpty (referenceRange existing))
         then withRange existing (referenceRange extracted)
         else existing) :: rest
      else existing :: mergeOne extracted rest
  end.

(** The merge of the AI's findings with those extracted from the text. *)
Definition mergeFindings (abnormalFindings fallbackFindings : list finding) : list finding :=
  match fallbackFindings with
  | [] => abnormalFindings
  | _ :: _ => fold_left (fun merged extracted => mergeOne extracted merged)
                        fallbackFindings abnormalFindings
  end.

(** The findings of a report: those of the AI, normalised, merged with
    those extracted from the text. *)
Definition reportFindings (abnormal_values : list abnormalValue) (parsedText : string)
    : list finding :=
  mergeFindings (map normalizeAbnormalValue abnormal_values)
                (extractAbnormalFromText parsedText).

End AiController.

(* ===================================================================== *)
(** ** services/consensusAI.js: the providers asked and the answer *)
(* ===================================================================== *)

Module ConsensusService.
Import JsString JsArray Json Effect Consensus.

(** An element of [providers] in [getMultiProviderResponses]. *)
Record askedProvider : Type := {
  a_name : string;
  a_model : string;
  a_priority : nat;
  a_apiKey : string
}.

(** The list [providers] that [getMultiProviderResponses] builds. *)
Definition providersToAsk (env : AiProvider.environment) : list askedProvider :=
  (if nonEmpty (env "GEMINI_API_KEY")
      && negb (String.eqb (env "GEMINI_API_KEY") "your_gemini_api_key_here")
   then
     if startsWith (env "GEMINI_API_KEY") AiProvider.gatewayPrefix then
       [{| a_name := AiProvider.OPENROUTER; a_model := "google/gemini-2.0-flash-exp";
           a_priority := 1; a_apiKey := "GEMINI_API_KEY" |}]
     else
       [{| a_name := AiProvider.GEMINI;
           a_model := AiProvider.orElse (env "GEMINI_MODEL") "gemini-2.0-flash-exp";
           a_priority := 1; a_apiKey := "GEMINI_API_KEY" |}]
   else [])
  ++ (let anthropicKey :=
        AiProvider.orElse (env "ANTHROPIC_API_KEY") (env "OPENROUTER_API_KEY") in
      if nonEmpty anthropicKey
         && negb (String.eqb anthropicKey "your_anthropic_api_key_here")
         && startsWith anthropicKey AiProvider.gatewayPrefix
      then [{| a_name := AiProvider.OPENROUTER; a_model := "anthropic/claude-3.5-sonnet";
               a_priority := 2; a_apiKey := "ANTHROPIC_API_KEY" |}]
      else [])
  ++ (if nonEmpty (env "GROQ_API_KEY")
         && negb (String.eqb (env "GROQ_API_KEY") "your_groq_api_key_here")
      then [{| a_name := AiProvider.GROQ;
               a_model := AiProvider.orElse (env "GROQ_MODEL") "llama-3.3-70b-versatile";
               a_priority := 3; a_apiKey := "GROQ_API_KEY" |}]
      else [])
  ++ (if nonEmpty (env "OPENAI_API_KEY")
         && negb (String.eqb (env "OPENAI_API_KEY") "your_openai_api_key_here")
      then [{| a_name := AiProvider.OPENAI;
               a_model := AiProvider.orElse (env "OPENAI_MODEL") "gpt-4o-mini";
               a_priority := 4; a_apiKey := "OPENAI_API_KEY" |}]
      else []).

(** The options of [getConsensusResponse] that the code reads; an absent
    one is [None]. *)
Record consensusOptions : Type := {
  sectionType : option string;
  minProviders : option nat;
  o_temperature : option Q;
  o_maxTokens : option Z
}.

(** The options that the call for the provider [p] hands to
    [generateAIResponse]:
    [{ ...options, preferredProviders: [provider.name], model: provider.model,
       timeout: 30000 }]. *)
Definition optionsOf (options : consensusOptions) (p : askedProvider)
    : AiProvider.generateOptions :=
  {| AiProvider.preferredProviders := [a_name p];
     AiProvider.g_temperature := o_temperature options;
     AiProvider.g_maxTokens := o_maxTokens options;
     AiProvider.g_model := a_model p |}.

Section Ask.
Variable World : Type.
Variable env : AiProvider.environment.
Variable fetch : AiProvider.httpRequest -> M World AiProvider.httpResponse.
Variable sdk : AiProvider.sdkRequest -> M World (option string).

(** The body of the promise of one provider: the response when the call
    succeeds, [None] for the record with [success: false]. *)
Definition ask (messages : list AiProvider.message) (systemPrompt : string)
    (options : consensusOptions) (p : askedProvider) : M World (option response) :=
  tryCatch
    (bind (AiProvider.generateAIResponse env fetch sdk messages systemPrompt
             (optionsOf options p))
          (fun result =>
             ret (Some {| provider := a_name p; model := a_model p;
                          content := AiProvider.r_content result;
                          priority := a_priority p |})))
    (fun _ => ret None).
End Ask.

(** The record that the promise of the provider [p] resolves to, from
    the outcome of its call of [generateAIResponse]: [None] stands for the
    record with [success: false]. *)
Definition settled (p : askedProvider) (o : outcome AiProvider.aiResponse)
    : option response :=
  match o with
  | Returned result =>
      Some {| provider := a_name p; model := a_model p;
              content := AiProvider.r_content result;
              priority := a_priority p |}
  | Thrown _ => None
  end.

(** The comparator [(a, b) => a.priority - b.priority]. *)
Definition byPriority (a b : response) : Z :=
  (Z.of_nat (priority a) - Z.of_nat (priority b))%Z.

(** [results.map(...).filter(r => r.success).sort(...)], for the records
    of the promises in the order of the providers. *)
Definition successfulResponses (records : list (option response)) : list response :=
  sort byPriority
       (flat_map (fun r => match r with Some x => [x] | None => [] end) records).

(** What [getConsensusResponse] returns. *)
Record consensusResponse : Type := {
  cr_content : string;
  cr_parsed : option (JsObject.dict json);
  cr_providers : list string;
  cr_models : list string;
  cr_consensus : strategy;
  validatedBy : nat
}.

Section Service.
Variable JSON_parse : string -> option json.
Variable env : AiProvider.environment.

(** [getMultiProviderResponses], from the outcomes of the calls: the
    calls of the providers run concurrently, and [outcomeOf p] is how the
    call of [generateAIResponse] for the provider [p] ends. *)
Definition getMultiProviderResponses
    (outcomeOf : askedProvider -> outcome AiProvider.aiResponse)
    : string + list response :=
  match providersToAsk env with
  | [] => inl "No AI providers configured"
  | providers =>
      inr (successfulResponses (map (fun p => settled p (outcomeOf p)) providers))
  end.

Definition insufficient (got needed : nat) : string :=
  ("Insufficient providers responded. Got " ++ ofNat got ++ ", needed " ++ ofNat needed)%string.

(** [getConsensusResponse], for a [minProviders] that is a natural number. *)
Definition getConsensusResponse
    (outcomeOf : askedProvider -> outcome AiProvider.aiResponse)
    (options : consensusOptions) : string + consensusResponse :=
  let section := match sectionType options with Some s => s | None => "json" end in
  let needed := match minProviders options with Some n => n | None => 1 end in
  match getMultiProviderResponses outcomeOf with
  | inl message => inl message
  | inr responses =>
      if length responses <? needed then inl (insufficient (length responses) needed)
      else
        match synthesizeConsensus JSON_parse responses section with
        | inl message => inl message
        | inr c =>
            inr {| cr_content := c_content c;
                   cr_parsed := c_parsed c;
                   cr_providers := c_providers c;
                   cr_models := c_models c;
                   cr_consensus := c_consensus c;
                   validatedBy := length responses |}
        end
  end.
End Service.

End ConsensusService.

(* ===================================================================== *)
(** ** controllers/aiController.js: parsing, enrichment and the error reply *)
(* ===================================================================== *)

Module Report.
Import JsString Json Regex AiController.

Section Parsing.
(** [JSON.parse]; [None] when it throws. *)
Variable JSON_parse : string -> option json.

(** [safeJsonParse(text)]; the [null] of a text that cannot be parsed is
    [JNull]. *)
Definition safeJsonParse (text : string) : json :=
  match JSON_parse text with
  | Some v => v
  | None =>
      match indexOf text "{", lastIndexOf text "}" with
      | Some start, Some stop =>
          match JSON_parse (slice text start (stop + 1)) with
          | Some v => v
          | None => JNull
          end
      | _, _ => JNull
      end
  end.
End Parsing.

(** *** Reference ranges from the AI *)

(** An element of [reference_ranges] in the answer of the AI; the fields
    are strings, an absent one is the empty string. *)
Record rangeEntry : Type := {
  rr_test : string;
  rr_reference_range : string
}.

(** The callback of [referenceRanges.find] in
    [enrichFindingsWithReferenceRanges].  The last test of the source,
    [commonWords.length >= Math.min(rrWords.length, findingWords.length) * 0.6],
    compares a whole number with a product of a whole number and 0.6; the
    product of [n] and the double 0.6 rounds to [6n/10] when that is whole
    and is otherwise not whole, so the comparison is that of [10 c] with
    [6 n]. *)
Definition matchesTest (f : finding) (rr : rangeEntry) : bool :=
  if negb (nonEmpty (rr_test rr)) || negb (nonEmpty (test f)) then false
  else
    let rrTest := trim (toLowerCase (rr_test rr)) in
    let findingTest := trim (toLowerCase (test f)) in
    if String.eqb rrTest findingTest then true
    else if includes rrTest findingTest || includes findingTest rrTest then true
    else
      let rrWords := split spaces rrTest in
      let findingWords := split spaces findingTest in
      let commonWords := filter (fun w => existsb (String.eqb w) findingWords) rrWords in
      6 * Nat.min (length rrWords) (length findingWords) <=? 10 * length commonWords.

(** The callback of [findings.map] there. *)
Definition enrichOne (referenceRanges : list rangeEntry) (f : finding) : finding :=
  match find (matchesTest f) referenceRanges with
  | Some m =>
      if nonEmpty (rr_reference_range m)
         && negb (String.eqb (rr_reference_range m) "Not available")
      then withRange f (rr_reference_range m)
      else f
  | None => f
  end.

(** What [enrichFindingsWithReferenceRanges(findings)] returns:
    [referenceRanges] is the list read from the answer of the AI, [None]
    when the call or the parsing of its answer fails. *)
Definition enrichFindingsWithReferenceRanges (referenceRanges : option (list rangeEntry))
    (findings : list finding) : list finding :=
  match findings with
  | [] => findings
  | _ :: _ =>
      match referenceRanges with
      | Some ranges => map (enrichOne ranges) findings
      | None => findings
      end
  end.

(** [!f.referenceRange || f.referenceRange.trim() === ''] *)
Definition needsRange (f : finding) : bool :=
  negb (nonEmpty (referenceRange f)) || String.eqb (trim (referenceRange f)) EmptyString.

(** The callback of [abnormalFindings.map] that takes the enriched ranges
    over. *)
Definition takeEnriched (enrichedFindings : list finding) (f : finding) : finding :=
  match find (fun e => String.eqb (test e) (test f)) enrichedFindings with
  | Some enriched =>
      if nonEmpty (referenceRange enriched)
         && negb (String.eqb (referenceRange enriched) (referenceRange f))
      then withRange f (referenceRange enriched)
      else f
  | None => f
  end.

(** The enrichment step of [interpretReport]. *)
Definition withEnrichedRanges (referenceRanges : option (list rangeEntry))
    (abnormalFindings : list finding) : list finding :=
  let findingsNeedingRanges := filter needsRange abnormalFindings in
  match findingsNeedingRanges with
  | [] => abnormalFindings
  | _ :: _ =>
      let enrichedFindings :=
        enrichFindingsWithReferenceRanges referenceRanges findingsNeedingRanges in
      map (takeEnriched enrichedFindings) abnormalFindings
  end.

(** *** The reply to a failure *)

(** What the handler reads of the error it catches; an absent [code] or
    [response.data.error.message] is the empty string. *)
Record thrown : Type := {
  t_message : option string;
  t_code : string;
  t_responseMessage : string
}.

Record failureReply : Type := {
  f_status : nat;
  f_message : string;
  f_details : option string
}.

(** [err.message?.includes(p)] *)
Definition mentions (err : thrown) (p : string) : bool :=
  match t_message err with Some m => includes m p | None => false end.

(** The [catch] block of [interpretReport]. *)
Definition replyTo (env : AiProvider.environment) (err : thrown) : failureReply :=
  if mentions err "No AI providers configured" then
    {| f_status := 500;
       f_message := "No AI providers configured. Please set at least one API key (GEMINI_API_KEY, GROQ_API_KEY, or HUGGINGFACE_API_KEY) in server/.env";
       f_details := None |}
  else if mentions err "All AI providers failed" then
    {| f_status := 500;
       f_message := "All AI providers failed. Please check your API keys and try again. The system tried all available providers but none succeeded.";
       f_details := None |}
  else if mentions err "API key" || mentions err "API_KEY" || mentions err "401" then
    {| f_status := 500;
       f_message := "One or more AI provider API keys are invalid. Please check your API keys in server/.env";
       f_details := None |}
  else if String.eqb (t_code err) "ENOTFOUND" || String.eqb (t_code err) "ECONNREFUSED" then
    {| f_status := 500;
       f_message := "Cannot connect to AI services. Please check your internet connection.";
       f_details := None |}
  else
    let errorMsg :=
      AiProvider.orElse (t_responseMessage err)
        (AiProvider.orElse (match t_message err with Some m => m | None => EmptyString end)
                           "Unknown error") in
    {| f_status := 500;
       f_message := ("AI interpretation failed: " ++ errorMsg)%string;
       f_details := if String.eqb (env "NODE_ENV") "development" then t_message err
                    else None |}.

End Report.

(* ===================================================================== *)
(** ** Vocabulary of the statements *)
(* ===================================================================== *)

Module Vocabulary.
Import JsString JsArray JsObject Json Effect.

(** *** Texts *)

(** A text that begins with a character that is not white space. *)
Definition headed (s : string) : Prop :=
  match s with
  | String c _ => isSpace c = false
  | EmptyString => False
  end.

Definition emptyOrHeaded (s : string) : Prop := s = EmptyString \/ headed s.

(** *** Findings *)

(** A finding with a test name and a value. *)
Definition named (f : AiController.finding) : Prop :=
  nonEmpty (AiController.test f) = true /\ nonEmpty (AiController.value f) = true.


(** The finding [f] after the merge loop has met the extracted findings
    [extracted], when [f] is the finding that the loop finds for its test: a
    reference range that is empty becomes that of the first extracted
    finding of the same test that has one. *)
Definition patched (extracted : list AiController.finding) (f : AiController.finding)
    : AiController.finding :=
  if nonEmpty (AiController.referenceRange f) then f
  else match find (fun e => AiController.sameTest f e
                            && nonEmpty (AiController.referenceRange e)) extracted with
       | Some e => AiController.withRange f (AiController.referenceRange e)
       | None => f
       end.

(** The extracted findings whose test none of the findings [seen] has, nor
    an extracted finding before them. *)
Fixpoint fresh (seen extracted : list AiController.finding) : list AiController.finding :=
  match extracted with
  | [] => []
  | e :: rest =>
      if existsb (fun g => AiController.sameTest g e) seen then fresh seen rest
      else e :: fresh (seen ++ [e]) rest
  end.

(** The merge loop over the extracted findings, from the list [merged]. *)
Definition mergeAll (extracted merged : list AiController.finding)
    : list AiController.finding :=
  fold_left (fun merged e => AiController.mergeOne e merged) extracted merged.


(** Two findings that the merge does not take for the same test. *)
Definition differentTests (f g : AiController.finding) : Prop :=
  AiController.sameTest f g = false.

(** No two findings of the list are of the same test. *)
Definition oneFindingPerTest (findings : list AiController.finding) : Prop :=
  ForallOrdPairs differentTests findings.

(** A finding with its reference range blanked: what a step that only
    fills ranges in leaves as it is. *)
Definition withoutRange (f : AiController.finding) : AiController.finding :=
  AiController.withRange f EmptyString.

(** A finding whose flag and severity are one of the four grades that
    the extractor gives. *)
Definition graded (f : AiController.finding) : Prop :=
  In (AiController.flag f, AiController.severity f)
     [("Critical High", "critical"); ("Critical Low", "critical");
      ("High", "high"); ("Low", "low")].

Section Patterns.
Import Regex.

(** The flag word of a row: the text [flagMatch[1]] that the flag pattern
    captures in it, when it matches. *)
Definition flagWordOf (row : string) : option string :=
  option_map (fun m => group row m 1) (exec AiController.FLAG_REGEX row).

(** A pattern that does not tell a capital letter from the small one: each
    of its character classes takes a character exactly when it takes its
    lower-case form. *)
Fixpoint caseBlind (r : regex) : Prop :=
  match r with
  | Chr accepts => forall c, accepts (lowerChar c) = accepts c
  | Cat r1 r2 => caseBlind r1 /\ caseBlind r2
  | Alt r1 r2 => caseBlind r1 /\ caseBlind r2
  | Star r1 => caseBlind r1
  | Group _ r1 => caseBlind r1
  | _ => True
  end.

(** The state of the matcher on the lower-case form of the text. *)
Definition lowered (st : state) : state :=
  {| pos := pos st;
     before := option_map lowerChar (before st);
     rest := map lowerChar (rest st);
     caps := caps st |}.

Definition succeeds (A : Type) (o : option A) : bool :=
  match o with Some _ => true | None => false end.

(** The texts that a pattern can consume, whatever stands around them:
    an assertion ([^], [$], [\b]) consumes nothing. *)
Inductive derives : regex -> list ascii -> Prop :=
| derives_eps : derives Eps []
| derives_chr : forall (accepts : ascii -> bool) (c : ascii),
    accepts c = true -> derives (Chr accepts) [c]
| derives_cat : forall r1 r2 w1 w2,
    derives r1 w1 -> derives r2 w2 -> derives (Cat r1 r2) (w1 ++ w2)
| derives_alt_left : forall r1 r2 w, derives r1 w -> derives (Alt r1 r2) w
| derives_alt_right : forall r1 r2 w, derives r2 w -> derives (Alt r1 r2) w
| derives_star_stop : forall r, derives (Star r) []
| derives_star_more : forall r w1 w2,
    derives r w1 -> derives (Star r) w2 -> derives (Star r) (w1 ++ w2)
| derives_group : forall n r w, derives r w -> derives (Group n r) w
| derives_bol : derives Bol []
| derives_eol : derives Eol []
| derives_boundary : derives WordBoundary [].

(** The text of a number: digits, possibly after a minus sign, possibly
    followed by a point and further digits. *)
Definition numberText (s : string) : Prop :=
  exists sign whole fraction,
    chars s = sign ++ whole ++ fraction
    /\ (sign = [] \/ sign = ["-"%char])
    /\ whole <> [] /\ Forall (fun c => isDigit c = true) whole
    /\ (fraction = []
        \/ exists digits, fraction = "."%char :: digits
                          /\ Forall (fun c => isDigit c = true) digits).

End Patterns.

(** A finding with the given test, value and reference range. *)
Definition sampleFinding (testName v range : string) : AiController.finding :=
  {| AiController.test := testName; AiController.value := v;
     AiController.unit := EmptyString; AiController.referenceRange := range;
     AiController.flag := "Low"; AiController.severity := "low";
     AiController.interpretation := EmptyString |}.

(** *** Consensus *)

(** The value that a parsed response gives to a key, when it has the key
    among its own properties. *)
Definition ownValue (p : json) (key : string) : option json := get key (ownProps p).

(** Whether the response [p] votes for the serialised value [s] of [key]. *)
Definition votesFor (key s : string) (p : json) : bool :=
  match ownValue p key with
  | Some v => String.eqb (stringify v) s
  | None => false
  end.


(** The value of the first parsed response, in the order of priority,
    that votes for [s]. *)
Definition firstValue (parsed : list json) (key s : string) : option json :=
  match find (votesFor key s) parsed with
  | Some p => ownValue p key
  | None => None
  end.


(** The value that the selection loop assigns to [key], if it assigns
    one, from the votes [byValue] of the key. *)
Definition decide (parsed : list json) (key : string) (byValue : dict Consensus.voteRec)
    : option json :=
  match Consensus.rankedVotes byValue with
  | [] => None
  | top :: _ =>
      if (2 <=? Consensus.count top) || (length parsed =? 1)
      then Some (Consensus.value top)
      else match parsed with
           | first :: _ => getProp first key
           | [] => None
           end
  end.





(** A ballot: the provider that the vote is attributed to, the key and
    the value voted for. *)
Definition ballot : Type := (string * (string * json))%type.

Definition ballotKey (b : ballot) : string := fst (snd b).
Definition ballotValue (b : ballot) : json := snd (snd b).
Definition ballotText (b : ballot) : string := stringify (ballotValue b).

(** The ballots of the parsed responses, in the order in which the vote
    count meets them. *)
Fixpoint ballotsFrom (names : list string) (idx : nat) (parsed : list json) : list ballot :=
  match parsed with
  | [] => []
  | obj :: rest =>
      map (pair (nth idx names EmptyString)) (ownProps obj)
        ++ ballotsFrom names (S idx) rest
  end.

Definition cast (fieldVotes : dict (dict Consensus.voteRec)) (b : ballot)
    : dict (dict Consensus.voteRec) :=
  Consensus.castVote (fst b) fieldVotes (snd b).

Definition ballotFor (key s : string) (b : ballot) : bool :=
  String.eqb (ballotKey b) key && String.eqb (ballotText b) s.

Definition countB (bs : list ballot) (key s : string) : nat :=
  length (filter (ballotFor key s) bs).

Definition firstB (bs : list ballot) (key s : string) : option json :=
  match find (ballotFor key s) bs with
  | Some b => Some (ballotValue b)
  | None => None
  end.

(** The serialised values voted for [key], in the order of the ballots. *)
Definition seenB (bs : list ballot) (key : string) : list string :=
  map ballotText (filter (fun b => String.eqb (ballotKey b) key) bs).

Definition addNew (acc : list string) (s : string) : list string :=
  if existsb (String.eqb s) acc then acc else acc ++ [s].

(** The texts of a list, each once, in the order first seen. *)
Definition firstSeen (l : list string) : list string := fold_left addNew l [].

(** The vote table [fieldVotes] holds the count of the ballots [bs]. *)
Definition tallied (fieldVotes : dict (dict Consensus.voteRec)) (bs : list ballot) : Prop :=
  NoDup (keys fieldVotes)
  /\ (forall key byValue,
         get key fieldVotes = Some byValue ->
         NoDup (keys byValue)
         /\ (forall s,
                match get s byValue with
                | Some r =>
                    stringify (Consensus.value r) = s
                    /\ Consensus.count r = countB bs key s
                    /\ 0 < Consensus.count r
                    /\ firstB bs key s = Some (Consensus.value r)
                | None => countB bs key s = 0
                end)
         /\ ((forall s, In s (seenB bs key) -> arrayIndex s = None) ->
             keys byValue = firstSeen (seenB bs key)))
  /\ (forall key, get key fieldVotes = None -> forall s, countB bs key s = 0).

(** The object [{"severity": s}]. *)
Definition severityOnly (s : string) : json := JObj [("severity", JStr s)].

(** The object [{"a": [n1, n2, ...]}]. *)
Definition itemsOf (numbers : list string) : json := JObj [("a", JArr (map JNum numbers))].

(** A parser that knows the serialisations of the given values only. *)
Fixpoint parserOf (known : list json) (s : string) : option json :=
  match known with
  | [] => None
  | v :: rest => if String.eqb (stringify v) s then Some v else parserOf rest s
  end.


(** *** Transports and the fallback chain *)

Section Recording.
Variables World Request Answer : Type.

(** A transport that keeps the list of the requests it was given, next
    to the state of the world. *)
Definition recording (send : Request -> M World Answer)
    : Request -> M (World * list Request) Answer :=
  fun rq wl =>
    match send rq (fst wl) with
    | (r, w') => (r, (w', snd wl ++ [rq]))
    end.
End Recording.

Section Sends.
Variables World Request : Type.
Variable P : Request -> Prop.

End Sends.




Section Chain.
Import AiProvider.
Variable World : Type.
Variable call : string -> callOptions -> M World string.


(** [failing options ps w errs w']: called one after the other from the
    world [w], the providers [ps] all fail, with the messages [errs],
    and leave the world [w']. *)
Inductive failing (options : generateOptions)
    : list providerDescriptor -> World -> list string -> World -> Prop :=
| failing_nil : forall w, failing options [] w [] w
| failing_cons : forall p ps w err w1 errs w2,
    call (name p) (optionsFor options p) w = (Thrown err, w1) ->
    failing options ps w1 errs w2 ->
    failing options (p :: ps) w (err :: errs) w2.


End Chain.

(** *** Provider registry *)

(** The names of [preferredOrder], each once, in the order of the ranks
    that the registry's map gives them (the rank of a name is the index of
    its last occurrence).  When no name is repeated this is
    [preferredOrder] itself. *)
Definition preferenceOrder (preferredOrder : list string) : list string :=
  nodup string_dec preferredOrder.

(** The providers of the name [n], in the default order. *)
Definition providersNamed (providers : list AiProvider.providerDescriptor) (n : string)
    : list AiProvider.providerDescriptor :=
  filter (fun p => String.eqb (AiProvider.name p) n) providers.

(** The providers whose name does not occur in [preferredOrder], in the
    default order. *)
Definition providersNotIn (preferredOrder : list string)
    (providers : list AiProvider.providerDescriptor) : list AiProvider.providerDescriptor :=
  filter (fun p => negb (existsb (String.eqb (AiProvider.name p)) preferredOrder)) providers.

(** The rank of a provider when the indices of [preferredOrder] are
    counted from [off]. *)
Definition rankFrom (preferredOrder : list string) (off : nat)
    (p : AiProvider.providerDescriptor) : Z :=
  match AiProvider.orderMapGet preferredOrder off (AiProvider.name p) with
  | Some i => Z.of_nat i
  | None => AiProvider.MAX_SAFE_INTEGER
  end.

(** *** Sample configuration *)

(** An environment in which the variables of [vars] are set. *)
Fixpoint envOf (vars : list (string * string)) (variable : string) : string :=
  match vars with
  | [] => EmptyString
  | (k, v) :: rest => if String.eqb k variable then v else envOf rest variable
  end.

(** A transport that answers every request with [a] and leaves the world
    as it is. *)
Definition answering (World Request Answer : Type) (a : Answer)
    : Request -> M World Answer :=
  fun _ w => (Returned a, w).

(** A transport that throws on every request. *)
Definition refusing (World Request Answer : Type) (message : string)
    : Request -> M World Answer :=
  fun _ w => (Thrown message, w).

(** A response with the status 200. *)
Definition okResponse (p : AiProvider.payload) : AiProvider.httpResponse :=
  {| AiProvider.status := 200; AiProvider.errorText := EmptyString; AiProvider.answer := p |}.

Definition sampleOptions : AiProvider.callOptions :=
  {| AiProvider.temperature := Some (1 # 10);
     AiProvider.maxTokens := Some 4000%Z;
     AiProvider.requestedModel := EmptyString |}.



Definition describe (providerName modelName : string) : AiProvider.providerDescriptor :=
  {| AiProvider.name := providerName; AiProvider.model := modelName;
     AiProvider.apiKey := None |}.

Definition plainOptions : AiProvider.generateOptions :=
  {| AiProvider.preferredProviders := []; AiProvider.g_temperature := None;
     AiProvider.g_maxTokens := None; AiProvider.g_model := EmptyString |}.

(** An SDK behind which Groq is down and OpenAI answers. *)
Definition groqDown : AiProvider.sdkRequest -> M nat (option string) :=
  fun rq calls =>
    match rq with
    | AiProvider.OpenAICreate _ _ => (Returned (Some "answer"), S calls)
    | _ => (Thrown "503 Service Unavailable", S calls)
    end.

(** *** Keys and endpoints *)

(** No variable of the environment holds a key that the registry takes. *)
Definition noUsableKey (env : AiProvider.environment) : Prop :=
  (AiProvider.configured env "GEMINI_API_KEY" "your_gemini_api_key_here" = false
   \/ nonEmpty (trim (env "GEMINI_API_KEY")) = false)
  /\ AiProvider.configured env "GROQ_API_KEY" "your_groq_api_key_here" = false
  /\ AiProvider.configured env "HUGGINGFACE_API_KEY" "your_huggingface_api_key_here" = false
  /\ AiProvider.configured env "OPENAI_API_KEY" "your_openai_api_key_here" = false
  /\ AiProvider.configured env "PERPLEXITY_API_KEY" "your_perplexity_api_key_here" = false.

(** None of the variables that may hold a key is set. *)
Definition keyless (env : AiProvider.environment) : Prop :=
  Forall (fun variable => env variable = EmptyString)
    ["GEMINI_API_KEY"; "ANTHROPIC_API_KEY"; "OPENROUTER_API_KEY"; "PERPLEXITY_API_KEY";
     "GROQ_API_KEY"; "HUGGINGFACE_API_KEY"; "OPENAI_API_KEY"].

(** The variable [ANTHROPIC_API_KEY], or else [OPENROUTER_API_KEY], holds
    a key of the gateway's form. *)
Definition gatewayKeyForClaude (env : AiProvider.environment) : Prop :=
  let anthropicKey :=
    AiProvider.orElse (env "ANTHROPIC_API_KEY") (env "OPENROUTER_API_KEY") in
  nonEmpty anthropicKey = true
  /\ anthropicKey <> "your_anthropic_api_key_here"
  /\ startsWith anthropicKey AiProvider.gatewayPrefix = true.

(** The responses of the providers that answer, in the order in which the
    providers are asked. *)
Definition answersInOrder (env : AiProvider.environment)
    (outcomeOf : ConsensusService.askedProvider -> outcome AiProvider.aiResponse)
    : list Consensus.response :=
  flat_map (fun p => match ConsensusService.settled p (outcomeOf p) with
                     | Some r => [r]
                     | None => []
                     end)
           (ConsensusService.providersToAsk env).

(** The default of [minProviders]. *)
Definition neededOf (options : ConsensusService.consensusOptions) : nat :=
  match ConsensusService.minProviders options with Some n => n | None => 1 end.

(** An environment without any variable. *)
Definition unset : AiProvider.environment := fun _ => EmptyString.

Section Unrecorded.
Variables World Request Answer Logged : Type.

(** A transport whose requests are not kept in the list that stands next
    to the state of the world. *)
Definition unrecorded (send : Request -> M World Answer)
    : Request -> M (World * list Logged) Answer :=
  fun rq wl =>
    match send rq (fst wl) with
    | (r, w') => (r, (w', snd wl))
    end.
End Unrecorded.

Section Counting.
Variables World Logged : Type.

(** The computation adds at most [n] entries to the list next to the
    world. *)
Definition sendsAtMost (n : nat) (A : Type) (c : M (World * list Logged) A) : Prop :=
  forall wl, length (snd (snd (c wl))) <= length (snd wl) + n.
End Counting.



End Vocabulary.

(* ===================================================================== *)
(** * Properties *)
(* ===================================================================== *)

Import JsString JsArray JsObject Json Effect Regex Vocabulary.

(** ** Consensus: the two examples of the specification *)

Section ConsensusExamples.
Import Consensus.


End ConsensusExamples.

(** ** The extractor on the two lines of the specification *)

Section ExtractorExamples.
Import AiController.

(** C3. On the single line ["Hemoglobin 9.2 g/dL 12.0-15.5 Low"] the
    extractor yields no finding (the specification expects one), and on
    the single line ["Glucose 95 mg/dL 70-100 Normal"] it yields none. *)
Theorem extractor_on_specification_lines :
  extractAbnormalFromText "Hemoglobin 9.2 g/dL 12.0-15.5 Low" = []
  /\ extractAbnormalFromText "Glucose 95 mg/dL 70-100 Normal" = [].
Proof. split; vm_compute; reflexivity. Qed.

(** Where the first line is lost: it has no separator that the line
    strategy splits at, so the whole line is one part and no test name is
    found; and the row parser cuts the row at the value, so that the test
    name is taken for the unit. *)
Lemma hemoglobin_line_parts :
  lineParts "Hemoglobin 9.2 g/dL 12.0-15.5 Low" = ["Hemoglobin 9.2 g/dL 12.0-15.5 Low"]
  /\ extractTestDataFromLine "Hemoglobin 9.2 g/dL 12.0-15.5 Low" EmptyString EmptyString = None
  /\ parseAbnormalRow "Hemoglobin 9.2 g/dL 12.0-15.5 Low" EmptyString = None
  /\ option_map (fun m => group "Hemoglobin" m 1) (exec UNIT_REGEX "Hemoglobin")
     = Some "Hemoglobin".
Proof. repeat split; vm_compute; reflexivity. Qed.

(** The same values in a table with pipes give the finding that the
    specification describes. *)
Lemma hemoglobin_line_with_pipes :
  extractTestDataFromLine "Hemoglobin | 9.2 | g/dL | 12.0-15.5 | Low" EmptyString EmptyString
  = Some {| test := "Hemoglobin"; value := "9.2"; unit := "g/dL";
            referenceRange := "12.0 - 15.5"; flag := "Low"; severity := "low";
            interpretation := "Low value (reference 12.0 - 15.5)" |}.
Proof. vm_compute. reflexivity. Qed.
End ExtractorExamples.

(** ** Transports: what is sent *)

Section SendsOnly.
Variables World Request Answer : Type.
Variable P : Request -> Prop.





End SendsOnly.

Section Parameters.
Import AiProvider.





End Parameters.

(** ** Transports: an answer without text *)

Section ReturnsOnly.
Variable World : Type.




End ReturnsOnly.

Section EmptyAnswers.
Import AiProvider.
Variable World : Type.
Variable env : environment.
Variable fetch : httpRequest -> M World httpResponse.
Variable sdk : sdkRequest -> M World (option string).












End EmptyAnswers.

Section EmptyAnswersClaim.
Import AiProvider.

End EmptyAnswersClaim.

Section EmptyAnswersSamples.
Import AiProvider.


End EmptyAnswersSamples.

(** ** The fallback chain *)

Section FallbackChain.
Import AiProvider.
Variable World : Type.
Variable call : string -> callOptions -> M World string.
Variable options : generateOptions.




Lemma failing_length (ps : list providerDescriptor) (w0 w1 : World) (errs : list string) :
  failing call options ps w0 errs w1 -> length errs = length ps.
Proof. induction 1; simpl; congruence. Qed.
End FallbackChain.

Section FallbackChainClaim.
Import AiProvider.

End FallbackChainClaim.

Section FallbackChainSamples.
Import AiProvider.


(** [generateAIResponse] is the chain over the registry's providers and
    the transports. *)
Lemma generateAIResponse_unfold (World : Type) (env : environment)
    (fetch : httpRequest -> M World httpResponse)
    (sdk : sdkRequest -> M World (option string))
    (messages : list message) (systemPrompt : string) (options : generateOptions) :
  generateAIResponse env fetch sdk messages systemPrompt options
  = generateFrom (fun providerName =>
                    callProvider env fetch sdk providerName messages systemPrompt)
                 options (getAvailableProviders env (preferredProviders options)).
Proof. reflexivity. Qed.

(** A run: Groq and OpenAI are configured, Groq is down; the chain calls
    the SDK twice and returns the answer of OpenAI. *)
Example generateAIResponse_second_provider :
  generateAIResponse
    (envOf [("GROQ_API_KEY", "gsk_live"); ("OPENAI_API_KEY", "sk-live")])
    (@refusing nat httpRequest httpResponse "offline") groqDown
    [{| role := "user"; text := "report" |}] EmptyString plainOptions 0
  = (Returned {| r_content := "answer"; r_provider := OPENAI; r_model := "gpt-4o-mini" |},
     2).
Proof. vm_compute. reflexivity. Qed.

(** With no credentials, the configuration error. *)
Example generateAIResponse_unconfigured :
  generateAIResponse (envOf []) (@refusing nat httpRequest httpResponse "offline") groqDown
    [] EmptyString plainOptions 0
  = (Thrown "No AI providers configured. Please set at least one API key in server/.env", 0).
Proof. vm_compute. reflexivity. Qed.
End FallbackChainSamples.

(** ** Findings are emitted with a test name and a value *)

Section Trimming.

Lemma chars_str (l : list ascii) : chars (str l) = l.
Proof. apply list_ascii_of_string_of_list_ascii. Qed.

Lemma str_chars (s : string) : str (chars s) = s.
Proof. apply string_of_list_ascii_of_string. Qed.

Lemma dropSpaces_suffix (l : list ascii) : exists pre, l = pre ++ dropSpaces l.
Proof.
  induction l as [| c t [pre IH]]; simpl.
  - exists []. reflexivity.
  - destruct (isSpace c).
    + exists (c :: pre). simpl. f_equal. exact IH.
    + exists []. reflexivity.
Qed.

Lemma dropSpaces_head (l : list ascii) (c : ascii) (t : list ascii) :
  dropSpaces l = c :: t -> isSpace c = false.
Proof.
  induction l as [| a l IH]; simpl; [discriminate |].
  destruct (isSpace a) eqn:Ha; [exact IH |].
  intros H. injection H as <- _. exact Ha.
Qed.

Lemma dropSpaces_keeps (l : list ascii) (c : ascii) :
  In c l -> isSpace c = false -> dropSpaces l <> [].
Proof.
  induction l as [| a l IH]; simpl; [contradiction |].
  intros [<- | Hin] Hc.
  - rewrite Hc. discriminate.
  - destruct (isSpace a); [apply IH; assumption | discriminate].
Qed.

(** A trimmed text is empty or begins with a character that is not white
    space. *)
Lemma trimList_head (l : list ascii) (c : ascii) (t : list ascii) :
  trimList l = c :: t -> isSpace c = false.
Proof.
  unfold trimList. intros H.
  destruct (dropSpaces l) as [| a l1] eqn:Hdrop.
  - simpl in H. discriminate.
  - pose proof (dropSpaces_head l Hdrop) as Ha.
    destruct (dropSpaces_suffix (rev (a :: l1))) as [pre Hpre].
    apply (f_equal (@rev ascii)) in Hpre.
    rewrite rev_involutive, rev_app_distr, H in Hpre.
    simpl in Hpre. injection Hpre as -> _. exact Ha.
Qed.

Lemma trim_headed (s : string) : nonEmpty (trim s) = true -> headed (trim s).
Proof.
  unfold trim. destruct (trimList (chars s)) as [| c t] eqn:H; simpl; [discriminate |].
  intros _. exact (trimList_head _ H).
Qed.

(** A text that begins with a character that is not white space is not
    trimmed away. *)
Lemma headed_trim (s : string) : headed s -> nonEmpty (trim s) = true.
Proof.
  destruct s as [| c t]; simpl; [contradiction |].
  intros Hc. unfold trim, trimList.
  change (chars (String c t)) with (c :: chars t).
  cbn [dropSpaces]. rewrite Hc.
  destruct (dropSpaces (rev (c :: chars t))) as [| a l] eqn:Hdrop.
  - exfalso. apply (@dropSpaces_keeps (rev (c :: chars t)) c);
      [apply -> in_rev; left; reflexivity | exact Hc | exact Hdrop].
  - destruct (rev (a :: l)) as [| b l'] eqn:Hrev; [| reflexivity].
    apply (f_equal (@length ascii)) in Hrev. rewrite length_rev in Hrev. discriminate.
Qed.

Lemma headed_append (s u : string) : headed s -> headed (s ++ u).
Proof. destruct s; simpl; [contradiction | trivial]. Qed.

Lemma headed_nonEmpty (s : string) : headed s -> nonEmpty s = true.
Proof. destruct s; simpl; [contradiction | reflexivity]. Qed.

End Trimming.

Section FindingsInvariant.
Import AiController.

Lemma parseAbnormalRow_named (row fallbackTest : string) (f : finding) :
  parseAbnormalRow row fallbackTest = Some f -> named f.
Proof.
  unfold parseAbnormalRow. intros H.
  repeat (match type of H with
          | context [match ?x with _ => _ end] => destruct x eqn:?
          end; try discriminate).
  all: injection H as <-; unfold named; simpl.
  all: match goal with
       | E : negb _ || negb _ = false |- _ =>
           apply orb_false_elim in E; destruct E as [E1 E2];
           apply negb_false_iff in E1; apply negb_false_iff in E2
       end.
  all: split; assumption.
Qed.

Lemma lineParts_headed (line part : string) : In part (lineParts line) -> headed part.
Proof.
  unfold lineParts. intros H. apply filter_In in H. destruct H as [Hin Hne].
  apply in_map_iff in Hin. destruct Hin as [q [<- _]].
  apply trim_headed. exact Hne.
Qed.

Lemma classifyPart_headed (flagWord : string) (acc : fields) (part : string) :
  headed part ->
  emptyOrHeaded (f_test acc) /\ emptyOrHeaded (f_value acc) ->
  emptyOrHeaded (f_test (classifyPart flagWord acc part))
  /\ emptyOrHeaded (f_value (classifyPart flagWord acc part)).
Proof.
  intros Hpart [Htest Hvalue]. unfold classifyPart.
  destruct (Regex.test bareNumber part && negb (nonEmpty (f_value acc)));
    [simpl; split; [assumption | right; assumption] |].
  destruct ((match exec RANGE_REGEX part with Some _ => true | None => false end)
            && negb (nonEmpty (f_range acc)));
    [simpl; split; assumption |].
  destruct (Regex.test bareUnit part && negb (nonEmpty (f_unit acc)) && nonEmpty (f_value acc));
    [simpl; split; assumption |].
  destruct (Regex.test FLAG_REGEX part && String.eqb part flagWord);
    [split; assumption |].
  destruct (negb (nonEmpty (f_value acc)) && negb (nonEmpty (f_range acc)));
    [| split; assumption].
  simpl. split; [| assumption]. right.
  destruct Htest as [E | Htest].
  - rewrite E. simpl. exact Hpart.
  - apply headed_append. exact Htest.
Qed.

Lemma classifyParts_headed (flagWord : string) (parts : list string) (acc : fields) :
  Forall headed parts ->
  emptyOrHeaded (f_test acc) /\ emptyOrHeaded (f_value acc) ->
  emptyOrHeaded (f_test (fold_left (classifyPart flagWord) parts acc))
  /\ emptyOrHeaded (f_value (fold_left (classifyPart flagWord) parts acc)).
Proof.
  intros Hparts. revert acc.
  induction Hparts as [| part parts Hpart _ IH]; intros acc Hacc; simpl; [exact Hacc |].
  apply IH. apply classifyPart_headed; assumption.
Qed.

Lemma emptyOrHeaded_trim (s : string) :
  emptyOrHeaded s -> nonEmpty s = true -> nonEmpty (trim s) = true.
Proof.
  intros [-> | H] Hne; [discriminate | apply headed_trim; exact H].
Qed.

Lemma extractTestDataFromLine_named (line nextLine prevLine : string) (f : finding) :
  extractTestDataFromLine line nextLine prevLine = Some f -> named f.
Proof.
  unfold extractTestDataFromLine. intros H.
  destruct (exec FLAG_REGEX line) as [flagMatch |]; [| discriminate].
  destruct (Regex.test NORMAL_REGEX _); [discriminate |].
  cbv zeta in H.
  match type of H with
  | context [fold_left (classifyPart ?w) ?ps ?a] =>
      pose proof (@classifyParts_headed w ps a) as Hacc;
      remember (fold_left (classifyPart w) ps a) as acc
  end.
  destruct (negb (nonEmpty (f_test acc)) || negb (nonEmpty (f_value acc))) eqn:E;
    [discriminate |].
  apply orb_false_elim in E. destruct E as [E1 E2].
  apply negb_false_iff in E1. apply negb_false_iff in E2.
  injection H as <-. unfold named. simpl.
  destruct Hacc as [Htest Hvalue].
  - apply Forall_forall. intros part. apply lineParts_headed.
  - split; left; reflexivity.
  - split; apply emptyOrHeaded_trim; assumption.
Qed.

Lemma tableFindings_named (lines : list string) (prev : string) :
  Forall named (tableFindings prev lines).
Proof.
  revert prev. induction lines as [| line rest IH]; intros prev; simpl; [constructor |].
  destruct (Regex.test headerWord line && negb (Regex.test anyDigit line)); [apply IH |].
  destruct (negb (Regex.test anyDigit line)); [apply IH |].
  destruct (extractTestDataFromLine _ _ _) as [extracted |] eqn:E; [| apply IH].
  destruct (nonEmpty (flag extracted) && negb (Regex.test NORMAL_REGEX (flag extracted)));
    [| apply IH].
  constructor; [exact (extractTestDataFromLine_named _ _ _ E) | apply IH].
Qed.

Lemma addParsedRows_named (rows : list string) (lastTest : string) (findings : list finding) :
  Forall named findings -> Forall named (addParsedRows rows lastTest findings).
Proof.
  revert lastTest findings.
  induction rows as [| row rest IH]; intros lastTest findings H; simpl; [exact H |].
  destruct (parseAbnormalRow row lastTest) as [parsed |] eqn:E; [| apply IH; exact H].
  apply IH. destruct (existsb _ findings); [exact H |].
  apply Forall_app. split; [exact H |].
  constructor; [exact (parseAbnormalRow_named _ _ E) | constructor].
Qed.

Lemma extractAbnormalFromText_named (text : string) :
  Forall named (extractAbnormalFromText text).
Proof.
  unfold extractAbnormalFromText. apply addParsedRows_named. apply tableFindings_named.
Qed.




End FindingsInvariant.

(** ** The stable sort by a numeric key *)

Lemma flat_map_agree (A B : Type) (f g : A -> list B) (l : list A) :
  (forall a, In a l -> f a = g a) -> flat_map f l = flat_map g l.
Proof.
  induction l as [| a l IH]; intros H; simpl; [reflexivity |].
  rewrite (H a (or_introl eq_refl)). f_equal. apply IH.
  intros b Hb. apply H. right. exact Hb.
Qed.

Section SortByKey.
Variable A : Type.
Variable key : A -> Z.

Let cmp (a b : A) : Z := (key a - key b)%Z.

Lemma insertSorted_front (x : A) (l : list A) :
  (forall y, In y l -> (key x <= key y)%Z) -> insertSorted cmp x l = x :: l.
Proof.
  destruct l as [| y l]; intros H; simpl; [reflexivity |].
  assert (Hy : (key x <= key y)%Z) by (apply H; left; reflexivity).
  unfold cmp. destruct (Z.leb_spec (key x - key y) 0); [reflexivity | lia].
Qed.

Lemma insertSorted_skip (x : A) (l1 l2 : list A) :
  (forall y, In y l1 -> (key y < key x)%Z) ->
  insertSorted cmp x (l1 ++ l2) = l1 ++ insertSorted cmp x l2.
Proof.
  induction l1 as [| y l1 IH]; intros H; simpl; [reflexivity |].
  assert (Hy : (key y < key x)%Z) by (apply H; left; reflexivity).
  unfold cmp at 1. destruct (Z.leb_spec (key x - key y) 0); [lia |].
  f_equal. apply IH. intros z Hz. apply H. right. exact Hz.
Qed.

(** The elements of the key [k], in the order of [l]. *)
Let group (l : list A) (k : Z) : list A := filter (fun x => (key x =? k)%Z) l.

Lemma insertSorted_groups (x : A) (l : list A) (ks : list Z) :
  StronglySorted Z.lt ks ->
  In (key x) ks ->
  insertSorted cmp x (flat_map (group l) ks) = flat_map (group (x :: l)) ks.
Proof.
  intros Hsorted. induction Hsorted as [| k ks Hks IH Hlt]; intros Hin; [contradiction |].
  simpl flat_map. unfold group at 3. simpl filter. fold (group l k).
  destruct (Z.eqb_spec (key x) k) as [Heq | Hneq].
  - rewrite insertSorted_front.
    + simpl. f_equal. f_equal.
      apply flat_map_agree. intros k' Hk'. unfold group. simpl.
      rewrite Forall_forall in Hlt. specialize (Hlt k' Hk').
      destruct (Z.eqb_spec (key x) k'); [lia | reflexivity].
    + intros y Hy. apply in_app_or in Hy. destruct Hy as [Hy | Hy].
      * unfold group in Hy. apply filter_In in Hy. destruct Hy as [_ Hy].
        apply Z.eqb_eq in Hy. lia.
      * apply in_flat_map in Hy. destruct Hy as [k' [Hk' Hy]].
        unfold group in Hy. apply filter_In in Hy. destruct Hy as [_ Hy].
        apply Z.eqb_eq in Hy. rewrite Forall_forall in Hlt. specialize (Hlt k' Hk'). lia.
  - destruct Hin as [Hin | Hin]; [congruence |].
    rewrite insertSorted_skip.
    + f_equal. apply IH. exact Hin.
    + intros y Hy. unfold group in Hy. apply filter_In in Hy. destruct Hy as [_ Hy].
      apply Z.eqb_eq in Hy. rewrite Forall_forall in Hlt. specialize (Hlt (key x) Hin). lia.
Qed.

(** Sorting by the key lists the elements key by key, each key's elements
    in the order they had. *)
Lemma sort_by_key (l : list A) (ks : list Z) :
  StronglySorted Z.lt ks ->
  (forall x, In x l -> In (key x) ks) ->
  sort cmp l = flat_map (group l) ks.
Proof.
  intros Hsorted. induction l as [| x l IH]; intros Hkeys; simpl.
  - clear Hsorted Hkeys. induction ks as [| k ks IHks]; [reflexivity | exact IHks].
  - rewrite IH.
    + apply insertSorted_groups; [exact Hsorted | apply Hkeys; left; reflexivity].
    + intros y Hy. apply Hkeys. right. exact Hy.
Qed.

End SortByKey.

(** ** The registry's order *)

Section RegistryOrder.
Import AiProvider.

Lemma orderMapGet_bounds (preferredOrder : list string) (off : nat) (n : string) (j : nat) :
  orderMapGet preferredOrder off n = Some j -> off <= j < off + length preferredOrder.
Proof.
  revert off. induction preferredOrder as [| n' rest IH]; intros off; simpl; [discriminate |].
  destruct (orderMapGet rest (S off) n) as [j' |] eqn:E.
  - intros [= <-]. apply IH in E. lia.
  - destruct (String.eqb n' n); [| discriminate]. intros [= <-]. lia.
Qed.

Lemma orderMapGet_none (preferredOrder : list string) (off : nat) (n : string) :
  orderMapGet preferredOrder off n = None <-> ~ In n preferredOrder.
Proof.
  revert off. induction preferredOrder as [| n' rest IH]; intros off; simpl.
  - split; [intros _ [] | reflexivity].
  - destruct (orderMapGet rest (S off) n) as [j |] eqn:E.
    + split; [discriminate |]. intros H. exfalso.
      assert (Hnone : orderMapGet rest (S off) n = None) by (apply IH; tauto).
      congruence.
    + apply IH in E. destruct (String.eqb_spec n' n) as [-> | Hneq].
      * split; [discriminate | intros H; exfalso; apply H; left; reflexivity].
      * split; [intros _ [H | H]; [congruence | contradiction] | reflexivity].
Qed.

Lemma existsb_name (preferredOrder : list string) (n : string) :
  existsb (String.eqb n) preferredOrder = true <-> In n preferredOrder.
Proof.
  rewrite existsb_exists. split.
  - intros [x [Hin Heq]]. apply String.eqb_eq in Heq. subst. exact Hin.
  - intros Hin. exists n. split; [exact Hin | apply String.eqb_refl].
Qed.

(** The ranks that can occur, in ascending order. *)
Let ranks (off n : nat) : list Z := map Z.of_nat (List.seq off n) ++ [MAX_SAFE_INTEGER].

Lemma ranks_sorted (n off : nat) :
  (Z.of_nat (off + n) <= MAX_SAFE_INTEGER)%Z -> StronglySorted Z.lt (ranks off n).
Proof.
  revert off. induction n as [| n IH]; intros off Hmax; unfold ranks; simpl.
  - repeat constructor.
  - constructor.
    + apply IH. lia.
    + apply Forall_app. split.
      * apply Forall_forall. intros z Hz. apply in_map_iff in Hz.
        destruct Hz as [i [<- Hi]]. apply in_seq in Hi. lia.
      * repeat constructor. lia.
Qed.

Lemma rankFrom_in_ranks (preferredOrder : list string) (off : nat) (p : providerDescriptor) :
  In (rankFrom preferredOrder off p) (ranks off (length preferredOrder)).
Proof.
  unfold rankFrom, ranks. apply in_or_app.
  destruct (orderMapGet preferredOrder off (name p)) as [j |] eqn:E.
  - left. apply in_map. apply in_seq. apply orderMapGet_bounds in E. lia.
  - right. left. reflexivity.
Qed.

Lemma filter_all (A : Type) (f : A -> bool) (l : list A) :
  (forall x, In x l -> f x = true) -> filter f l = l.
Proof.
  induction l as [| x l IH]; intros H; simpl; [reflexivity |].
  rewrite (H x (or_introl eq_refl)). f_equal. apply IH.
  intros y Hy. apply H. right. exact Hy.
Qed.

Lemma filter_none (A : Type) (f : A -> bool) (l : list A) :
  (forall x, In x l -> f x = false) -> filter f l = [].
Proof.
  induction l as [| x l IH]; intros H; simpl; [reflexivity |].
  rewrite (H x (or_introl eq_refl)). apply IH.
  intros y Hy. apply H. right. exact Hy.
Qed.

(** The providers of the greatest rank are those that [preferredOrder]
    does not name. *)
Lemma unranked_providers (preferredOrder : list string) (off : nat)
    (providers : list providerDescriptor) :
  (Z.of_nat (off + length preferredOrder) <= MAX_SAFE_INTEGER)%Z ->
  filter (fun p => (rankFrom preferredOrder off p =? MAX_SAFE_INTEGER)%Z) providers
  = providersNotIn preferredOrder providers.
Proof.
  intros Hmax. unfold providersNotIn. apply filter_ext. intros p. unfold rankFrom.
  destruct (orderMapGet preferredOrder off (name p)) as [j |] eqn:E.
  - pose proof (orderMapGet_bounds _ _ _ E) as Hj.
    assert (Hin : In (name p) preferredOrder).
    { destruct (in_dec string_dec (name p) preferredOrder) as [H | H]; [exact H |].
      apply (orderMapGet_none preferredOrder off) in H. congruence. }
    apply existsb_name in Hin. rewrite Hin. simpl.
    apply Z.eqb_neq. lia.
  - apply orderMapGet_none in E.
    destruct (existsb (String.eqb (name p)) preferredOrder) eqn:Hex.
    + apply existsb_name in Hex. contradiction.
    + rewrite Z.eqb_refl. reflexivity.
Qed.

(** The providers rank by rank are the providers name by name, in the
    order of the names' last occurrences. *)
Lemma ranked_providers (preferredOrder : list string) (off : nat)
    (providers : list providerDescriptor) :
  (Z.of_nat (off + length preferredOrder) <= MAX_SAFE_INTEGER)%Z ->
  flat_map (fun k => filter (fun p => (rankFrom preferredOrder off p =? k)%Z) providers)
           (map Z.of_nat (List.seq off (length preferredOrder)))
  = flat_map (providersNamed providers) (preferenceOrder preferredOrder).
Proof.
  revert off. induction preferredOrder as [| n rest IH]; intros off Hmax; [reflexivity |].
  simpl length in *. simpl List.seq. simpl map. simpl flat_map at 1.
  assert (Hrest :
            flat_map (fun k => filter (fun p => (rankFrom (n :: rest) off p =? k)%Z) providers)
                     (map Z.of_nat (List.seq (S off) (length rest)))
            = flat_map (providersNamed providers) (preferenceOrder rest)).
  { rewrite <- (IH (S off)); [| lia]. apply flat_map_agree. intros k Hk.
    apply in_map_iff in Hk. destruct Hk as [i [<- Hi]]. apply in_seq in Hi.
    apply filter_ext. intros p. unfold rankFrom. simpl.
    destruct (orderMapGet rest (S off) (name p)) as [j |] eqn:E; [reflexivity |].
    destruct (String.eqb n (name p)); [| reflexivity].
    transitivity false; [apply Z.eqb_neq; lia |].
    symmetry. apply Z.eqb_neq. lia. }
  rewrite Hrest. unfold preferenceOrder. simpl nodup.
  destruct (in_dec string_dec n rest) as [Hin | Hnotin].
  - rewrite filter_none; [reflexivity |].
    intros p _. unfold rankFrom. simpl.
    destruct (orderMapGet rest (S off) (name p)) as [j |] eqn:E.
    + apply orderMapGet_bounds in E. apply Z.eqb_neq. lia.
    + apply orderMapGet_none in E. destruct (String.eqb_spec n (name p)) as [Heq | Hneq].
      * subst. contradiction.
      * apply Z.eqb_neq. lia.
  - simpl flat_map. f_equal. unfold providersNamed. apply filter_ext. intros p.
    unfold rankFrom. simpl.
    destruct (orderMapGet rest (S off) (name p)) as [j |] eqn:E.
    + pose proof (orderMapGet_bounds _ _ _ E) as Hj.
      assert (Hp : In (name p) rest).
      { destruct (in_dec string_dec (name p) rest) as [H | H]; [exact H |].
        apply (orderMapGet_none rest (S off)) in H. congruence. }
      transitivity false; [apply Z.eqb_neq; lia |].
      symmetry. apply String.eqb_neq. intros Heq. subst. contradiction.
    + rewrite (String.eqb_sym (name p) n). destruct (String.eqb n (name p));
        [apply Z.eqb_refl | apply Z.eqb_neq; lia].
Qed.

End RegistryOrder.

Section RegistryClaim.
Import AiProvider.

Lemma reorder_groups (preferredOrder : list string) (providers : list providerDescriptor) :
  (Z.of_nat (length preferredOrder) <= MAX_SAFE_INTEGER)%Z ->
  reorder preferredOrder providers
  = flat_map (providersNamed providers) (preferenceOrder preferredOrder)
    ++ providersNotIn preferredOrder providers.
Proof.
  intros Hmax. unfold reorder.
  destruct preferredOrder as [| n rest] eqn:Hpo.
  - simpl. unfold providersNotIn. symmetry. apply filter_all. reflexivity.
  - rewrite <- Hpo in *. clear Hpo n rest.
    change (sort (byRank preferredOrder) providers)
      with (sort (fun a b => (rankFrom preferredOrder 0 a - rankFrom preferredOrder 0 b)%Z)
                 providers).
    rewrite (@sort_by_key _ (rankFrom preferredOrder 0) providers
               (map Z.of_nat (List.seq 0 (length preferredOrder)) ++ [MAX_SAFE_INTEGER])).
    + rewrite flat_map_app. simpl flat_map at 2. rewrite app_nil_r.
      rewrite ranked_providers by exact Hmax.
      rewrite unranked_providers by exact Hmax.
      reflexivity.
    + apply ranks_sorted. exact Hmax.
    + intros p _. apply rankFrom_in_ranks.
Qed.

(** C8. For every configuration and every [preferredOrder], the registry
    lists first the providers that [preferredOrder] names, name by name in
    the order that [preferredOrder] gives the names, and after them all the
    providers that it does not name; within one name and among the
    providers not named, the default priority order is kept. *)
Theorem preferred_providers_come_first
    (env : environment) (preferredOrder : list string) :
  (Z.of_nat (length preferredOrder) <= MAX_SAFE_INTEGER)%Z ->
  getAvailableProviders env preferredOrder
  = flat_map (providersNamed (getAvailableProviders env []))
             (preferenceOrder preferredOrder)
    ++ providersNotIn preferredOrder (getAvailableProviders env [])
  /\ (NoDup preferredOrder ->
      getAvailableProviders env preferredOrder
      = flat_map (providersNamed (getAvailableProviders env [])) preferredOrder
        ++ providersNotIn preferredOrder (getAvailableProviders env [])).
Proof.
  intros Hmax.
  assert (H : getAvailableProviders env preferredOrder
              = flat_map (providersNamed (getAvailableProviders env []))
                         (preferenceOrder preferredOrder)
                ++ providersNotIn preferredOrder (getAvailableProviders env [])).
  { unfold getAvailableProviders. simpl reorder at 2 3. apply reorder_groups. exact Hmax. }
  split; [exact H |].
  intros Hnodup. rewrite H. unfold preferenceOrder.
  rewrite (nodup_fixed_point string_dec Hnodup). reflexivity.
Qed.

Lemma preferred_providers_come_first_witness :
  getAvailableProviders
    (envOf [("GEMINI_API_KEY", "AIzaSample"); ("GROQ_API_KEY", "gsk_live");
            ("HUGGINGFACE_API_KEY", "hf_live"); ("OPENAI_API_KEY", "sk-live")])
    [OPENAI; GROQ]
  = [describe OPENAI "gpt-4o-mini"; describe GROQ "llama-3.3-70b-versatile";
     describe GEMINI "gemini-2.0-flash-exp";
     describe HUGGINGFACE "mistralai/Mistral-7B-Instruct-v0.2"].
Proof.
  rewrite (proj2 (preferred_providers_come_first
                    (envOf [("GEMINI_API_KEY", "AIzaSample"); ("GROQ_API_KEY", "gsk_live");
                            ("HUGGINGFACE_API_KEY", "hf_live"); ("OPENAI_API_KEY", "sk-live")])
                    [OPENAI; GROQ] ltac:(vm_compute; discriminate))
                 ltac:(repeat constructor; simpl; intuition discriminate)).
  vm_compute. reflexivity.
Defined.

(** A name that is repeated in [preferredOrder] counts at its last
    occurrence. *)
Example repeated_preference :
  map name (getAvailableProviders
              (envOf [("GROQ_API_KEY", "gsk_live"); ("OPENAI_API_KEY", "sk-live")])
              [GROQ; OPENAI; GROQ])
  = [OPENAI; GROQ].
Proof. vm_compute. reflexivity. Qed.

End RegistryClaim.

(** ** Dictionaries *)

Section DictFacts.
Variable V : Type.
Implicit Types (d : dict V) (k : string) (v : V).

Lemma get_In d k v : get k d = Some v -> In (k, v) d.
Proof.
  induction d as [| [k' v'] d IH]; simpl; [discriminate |].
  destruct (String.eqb_spec k' k) as [-> | Hneq].
  - intros [= ->]. left. reflexivity.
  - intros H. right. apply IH. exact H.
Qed.

Lemma get_None_keys d k : get k d = None <-> ~ In k (keys d).
Proof.
  induction d as [| [k' v'] d IH]; simpl.
  - split; [intros _ [] | reflexivity].
  - destruct (String.eqb_spec k' k) as [-> | Hneq].
    + split; [discriminate | intros H; exfalso; apply H; left; reflexivity].
    + rewrite IH. split; [intros H [E | Hin]; [congruence | contradiction] | tauto].
Qed.

Lemma In_get d k v : NoDup (keys d) -> In (k, v) d -> get k d = Some v.
Proof.
  induction d as [| [k' v'] d IH]; simpl; [intros _ [] |].
  intros Hnodup [[= -> ->] | Hin].
  - rewrite String.eqb_refl. reflexivity.
  - inversion Hnodup as [| ? ? Hnotin Hrest]; subst.
    destruct (String.eqb_spec k' k) as [-> | Hneq].
    + exfalso. apply Hnotin. unfold keys. apply in_map_iff. exists (k, v). split; [reflexivity | exact Hin].
    + apply IH; assumption.
Qed.

Lemma has_true d k : has k d = true <-> In k (keys d).
Proof.
  unfold has. destruct (get k d) as [v |] eqn:E.
  - split; [intros _ | reflexivity].
    apply get_In in E. unfold keys. apply in_map_iff. exists (k, v). split; [reflexivity | exact E].
  - apply get_None_keys in E. split; [discriminate | contradiction].
Qed.

Lemma keys_update d k v : keys (update k v d) = keys d.
Proof.
  induction d as [| [k' v'] d IH]; simpl; [reflexivity |].
  destruct (String.eqb k' k); simpl; [reflexivity | f_equal; exact IH].
Qed.

Lemma get_update_same d k v : In k (keys d) -> get k (update k v d) = Some v.
Proof.
  induction d as [| [k' v'] d IH]; simpl; [intros [] |].
  destruct (String.eqb_spec k' k) as [-> | Hneq]; simpl.
  - intros _. rewrite String.eqb_refl. reflexivity.
  - intros [E | Hin]; [congruence |].
    destruct (String.eqb_spec k' k); [congruence | apply IH; exact Hin].
Qed.

Lemma get_update_other d k k' v : k' <> k -> get k' (update k v d) = get k' d.
Proof.
  intros Hneq. induction d as [| [k0 v0] d IH]; simpl; [reflexivity |].
  destruct (String.eqb_spec k0 k) as [-> | Hk0]; simpl.
  - destruct (String.eqb_spec k k'); [congruence | reflexivity].
  - destruct (String.eqb k0 k'); [reflexivity | exact IH].
Qed.

Lemma insertIndex_split (i : N) d k v :
  exists d1 d2, d = d1 ++ d2 /\ insertIndex i k v d = d1 ++ (k, v) :: d2.
Proof.
  induction d as [| [k' v'] d (d1 & d2 & Hd & Hins)]; simpl.
  - exists [], []. split; reflexivity.
  - destruct (arrayIndex k') as [j |].
    + destruct (j <? i)%N.
      * exists ((k', v') :: d1), d2. split; simpl; [f_equal; exact Hd | f_equal; exact Hins].
      * exists [], ((k', v') :: d). split; reflexivity.
    + exists [], ((k', v') :: d). split; reflexivity.
Qed.

(** A key that is new to the dictionary is inserted, the keys before and
    after it are kept. *)
Lemma set_new_split d k v :
  ~ In k (keys d) -> exists d1 d2, d = d1 ++ d2 /\ set k v d = d1 ++ (k, v) :: d2.
Proof.
  intros Hnew. unfold set.
  destruct (has k d) eqn:Hhas; [apply has_true in Hhas; contradiction |].
  destruct (arrayIndex k) as [i |].
  - apply insertIndex_split.
  - exists d, []. split; [symmetry; apply app_nil_r | reflexivity].
Qed.

Lemma get_middle_same (d1 d2 : dict V) k v :
  ~ In k (keys d1) -> get k (d1 ++ (k, v) :: d2) = Some v.
Proof.
  induction d1 as [| [k' v'] d1 IH]; simpl; intros Hnotin.
  - rewrite String.eqb_refl. reflexivity.
  - destruct (String.eqb_spec k' k) as [-> | Hneq]; [exfalso; apply Hnotin; left; reflexivity |].
    apply IH. intros H. apply Hnotin. right. exact H.
Qed.

Lemma get_middle_other (d1 d2 : dict V) k k' v :
  k' <> k -> get k' (d1 ++ (k, v) :: d2) = get k' (d1 ++ d2).
Proof.
  intros Hneq. induction d1 as [| [k0 v0] d1 IH]; simpl.
  - destruct (String.eqb_spec k k'); [congruence | reflexivity].
  - destruct (String.eqb k0 k'); [reflexivity | exact IH].
Qed.

Lemma get_set_same d k v : get k (set k v d) = Some v.
Proof.
  destruct (in_dec string_dec k (keys d)) as [Hin | Hnew].
  - unfold set. rewrite (proj2 (has_true d k) Hin). apply get_update_same. exact Hin.
  - destruct (@set_new_split d k v Hnew) as (d1 & d2 & Hd & ->).
    apply get_middle_same. intros H. apply Hnew. rewrite Hd. unfold keys.
    rewrite map_app. apply in_or_app. left. exact H.
Qed.

Lemma get_set_other d k k' v : k' <> k -> get k' (set k v d) = get k' d.
Proof.
  intros Hneq. destruct (in_dec string_dec k (keys d)) as [Hin | Hnew].
  - unfold set. rewrite (proj2 (has_true d k) Hin). apply get_update_other. exact Hneq.
  - destruct (@set_new_split d k v Hnew) as (d1 & d2 & Hd & ->).
    rewrite Hd. apply get_middle_other. exact Hneq.
Qed.

Lemma keys_set_In d k k' v : In k' (keys (set k v d)) <-> k' = k \/ In k' (keys d).
Proof.
  destruct (in_dec string_dec k (keys d)) as [Hin | Hnew].
  - unfold set. rewrite (proj2 (has_true d k) Hin), keys_update.
    split; [tauto | intros [-> | H]; assumption].
  - destruct (@set_new_split d k v Hnew) as (d1 & d2 & Hd & ->).
    rewrite Hd. unfold keys. rewrite !map_app. simpl. rewrite !in_app_iff. simpl.
    split; [intros [H | [H | H]]; auto | intros [H | [H | H]]; auto].
Qed.

Lemma NoDup_keys_set d k v : NoDup (keys d) -> NoDup (keys (set k v d)).
Proof.
  intros Hnodup. destruct (in_dec string_dec k (keys d)) as [Hin | Hnew].
  - unfold set. rewrite (proj2 (has_true d k) Hin), keys_update. exact Hnodup.
  - destruct (@set_new_split d k v Hnew) as (d1 & d2 & Hd & ->).
    rewrite Hd in Hnodup, Hnew. unfold keys in *. rewrite map_app in *. simpl.
    apply NoDup_Add with (a := k) (l := map fst d1 ++ map fst d2).
    + apply Add_app.
    + constructor; assumption.
Qed.

(** A key that is no array index goes to the end when it is new, and
    stays where it is otherwise. *)
Lemma keys_set_plain d k v :
  arrayIndex k = None ->
  keys (set k v d) = if existsb (String.eqb k) (keys d) then keys d else keys d ++ [k].
Proof.
  intros Hplain. unfold set. destruct (has k d) eqn:Hhas.
  - rewrite keys_update. apply has_true in Hhas.
    rewrite (proj2 (existsb_name (keys d) k) Hhas). reflexivity.
  - rewrite Hplain. unfold keys. rewrite map_app. simpl.
    destruct (existsb (String.eqb k) (map fst d)) eqn:Hex; [| reflexivity].
    apply existsb_name in Hex. apply has_true in Hex. congruence.
Qed.

End DictFacts.

(** ** The vote count *)

Section VoteCount.
Import Consensus.

Lemma countVotesFrom_ballots (names : list string) (parsed : list json) (idx : nat)
    (fieldVotes : dict (dict voteRec)) :
  countVotesFrom names idx parsed fieldVotes
  = fold_left cast (ballotsFrom names idx parsed) fieldVotes.
Proof.
  revert idx fieldVotes. induction parsed as [| obj rest IH]; intros idx fieldVotes; simpl.
  - reflexivity.
  - rewrite fold_left_app, IH. f_equal.
    generalize (ownProps obj) fieldVotes. clear.
    intros props. induction props as [| kv props IH]; intros fv; simpl; [reflexivity |].
    apply IH.
Qed.

Lemma countB_snoc (bs : list ballot) (b : ballot) (key s : string) :
  countB (bs ++ [b]) key s = countB bs key s + (if ballotFor key s b then 1 else 0).
Proof.
  unfold countB. rewrite filter_app, length_app. simpl.
  destruct (ballotFor key s b); reflexivity.
Qed.

Lemma find_snoc (A : Type) (f : A -> bool) (l : list A) (x : A) :
  find f (l ++ [x]) = match find f l with
                      | Some y => Some y
                      | None => if f x then Some x else None
                      end.
Proof.
  induction l as [| y l IH]; simpl; [reflexivity |].
  destruct (f y); [reflexivity | exact IH].
Qed.

Lemma firstB_snoc (bs : list ballot) (b : ballot) (key s : string) :
  firstB (bs ++ [b]) key s
  = match firstB bs key s with
    | Some v => Some v
    | None => if ballotFor key s b then Some (ballotValue b) else None
    end.
Proof.
  unfold firstB. rewrite find_snoc.
  destruct (find (ballotFor key s) bs); [reflexivity |].
  destruct (ballotFor key s b); reflexivity.
Qed.

Lemma seenB_snoc (bs : list ballot) (b : ballot) (key : string) :
  seenB (bs ++ [b]) key
  = seenB bs key ++ (if String.eqb (ballotKey b) key then [ballotText b] else []).
Proof.
  unfold seenB. rewrite filter_app, map_app. simpl.
  destruct (String.eqb (ballotKey b) key); reflexivity.
Qed.

Lemma countB_zero_find (bs : list ballot) (key s : string) :
  countB bs key s = 0 -> firstB bs key s = None.
Proof.
  unfold countB, firstB. induction bs as [| b bs IH]; simpl; [reflexivity |].
  destruct (ballotFor key s b); simpl; [discriminate | exact IH].
Qed.

Lemma countB_zero_seen (bs : list ballot) (key : string) :
  (forall s, countB bs key s = 0) -> seenB bs key = [].
Proof.
  unfold countB, seenB. induction bs as [| b bs IH]; intros H; simpl; [reflexivity |].
  destruct (String.eqb (ballotKey b) key) eqn:Hkey.
  - specialize (H (ballotText b)). simpl in H. unfold ballotFor in H at 1.
    rewrite Hkey, String.eqb_refl in H. discriminate.
  - apply IH. intros s. specialize (H s). simpl in H. unfold ballotFor in H at 1.
    rewrite Hkey in H. exact H.
Qed.

Lemma firstSeen_snoc (l : list string) (s : string) :
  firstSeen (l ++ [s]) = addNew (firstSeen l) s.
Proof. unfold firstSeen. rewrite fold_left_app. reflexivity. Qed.

Lemma tallied_nil : tallied [] [].
Proof.
  split; [constructor |]. split; [intros key byValue H; discriminate |].
  intros key _ s. reflexivity.
Qed.

(** One more ballot: the table keeps the count. *)
Lemma tallied_cast (fieldVotes : dict (dict voteRec)) (bs : list ballot) (b : ballot) :
  tallied fieldVotes bs -> tallied (cast fieldVotes b) (bs ++ [b]).
Proof.
  intros (Hkeys & Hsome & Hnone).
  destruct b as [source [k v]]. unfold cast, castVote. cbn [fst snd]. cbv beta iota zeta.
  remember (stringify v) as s0 eqn:Hs0.
  remember (match get k fieldVotes with Some d => d | None => [] end) as forKey eqn:HforKeyDef.
  assert (HforKey :
            NoDup (keys forKey)
            /\ (forall s,
                   match get s forKey with
                   | Some r => stringify (value r) = s /\ count r = countB bs k s
                               /\ 0 < count r /\ firstB bs k s = Some (value r)
                   | None => countB bs k s = 0
                   end)
            /\ ((forall s, In s (seenB bs k) -> arrayIndex s = None) ->
                keys forKey = firstSeen (seenB bs k))).
  { subst forKey. destruct (get k fieldVotes) as [d |] eqn:Hget.
    - exact (Hsome k d Hget).
    - split; [constructor |]. split; [intros s; simpl; apply Hnone; exact Hget |].
      intros _. rewrite countB_zero_seen; [reflexivity | apply Hnone; exact Hget]. }
  clear HforKeyDef.
  destruct HforKey as (HforKeyNoDup & HforKeyCount & HforKeyOrder).
  remember (match get s0 forKey with
            | Some r => r
            | None => {| count := 0; value := v; sources := [] |}
            end) as entry eqn:Hentry.
  assert (Hentryfacts :
            stringify (value entry) = s0
            /\ count entry = countB bs k s0
            /\ match firstB bs k s0 with
               | Some x => Some x
               | None => Some v
               end = Some (value entry)).
  { specialize (HforKeyCount s0). subst entry.
    destruct (get s0 forKey) as [r |].
    - destruct HforKeyCount as (Htext & Hcount & Hpos & Hfirst).
      rewrite Hfirst. repeat split; assumption.
    - simpl. rewrite (countB_zero_find _ _ _ HforKeyCount).
      repeat split; [symmetry; exact Hs0 | symmetry; exact HforKeyCount]. }
  clear Hentry. destruct Hentryfacts as (Hentrytext & Hentrycount & Hentryfirst).
  split; [apply NoDup_keys_set; exact Hkeys |].
  split.
  - intros key byValue Hget.
    destruct (String.eqb_spec key k) as [-> | Hneq].
    + rewrite get_set_same in Hget. injection Hget as <-.
      split; [apply NoDup_keys_set; exact HforKeyNoDup |].
      split.
      * intros s. rewrite countB_snoc, firstB_snoc.
        unfold ballotFor, ballotKey, ballotText, ballotValue. simpl.
        rewrite String.eqb_refl. simpl. rewrite <- Hs0.
        destruct (String.eqb_spec s0 s) as [<- | Hs].
        -- rewrite get_set_same. simpl.
           repeat split; [exact Hentrytext | lia | lia | exact Hentryfirst].
        -- rewrite get_set_other by (intros E; apply Hs; symmetry; exact E).
           specialize (HforKeyCount s).
           destruct (get s forKey) as [r |].
           ++ destruct HforKeyCount as (Htext & Hcount & Hpos & Hfirst).
              rewrite Hfirst. repeat split; [exact Htext | lia | exact Hpos].
           ++ lia.
      * intros Hplain. rewrite seenB_snoc in *. unfold ballotKey, ballotText, ballotValue in *.
        simpl in *. rewrite String.eqb_refl in *. rewrite <- Hs0 in *.
        rewrite firstSeen_snoc.
        rewrite keys_set_plain by (apply Hplain; apply in_or_app; right; left; reflexivity).
        rewrite HforKeyOrder; [reflexivity |].
        intros s Hs. apply Hplain. apply in_or_app. left. exact Hs.
    + rewrite get_set_other in Hget by exact Hneq.
      destruct (Hsome key byValue Hget) as (Hnodup & Hcount & Horder).
      split; [exact Hnodup |].
      assert (Hother : forall s, ballotFor key s (source, (k, v)) = false).
      { intros s. unfold ballotFor, ballotKey. simpl.
        destruct (String.eqb_spec k key); [congruence | reflexivity]. }
      split.
      * intros s. rewrite countB_snoc, firstB_snoc, Hother.
        specialize (Hcount s). destruct (get s byValue) as [r |].
        -- destruct Hcount as (Htext & Hc & Hpos & Hfirst). rewrite Hfirst.
           repeat split; [exact Htext | lia | exact Hpos].
        -- lia.
      * rewrite seenB_snoc. unfold ballotKey. simpl.
        destruct (String.eqb_spec k key); [congruence |]. rewrite app_nil_r. exact Horder.
  - intros key Hget s.
    destruct (String.eqb_spec key k) as [-> | Hneq].
    + rewrite get_set_same in Hget. discriminate.
    + rewrite get_set_other in Hget by exact Hneq.
      rewrite countB_snoc. unfold ballotFor, ballotKey. simpl.
      destruct (String.eqb_spec k key); [congruence |]. simpl.
      rewrite (Hnone key Hget s). reflexivity.
Qed.

Lemma tallied_fold (bs : list ballot) : tallied (fold_left cast bs []) bs.
Proof.
  induction bs as [| b bs IH] using rev_ind; [exact tallied_nil |].
  rewrite fold_left_app. simpl. apply tallied_cast. exact IH.
Qed.

Lemma countVotes_tallied (names : list string) (parsed : list json) :
  tallied (countVotes names parsed) (ballotsFrom names 0 parsed).
Proof. unfold countVotes. rewrite countVotesFrom_ballots. apply tallied_fold. Qed.

End VoteCount.

(** ** The own properties of a parsed response *)

Section OwnProperties.

Lemma ofNat_injective (n m : nat) : ofNat n = ofNat m -> n = m.
Proof.
  unfold ofNat. intros H. apply Unsigned.to_uint_inj.
  assert (Hsome : Some (Nat.to_uint n) = Some (Nat.to_uint m)).
  { rewrite <- (NilEmpty.usu (Nat.to_uint n)), <- (NilEmpty.usu (Nat.to_uint m)), H.
    reflexivity. }
  injection Hsome as Heq. exact Heq.
Qed.

Lemma keys_indexed (A : Type) (l : list A) (i : nat) :
  keys (indexed i l) = map ofNat (List.seq i (length l)).
Proof.
  revert i. induction l as [| x l IH]; intros i; simpl; [reflexivity |].
  f_equal. apply IH.
Qed.

Lemma keys_filter_NoDup (V : Type) (f : string * V -> bool) (d : dict V) :
  NoDup (keys d) -> NoDup (keys (filter f d)).
Proof.
  induction d as [| [k v] d IH]; simpl; intros H; [constructor |].
  inversion H as [| ? ? Hnotin Hrest]; subst.
  destruct (f (k, v)); simpl; [| apply IH; exact Hrest].
  constructor; [| apply IH; exact Hrest].
  intros Hin. apply Hnotin. unfold keys in *. apply in_map_iff in Hin.
  destruct Hin as [[k' v'] [Hk Hin]]. simpl in Hk. subst k'.
  apply filter_In in Hin. apply in_map_iff. exists (k, v'). split; [reflexivity | tauto].
Qed.

Lemma keys_firstBindings_NoDup (ps : list (string * json)) : NoDup (keys (firstBindings ps)).
Proof.
  induction ps as [| [k v] ps IH]; simpl; [constructor |].
  constructor.
  - unfold keys. intros Hin. apply in_map_iff in Hin.
    destruct Hin as [[k' v'] [Hk Hin]]. simpl in Hk. subst k'.
    apply filter_In in Hin. destruct Hin as [_ Hneq]. simpl in Hneq.
    rewrite String.eqb_refl in Hneq. discriminate.
  - apply keys_filter_NoDup. exact IH.
Qed.

(** No response has a property twice. *)
Lemma ownProps_NoDup (p : json) : NoDup (keys (ownProps p)).
Proof.
  destruct p as [| b | r | s | items | props]; simpl; try constructor.
  - rewrite keys_indexed. apply Injective_map_NoDup_in; [| apply seq_NoDup].
    intros x y _ _. apply ofNat_injective.
  - rewrite keys_indexed. apply Injective_map_NoDup_in; [| apply seq_NoDup].
    intros x y _ _. apply ofNat_injective.
  - apply keys_firstBindings_NoDup.
Qed.

End OwnProperties.

(** ** Ballots and parsed responses *)

Section BallotsOfResponses.
Import Consensus.





Lemma firstB_response (source : string) (p : json) (key s : string) :
  firstB (map (pair source) (ownProps p)) key s
  = if votesFor key s p then ownValue p key else None.
Proof.
  unfold votesFor, ownValue, firstB.
  pose proof (ownProps_NoDup p) as Hnodup.
  induction (ownProps p) as [| [k v] props IH]; simpl; [reflexivity |].
  inversion Hnodup as [| ? ? Hnotin Hrest]; subst.
  unfold ballotFor at 1. unfold ballotKey, ballotText, ballotValue. simpl.
  destruct (String.eqb_spec k key) as [-> | Hneq]; simpl.
  - destruct (String.eqb (stringify v) s); [reflexivity |].
    etransitivity; [apply (IH Hrest) |].
    apply get_None_keys in Hnotin. rewrite Hnotin. reflexivity.
  - apply IH. exact Hrest.
Qed.

Lemma firstB_app (bs bs' : list ballot) (key s : string) :
  firstB (bs ++ bs') key s
  = match firstB bs key s with Some v => Some v | None => firstB bs' key s end.
Proof.
  unfold firstB. induction bs as [| b bs IH]; simpl; [reflexivity |].
  destruct (ballotFor key s b); [reflexivity | exact IH].
Qed.

Lemma firstB_firstValue (names : list string) (parsed : list json) (idx : nat) (key s : string) :
  firstB (ballotsFrom names idx parsed) key s = firstValue parsed key s.
Proof.
  revert idx. induction parsed as [| p rest IH]; intros idx; simpl; [reflexivity |].
  rewrite firstB_app, firstB_response, IH. unfold firstValue. simpl.
  destruct (votesFor key s p) eqn:Hvote; [| reflexivity].
  unfold votesFor in Hvote. destruct (ownValue p key); [reflexivity | discriminate].
Qed.


End BallotsOfResponses.

(** ** The selection *)

Section Selection.
Import Consensus.

(** The head of the ranked votes is the first vote of the greatest count. *)
Lemma rankedVotes_top (votes : list voteRec) (top : voteRec) (others : list voteRec) :
  sort byCountDesc votes = top :: others ->
  exists before after,
    votes = before ++ top :: after
    /\ (forall r, In r before -> count r < count top)
    /\ (forall r, In r after -> count r <= count top).
Proof.
  revert top others. induction votes as [| x votes IH]; intros top others; simpl;
    [discriminate |].
  destruct (sort byCountDesc votes) as [| y sorted] eqn:Hsorted; simpl.
  - intros [= <- <-]. exists [], votes. split; [reflexivity |].
    split; [intros r [] |].
    destruct votes as [| z votes]; [intros r [] |].
    simpl in Hsorted. destruct (sort byCountDesc votes); simpl in Hsorted;
      [discriminate | destruct (byCountDesc z v <=? 0)%Z; discriminate].
  - destruct (IH y sorted eq_refl) as (before & after & Hvotes & Hbefore & Hafter).
    unfold byCountDesc at 1.
    destruct (Z.leb_spec (Z.of_nat (count y) - Z.of_nat (count x)) 0) as [Hle | Hgt].
    + intros [= <- <-]. exists [], votes. split; [reflexivity |].
      split; [intros r [] |].
      intros r Hr. rewrite Hvotes in Hr. apply in_app_or in Hr.
      destruct Hr as [Hr | [<- | Hr]]; [apply Hbefore in Hr | | apply Hafter in Hr]; lia.
    + intros [= <- <-]. exists (x :: before), after. rewrite Hvotes.
      split; [reflexivity |]. split; [| exact Hafter].
      intros r [<- | Hr]; [lia | apply Hbefore; exact Hr].
Qed.

Lemma selectKey_get (parsed : list json) (merged : dict json)
    (key : string) (byValue : dict voteRec) (k : string) :
  get k (selectKey parsed merged (key, byValue))
  = if String.eqb key k then
      match decide parsed key byValue with
      | Some v => Some v
      | None => get key merged
      end
    else get k merged.
Proof.
  unfold selectKey, decide.
  destruct (String.eqb_spec key k) as [<- | Hneq].
  - destruct (rankedVotes byValue) as [| top others]; [reflexivity |].
    destruct ((2 <=? count top) || (length parsed =? 1)); [apply get_set_same |].
    destruct parsed as [| first rest]; [reflexivity |].
    destruct (getProp first key); [apply get_set_same | reflexivity].
  - assert (Hother : forall v, get k (set key v merged) = get k merged).
    { intros v. apply get_set_other. intros E. apply Hneq. symmetry. exact E. }
    destruct (rankedVotes byValue) as [| top others]; [reflexivity |].
    destruct ((2 <=? count top) || (length parsed =? 1)); [apply Hother |].
    destruct parsed as [| first rest]; [reflexivity |].
    destruct (getProp first key); [apply Hother | reflexivity].
Qed.

Lemma select_untouched (parsed : list json) (entries : dict (dict voteRec))
    (merged : dict json) (k : string) :
  ~ In k (keys entries) ->
  get k (fold_left (selectKey parsed) entries merged) = get k merged.
Proof.
  revert merged. induction entries as [| [key byValue] entries IH]; intros merged Hnotin;
    cbn [fold_left]; [reflexivity |].
  rewrite IH by (intros H; apply Hnotin; right; exact H).
  rewrite selectKey_get.
  destruct (String.eqb_spec key k) as [-> | _]; [| reflexivity].
  exfalso. apply Hnotin. left. reflexivity.
Qed.

(** The selection gives each key of the vote table what [decide] gives
    it. *)
Lemma select_decides (parsed : list json) (entries : dict (dict voteRec))
    (merged : dict json) (key : string) (byValue : dict voteRec) :
  NoDup (keys entries) ->
  get key entries = Some byValue ->
  get key (fold_left (selectKey parsed) entries merged)
  = match decide parsed key byValue with
    | Some v => Some v
    | None => get key merged
    end.
Proof.
  revert merged. induction entries as [| [k0 bv0] entries IH]; intros merged Hnodup Hget;
    cbn [fold_left]; simpl in Hget, Hnodup; [discriminate |].
  inversion Hnodup as [| ? ? Hnotin Hrest]; subst.
  destruct (String.eqb_spec k0 key) as [-> | Hneq].
  - injection Hget as ->.
    rewrite select_untouched by exact Hnotin.
    rewrite selectKey_get, String.eqb_refl. reflexivity.
  - rewrite (IH _ Hrest Hget). rewrite selectKey_get.
    destruct (String.eqb_spec k0 key); [congruence | reflexivity].
Qed.

Lemma selectValues_get (names : list string) (parsed : list json) (key : string) :
  get key (selectValues parsed (countVotes names parsed))
  = match get key (countVotes names parsed) with
    | Some byValue => decide parsed key byValue
    | None => None
    end.
Proof.
  unfold selectValues.
  destruct (countVotes_tallied names parsed) as (Hnodup & _ & _).
  destruct (get key (countVotes names parsed)) as [byValue |] eqn:Hget.
  - rewrite (@select_decides parsed _ [] key byValue Hnodup Hget).
    destruct (decide parsed key byValue); reflexivity.
  - apply get_None_keys in Hget. rewrite select_untouched by exact Hget. reflexivity.
Qed.

Lemma mergeArrays_get (parsed : list json) (merged : dict json) (key : string) :
  get key (mergeArrays parsed merged)
  = match get key merged with
    | Some v => Some (if isArray v then JArr (uniqueItems [] (allItems parsed key)) else v)
    | None => None
    end.
Proof.
  unfold mergeArrays. induction merged as [| [k v] merged IH]; simpl; [reflexivity |].
  destruct (isArray v) eqn:Harray; simpl;
    (destruct (String.eqb_spec k key) as [-> | Hneq];
     [rewrite ?Harray; reflexivity | exact IH]).
Qed.

(** The entry of a vote among the votes of its key. *)
Lemma vote_entry (bs : list ballot) (fieldVotes : dict (dict voteRec))
    (key : string) (byValue : dict voteRec) (r : voteRec) :
  tallied fieldVotes bs ->
  get key fieldVotes = Some byValue ->
  In r (values byValue) ->
  get (stringify (value r)) byValue = Some r
  /\ count r = countB bs key (stringify (value r))
  /\ firstB bs key (stringify (value r)) = Some (value r).
Proof.
  intros (_ & Hsome & _) Hget Hin.
  destruct (Hsome key byValue Hget) as (Hnodup & Hcount & _).
  unfold values in Hin. apply in_map_iff in Hin. destruct Hin as [[s r'] [Hr Hin]].
  simpl in Hr. subst r'.
  pose proof (@In_get _ byValue s r Hnodup Hin) as Hs.
  specialize (Hcount s). rewrite Hs in Hcount.
  destruct Hcount as (Htext & Hc & _ & Hfirst).
  rewrite Htext. repeat split; assumption.
Qed.

End Selection.

(** ** A key without agreement that the first response lacks *)

Section AbsentKey.
Import Consensus.




End AbsentKey.

(** ** The vote: tally, selection and ties *)

Section Vote.
Import Consensus.




Lemma addNew_In (acc : list string) (s x : string) :
  In x (addNew acc s) <-> In x acc \/ x = s.
Proof.
  unfold addNew. destruct (existsb (String.eqb s) acc) eqn:Hex.
  - apply existsb_name in Hex. split; [tauto | intros [H | ->]; assumption].
  - rewrite in_app_iff. simpl. split; [intros [H | [<- | []]]; auto | intros [H | ->]; auto].
Qed.


Lemma fold_addNew_In (l acc : list string) (x : string) :
  In x (fold_left addNew l acc) <-> In x acc \/ In x l.
Proof.
  revert acc. induction l as [| s l IH]; intros acc; simpl; [tauto |].
  rewrite IH, addNew_In. split; [intros [[H | ->] | H]; auto | intros [H | [<- | H]]; auto].
Qed.


Lemma firstSeen_In (l : list string) (x : string) : In x (firstSeen l) <-> In x l.
Proof. unfold firstSeen. rewrite fold_addNew_In. simpl. tauto. Qed.




End Vote.

(** ** The vote on a key *)

Section VoteOnKey.
Import Consensus.









End VoteOnKey.

(** ** The merge of the AI's findings with the extracted ones *)

Section Merge.
Import AiController.




Lemma sameTest_withRange (f e : finding) (range : string) :
  sameTest (withRange f range) e = sameTest f e.
Proof. reflexivity. Qed.




Lemma mergeFindings_mergeAll (ai extracted : list finding) :
  mergeFindings ai extracted = mergeAll extracted ai.
Proof. destruct extracted; reflexivity. Qed.

(** The head of the list takes the extracted findings of its test; the
    others go to the rest of the list. *)
Lemma mergeAll_head (extracted : list finding) (g : finding) (rest : list finding) :
  mergeAll extracted (g :: rest)
  = patched extracted g :: mergeAll (filter (fun e => negb (sameTest g e)) extracted) rest.
Proof.
  revert g rest. induction extracted as [| e extracted IH]; intros g rest.
  - unfold patched. simpl. destruct (nonEmpty (referenceRange g)); reflexivity.
  - unfold mergeAll in *. cbn [fold_left mergeOne filter].
    destruct (sameTest g e) eqn:Hsame; cbn [negb].
    + rewrite IH. unfold patched at 2. cbn [find]. rewrite Hsame. cbn [andb].
      destruct (nonEmpty (referenceRange g)) eqn:Hrange.
      * rewrite andb_false_r. unfold patched. rewrite Hrange. reflexivity.
      * rewrite andb_true_r.
        destruct (nonEmpty (referenceRange e)) eqn:He.
        -- unfold patched. cbn [withRange referenceRange]. rewrite He. reflexivity.
        -- unfold patched. rewrite Hrange. reflexivity.
    + cbn [fold_left]. rewrite IH. f_equal.
      unfold patched. cbn [find]. rewrite Hsame. reflexivity.
Qed.



Lemma filter_length_le (A : Type) (f : A -> bool) (l : list A) :
  length (filter f l) <= length l.
Proof. induction l as [| x l IH]; simpl; [lia |]. destruct (f x); simpl; lia. Qed.












(** The extractor does give two findings of one test: on two rows of
    hemoglobin the second of its findings has the value 8.1, and the
    findings of the report have no such finding. *)
Example repeated_test_in_a_report :
  let text := ("Hemoglobin | 9.2 | Low" ++ newline ++ "Hemoglobin | 8.1 | Low")%string in
  map (fun f => (test f, value f)) (extractAbnormalFromText text)
  = [("Hemoglobin", "9.2"); ("Hemoglobin", "8.1"); ("Hemoglobin |", "9.2")]
  /\ map (fun f => (test f, value f)) (reportFindings [] text)
     = [("Hemoglobin", "9.2"); ("Hemoglobin |", "9.2")].
Proof. vm_compute. split; reflexivity. Qed.

(** Of two findings of the AI for one test, the first only takes the
    extracted range. *)
Example second_ai_finding_keeps_no_range :
  mergeFindings [sampleFinding "Hemoglobin" "9.2" EmptyString;
                 sampleFinding "Hemoglobin" "9.0" EmptyString]
    [sampleFinding "hemoglobin" "9.2" "12.0 - 15.5"]
  = [sampleFinding "Hemoglobin" "9.2" "12.0 - 15.5";
     sampleFinding "Hemoglobin" "9.0" EmptyString].
Proof. vm_compute. reflexivity. Qed.

End Merge.

(* ===================================================================== *)
(** * Further properties of the code *)
(* ===================================================================== *)

(** ** The registry *)

Section RegistryFacts.
Import AiProvider.

Lemma insertSorted_Permutation (A : Type) (cmp : A -> A -> Z) (x : A) (l : list A) :
  Permutation (x :: l) (insertSorted cmp x l).
Proof.
  induction l as [| y l IH]; simpl; [apply Permutation_refl |].
  destruct (cmp x y <=? 0)%Z; [apply Permutation_refl |].
  apply perm_trans with (y :: x :: l); [apply perm_swap |].
  apply perm_skip. exact IH.
Qed.

Lemma sort_Permutation (A : Type) (cmp : A -> A -> Z) (l : list A) :
  Permutation l (sort cmp l).
Proof.
  induction l as [| x l IH]; simpl; [apply perm_nil |].
  apply perm_trans with (x :: sort cmp l); [apply perm_skip; exact IH |].
  apply insertSorted_Permutation.
Qed.

Lemma reordering_keeps_the_providers_lemma (env : environment) (preferredOrder : list string) :
  Permutation (defaultProviders env) (getAvailableProviders env preferredOrder).
Proof.
  unfold getAvailableProviders, reorder.
  destruct preferredOrder as [| n rest]; [apply Permutation_refl |].
  apply sort_Permutation.
Qed.

(** A preferred order changes the order of the registry only: the list it
    gives has the providers of the default list, each as often; so it has
    the same length and the same members. *)
Theorem reordering_keeps_the_providers (env : environment) (preferredOrder : list string) :
  Permutation (getAvailableProviders env []) (getAvailableProviders env preferredOrder)
  /\ length (getAvailableProviders env preferredOrder)
     = length (getAvailableProviders env [])
  /\ (forall p, In p (getAvailableProviders env preferredOrder)
                <-> In p (getAvailableProviders env [])).
Proof.
  pose proof (reordering_keeps_the_providers_lemma env preferredOrder) as H.
  change (defaultProviders env) with (getAvailableProviders env []) in H.
  split; [exact H |]. split.
  - symmetry. apply Permutation_length. exact H.
  - intros p. split; intros Hp.
    + apply (Permutation_in p (Permutation_sym H)). exact Hp.
    + apply (Permutation_in p H). exact Hp.
Qed.

Lemma defaultProviders_nil (env : environment) :
  defaultProviders env = [] <-> noUsableKey env.
Proof.
  unfold defaultProviders, noUsableKey, getGeminiClient. split.
  - intros H. apply app_eq_nil in H. destruct H as [Hgemini H].
    apply app_eq_nil in H. destruct H as [Hgroq H].
    apply app_eq_nil in H. destruct H as [Hhf H].
    apply app_eq_nil in H. destruct H as [Hopenai Hperplexity].
    split; [| split; [| split; [| split]]].
    + destruct (configured env "GEMINI_API_KEY" "your_gemini_api_key_here") eqn:Hc;
        [right | left; reflexivity].
      unfold configured in Hc. apply andb_true_iff in Hc. destruct Hc as [Hset Hplace].
      rewrite Hset in Hgemini. apply negb_true_iff in Hplace. rewrite Hplace in Hgemini.
      cbn [negb orb] in Hgemini.
      destruct (nonEmpty (trim (env "GEMINI_API_KEY"))); [| reflexivity].
      cbn [negb] in Hgemini.
      destruct (startsWith (trim (env "GEMINI_API_KEY")) gatewayPrefix); discriminate.
    + destruct (configured env "GROQ_API_KEY" _); [discriminate | reflexivity].
    + destruct (configured env "HUGGINGFACE_API_KEY" _); [discriminate | reflexivity].
    + destruct (configured env "OPENAI_API_KEY" _); [discriminate | reflexivity].
    + destruct (configured env "PERPLEXITY_API_KEY" _) eqn:Hc; [| reflexivity].
      destruct (startsWith (env "PERPLEXITY_API_KEY") gatewayPrefix) eqn:Hgate;
        [| discriminate].
      unfold getOpenRouterClient in Hperplexity. cbv zeta in Hperplexity.
      unfold configured in Hc. apply andb_true_iff in Hc. destruct Hc as [Hset _].
      rewrite Hset, Hgate in Hperplexity. simpl in Hperplexity. discriminate.
  - intros (Hgemini & -> & -> & -> & ->). rewrite !app_nil_r.
    destruct Hgemini as [-> | Hblank]; [reflexivity |].
    rewrite Hblank. cbn [negb]. rewrite orb_true_r.
    destruct (configured env "GEMINI_API_KEY" _); reflexivity.
Qed.

(** The registry is empty exactly when no key is usable, and then
    [generateAIResponse] fails with the configuration error at once: no
    transport is called and the world is as before. *)
Theorem no_usable_key_no_call (env : environment) (preferredOrder : list string) :
  (getAvailableProviders env preferredOrder = [] <-> noUsableKey env)
  /\ (noUsableKey env ->
      forall (World : Type) (fetch : httpRequest -> M World httpResponse)
             (sdk : sdkRequest -> M World (option string))
             (messages : list message) (systemPrompt : string)
             (options : generateOptions) (w : World),
        generateAIResponse env fetch sdk messages systemPrompt options w
        = (Thrown noProvidersMessage, w)).
Proof.
  assert (Hnil : forall order, getAvailableProviders env order = [] <-> noUsableKey env).
  { intros order. rewrite <- defaultProviders_nil. unfold getAvailableProviders, reorder.
    destruct order as [| n rest]; [tauto |]. split.
    - intros H. pose proof (sort_Permutation (byRank (n :: rest)) (defaultProviders env)) as Hp.
      rewrite H in Hp. apply Permutation_nil. apply Permutation_sym. exact Hp.
    - intros ->. reflexivity. }
  split; [apply Hnil |].
  intros Hno World fetch sdk messages systemPrompt options w.
  unfold generateAIResponse.
  rewrite (proj2 (Hnil (preferredProviders options)) Hno). reflexivity.
Qed.

Lemma no_usable_key_no_call_witness :
  generateAIResponse unset (answering (okResponse (ChatAnswer (Some "text"))))
    (answering (Some "text")) [] EmptyString plainOptions 0
  = (Thrown noProvidersMessage, 0).
Proof.
  apply (proj2 (no_usable_key_no_call unset [])).
  vm_compute. repeat split; left; reflexivity.
Defined.

End RegistryFacts.

(** ** Transports: keys and endpoints *)

Section KeysAndEndpoints.
Import AiProvider.

Lemma keyless_values (env : environment) :
  keyless env ->
  env "GEMINI_API_KEY" = EmptyString /\ env "ANTHROPIC_API_KEY" = EmptyString
  /\ env "OPENROUTER_API_KEY" = EmptyString /\ env "PERPLEXITY_API_KEY" = EmptyString
  /\ env "GROQ_API_KEY" = EmptyString /\ env "HUGGINGFACE_API_KEY" = EmptyString
  /\ env "OPENAI_API_KEY" = EmptyString.
Proof.
  unfold keyless. intros H.
  repeat (match goal with
          | H : Forall _ (_ :: _) |- _ => inversion_clear H
          end).
  repeat split; assumption.
Qed.

(** Without a key in the environment no transport sends anything: the
    call of any provider throws and leaves the world as it was. *)
Theorem keyless_transports_send_nothing
    (World : Type) (env : environment)
    (fetch : httpRequest -> M World httpResponse)
    (sdk : sdkRequest -> M World (option string))
    (providerName : string) (messages : list message) (systemPrompt : string)
    (options : callOptions) (w : World) :
  keyless env ->
  exists message,
    callProvider env fetch sdk providerName messages systemPrompt options w
    = (Thrown message, w).
Proof.
  intros Hkeyless.
  destruct (keyless_values Hkeyless) as (Hg & Ha & Ho & Hp & Hq & Hh & Hi).
  unfold callProvider.
  destruct (String.eqb providerName GEMINI).
  { unfold callGemini, getGeminiClient. rewrite Hg. eexists. reflexivity. }
  destruct (String.eqb providerName OPENROUTER).
  { unfold callOpenRouter, openRouterKey. rewrite Hg, Ha, Ho, Hp. cbv zeta.
    destruct (includes _ "perplexity"); [eexists; reflexivity |].
    destruct (includes _ "anthropic" || includes _ "claude"); eexists; reflexivity. }
  destruct (String.eqb providerName GROQ).
  { unfold callGroq, getGroqClient. rewrite Hq. eexists. reflexivity. }
  destruct (String.eqb providerName HUGGINGFACE).
  { unfold callHuggingFace. rewrite Hh. eexists. reflexivity. }
  destruct (String.eqb providerName OPENAI).
  { unfold callOpenAI, getOpenAIClient. rewrite Hi. eexists. reflexivity. }
  destruct (String.eqb providerName PERPLEXITY).
  { unfold callPerplexity. rewrite Hp. eexists. reflexivity. }
  eexists. reflexivity.
Qed.

Lemma keyless_transports_send_nothing_witness :
  exists message,
    callProvider unset (answering (okResponse (ChatAnswer (Some "text"))))
      (answering (Some "text")) GROQ [] EmptyString sampleOptions 0
    = (Thrown message, 0).
Proof.
  apply keyless_transports_send_nothing.
  unfold keyless. repeat constructor.
Defined.

Section Quiet.
Variables World Logged : Type.



End Quiet.

Section Loops.
Variables World Logged : Type.
Variable P : Logged -> Prop.
Variable env : environment.











End Loops.


End KeysAndEndpoints.

(** ** The consensus: what the answer holds *)

Section ConsensusFacts.
Import Consensus.


Lemma existsb_rev (A : Type) (f : A -> bool) (l : list A) :
  existsb f (rev l) = existsb f l.
Proof.
  induction l as [| x l IH]; simpl; [reflexivity |].
  rewrite existsb_app, IH. simpl. rewrite orb_false_r. apply orb_comm.
Qed.

Lemma uniqueItems_firstSeen (seen : list string) (items : list json) :
  fold_left addNew (map itemStr items) (rev seen)
  = rev seen ++ map itemStr (uniqueItems seen items).
Proof.
  revert seen. induction items as [| item rest IH]; intros seen; simpl.
  - symmetry. apply app_nil_r.
  - unfold addNew at 2. rewrite existsb_rev.
    destruct (existsb (String.eqb (itemStr item)) seen); [apply IH |].
    change (rev seen ++ [itemStr item]) with (rev (itemStr item :: seen)).
    rewrite IH. simpl. rewrite <- app_assoc. reflexivity.
Qed.

Lemma firstSeen_NoDup_from (l acc : list string) :
  NoDup acc -> NoDup (fold_left addNew l acc).
Proof.
  revert acc. induction l as [| s l IH]; intros acc Hacc; simpl; [exact Hacc |].
  apply IH. unfold addNew. destruct (existsb (String.eqb s) acc) eqn:Hex; [exact Hacc |].
  apply (Permutation_NoDup (Permutation_cons_append acc s)). constructor; [| exact Hacc].
  intros Hin.
  assert (Htrue : existsb (String.eqb s) acc = true).
  { apply existsb_exists. exists s. split; [exact Hin | apply String.eqb_refl]. }
  congruence.
Qed.

Lemma uniqueItems_first (seen : list string) (items : list json) (i : json) :
  In i (uniqueItems seen items) ->
  find (fun x => String.eqb (itemStr x) (itemStr i)) items = Some i.
Proof.
  revert seen. induction items as [| item rest IH]; intros seen; simpl; [intros [] |].
  destruct (existsb (String.eqb (itemStr item)) seen) eqn:Hseen.
  - intros Hin. destruct (String.eqb_spec (itemStr item) (itemStr i)) as [Heq | _];
      [| exact (IH _ Hin)].
    exfalso. clear IH. revert seen Hseen Hin.
    induction rest as [| y rest IHrest]; intros seen Hseen; simpl; [intros [] |].
    destruct (existsb (String.eqb (itemStr y)) seen) eqn:Hy; [apply IHrest; exact Hseen |].
    intros [<- | Hin]; [rewrite <- Heq in Hy; congruence |].
    apply (IHrest (itemStr y :: seen)); [simpl; rewrite Hseen; apply orb_true_r | exact Hin].
  - intros [<- | Hin]; [rewrite String.eqb_refl; reflexivity |].
    destruct (String.eqb_spec (itemStr item) (itemStr i)) as [Heq | _];
      [| exact (IH _ Hin)].
    exfalso. clear IH.
    assert (Hin' : existsb (String.eqb (itemStr i)) (itemStr item :: seen) = true).
    { simpl. rewrite Heq, String.eqb_refl. reflexivity. }
    revert Hin Hin'. generalize (itemStr item :: seen). clear.
    induction rest as [| y rest IHrest]; intros seen; simpl; [intros [] |].
    destruct (existsb (String.eqb (itemStr y)) seen) eqn:Hy; [apply IHrest |].
    intros [<- | Hin] Hseen; [congruence |].
    apply (IHrest (itemStr y :: seen) Hin). simpl. rewrite Hseen. apply orb_true_r.
Qed.

(** An array in the merged object is the union of the arrays that the
    responses give for its key: every item of theirs is in it under its
    text (a string as it is, another value serialised), no two of its items
    have the same text, each is the first item met with its text, and they
    stand in the order in which the texts are first met. *)
Theorem merged_array_is_the_union
    (names : list string) (parsed : list json) (key : string) (items : list json) :
  get key (mergeParsed names parsed) = Some (JArr items) ->
  items = uniqueItems [] (allItems parsed key)
  /\ NoDup (map itemStr items)
  /\ map itemStr items = firstSeen (map itemStr (allItems parsed key))
  /\ (forall x, In x (allItems parsed key) -> In (itemStr x) (map itemStr items))
  /\ (forall i, In i items ->
        find (fun x => String.eqb (itemStr x) (itemStr i)) (allItems parsed key) = Some i).
Proof.
  intros Hget. unfold mergeParsed in Hget. rewrite mergeArrays_get in Hget.
  destruct (get key (selectValues parsed (countVotes names parsed))) as [v |];
    [| discriminate].
  assert (Hitems : items = uniqueItems [] (allItems parsed key)).
  { destruct (isArray v) eqn:Harray; [congruence |].
    injection Hget as ->. discriminate. }
  assert (Horder : map itemStr items = firstSeen (map itemStr (allItems parsed key))).
  { rewrite Hitems. unfold firstSeen.
    exact (eq_sym (uniqueItems_firstSeen [] (allItems parsed key))). }
  split; [exact Hitems |]. split; [| split; [exact Horder | split]].
  - rewrite Horder. apply firstSeen_NoDup_from. constructor.
  - intros x Hx. rewrite Horder. apply firstSeen_In. apply in_map. exact Hx.
  - intros i Hi. rewrite Hitems in Hi. exact (uniqueItems_first _ _ _ Hi).
Qed.

Lemma merged_array_is_the_union_witness :
  map itemStr [JNum "1"; JNum "2"; JNum "3"]
  = firstSeen (map itemStr (allItems [itemsOf ["1"; "2"]; itemsOf ["2"; "3"]] "a")).
Proof.
  apply (merged_array_is_the_union ["openrouter"; "groq"]
           [itemsOf ["1"; "2"]; itemsOf ["2"; "3"]] "a").
  vm_compute. reflexivity.
Defined.

(** The merged object holds no value of its own making: a value that is
    not an array is the value that one of the parsed responses has for the
    key. *)
Theorem merged_value_is_a_response_value
    (names : list string) (parsed : list json) (key : string) (v : json) :
  get key (mergeParsed names parsed) = Some v ->
  isArray v = false ->
  exists p, In p parsed /\ getProp p key = Some v.
Proof.
  intros Hget Hplain. unfold mergeParsed in Hget.
  rewrite mergeArrays_get, selectValues_get in Hget.
  destruct (get key (countVotes names parsed)) as [byValue |] eqn:Hvotes; [| discriminate].
  destruct (decide parsed key byValue) as [v0 |] eqn:Hdecide; [| discriminate].
  assert (Hv : v0 = v).
  { destruct (isArray v0); [injection Hget as <-; discriminate | congruence]. }
  subst v0. clear Hget. unfold decide, rankedVotes in Hdecide.
  destruct (sort byCountDesc (values byValue)) as [| top others] eqn:Hsort; [discriminate |].
  destruct ((2 <=? count top) || (length parsed =? 1)).
  - injection Hdecide as <-.
    destruct (rankedVotes_top _ Hsort) as (before & after & Hsplit & _ & _).
    assert (Hin : In top (values byValue)).
    { rewrite Hsplit. apply in_or_app. right. left. reflexivity. }
    destruct (@vote_entry _ _ _ _ _ (countVotes_tallied names parsed) Hvotes Hin)
      as (_ & _ & Hfirst).
    rewrite firstB_firstValue in Hfirst. unfold firstValue in Hfirst.
    destruct (find (votesFor key (stringify (value top))) parsed) as [p |] eqn:Hfind;
      [| discriminate].
    apply find_some in Hfind. exists p. split; [tauto |].
    unfold getProp. unfold ownValue in Hfirst. rewrite Hfirst. reflexivity.
  - destruct parsed as [| p rest]; [discriminate |].
    exists p. split; [left; reflexivity | exact Hdecide].
Qed.

Lemma merged_value_is_a_response_value_witness :
  exists p,
    In p [severityOnly "high"; severityOnly "high"; severityOnly "low"]
    /\ getProp p "severity" = Some (JStr "high").
Proof.
  apply (merged_value_is_a_response_value ["openrouter"; "groq"; "openai"]
           [severityOnly "high"; severityOnly "high"; severityOnly "low"] "severity");
    vm_compute; reflexivity.
Defined.

End ConsensusFacts.

(** ** Reading the object out of an answer *)

Section ObjectInProse.

Lemma chars_append (a b : string) : chars (a ++ b) = chars a ++ chars b.
Proof. induction a as [| c a IH]; simpl; [reflexivity | f_equal; exact IH]. Qed.

Lemma str_app (a b : list ascii) : str (a ++ b) = (str a ++ str b)%string.
Proof. induction a as [| c a IH]; simpl; [reflexivity | f_equal; exact IH]. Qed.

(** The first occurrence of a character that the text before it lacks. *)
Lemma indexOfList_first (c : ascii) (pre rest : list ascii) (i : nat) :
  indexOfList [c] pre i = None ->
  indexOfList [c] (pre ++ c :: rest) i = Some (i + length pre).
Proof.
  revert i. induction pre as [| x pre IH]; intros i; simpl.
  - intros _. rewrite Ascii.eqb_refl. simpl. f_equal. lia.
  - destruct (Ascii.eqb c x); simpl; [discriminate |].
    intros H. rewrite (IH _ H). f_equal. lia.
Qed.

Lemma lastIndexOfList_none (c : ascii) (l : list ascii) (i j : nat) :
  lastIndexOfList [c] l i = None -> lastIndexOfList [c] l j = None.
Proof.
  revert i j. induction l as [| x l IH]; intros i j; simpl; [reflexivity |].
  destruct (lastIndexOfList [c] l (S i)) eqn:Hrest; [discriminate |].
  rewrite (IH _ (S j) Hrest). destruct (Ascii.eqb c x); simpl; [discriminate | reflexivity].
Qed.

(** The last occurrence of a character that the text after it lacks. *)
Lemma lastIndexOfList_last (c : ascii) (pre post : list ascii) (i : nat) :
  lastIndexOfList [c] post 0 = None ->
  lastIndexOfList [c] (pre ++ c :: post) i = Some (i + length pre).
Proof.
  intros Hpost. revert i. induction pre as [| x pre IH]; intros i; simpl.
  - rewrite (lastIndexOfList_none _ _ _ (S i) Hpost). rewrite Ascii.eqb_refl. simpl.
    f_equal. lia.
  - rewrite IH. f_equal. lia.
Qed.

Lemma slice_middle (pre mid post : list ascii) :
  slice (str (pre ++ mid ++ post)) (length pre) (length pre + length mid) = str mid.
Proof.
  unfold slice. rewrite chars_str.
  replace (length pre + length mid - length pre) with (length mid) by lia.
  rewrite skipn_app, skipn_all, Nat.sub_diag. simpl.
  rewrite firstn_app, firstn_all, Nat.sub_diag. simpl. rewrite app_nil_r. reflexivity.
Qed.

(** The text between the first opening and the last closing brace. *)
Lemma braces_slice (pre mid post : string) :
  indexOf pre "{" = None -> lastIndexOf post "}" = None ->
  let text := (pre ++ "{" ++ mid ++ "}" ++ post)%string in
  exists start stop,
    indexOf text "{" = Some start /\ lastIndexOf text "}" = Some stop
    /\ slice text start (stop + 1) = ("{" ++ mid ++ "}")%string.
Proof.
  intros Hpre Hpost text.
  exists (String.length pre), (String.length pre + S (String.length mid)).
  assert (Hlen : forall s, String.length s = length (chars s)).
  { induction s as [| c s IH]; simpl; [reflexivity | f_equal; exact IH]. }
  assert (Htext : chars text = chars pre ++ "{"%char :: chars mid ++ "}"%char :: chars post).
  { unfold text. rewrite chars_append. simpl. rewrite chars_append. reflexivity. }
  split; [| split].
  - unfold indexOf. rewrite Htext. simpl (chars "{").
    rewrite (indexOfList_first _ _ _ 0 Hpre), Hlen. reflexivity.
  - unfold lastIndexOf. rewrite Htext. simpl (chars "}").
    replace (chars pre ++ "{"%char :: chars mid ++ "}"%char :: chars post)
      with ((chars pre ++ "{"%char :: chars mid) ++ "}"%char :: chars post)
      by (rewrite <- app_assoc; reflexivity).
    rewrite (lastIndexOfList_last _ _ _ 0 Hpost), length_app, !Hlen. reflexivity.
  - rewrite <- (str_chars text), Htext, !Hlen.
    replace (chars pre ++ "{"%char :: chars mid ++ "}"%char :: chars post)
      with (chars pre ++ ("{"%char :: chars mid ++ ["}"%char]) ++ chars post)
      by (simpl; rewrite <- app_assoc; reflexivity).
    replace (length (chars pre) + S (length (chars mid)) + 1)
      with (length (chars pre) + length ("{"%char :: chars mid ++ ["}"%char]))
      by (simpl; rewrite length_app; simpl; lia).
    rewrite slice_middle. simpl. rewrite str_app, str_chars. reflexivity.
Qed.

(** Text around the object does not matter.  Of an answer that holds one
    opening brace after a text without one, and a last closing brace before
    a text without one, the consensus parses the part from brace to brace,
    whatever stands around it; [safeJsonParse] gives the parse of the whole
    answer when there is one, and otherwise that of the same part, or
    [null]. *)
Theorem object_is_read_out_of_prose
    (JSON_parse : string -> option json) (pre mid post : string) :
  indexOf pre "{" = None -> lastIndexOf post "}" = None ->
  let text := (pre ++ "{" ++ mid ++ "}" ++ post)%string in
  Consensus.parseContent JSON_parse text = JSON_parse ("{" ++ mid ++ "}")%string
  /\ Report.safeJsonParse JSON_parse text
     = match JSON_parse text with
       | Some v => v
       | None => match JSON_parse ("{" ++ mid ++ "}")%string with
                 | Some v => v
                 | None => JNull
                 end
       end.
Proof.
  intros Hpre Hpost text.
  destruct (braces_slice pre mid post Hpre Hpost) as (start & stop & Hstart & Hstop & Hslice).
  fold text in Hstart, Hstop, Hslice.
  unfold Consensus.parseContent, Report.safeJsonParse.
  rewrite Hstart, Hstop, Hslice. split; reflexivity.
Qed.

Lemma object_is_read_out_of_prose_witness :
  let text := ("Here is the result: " ++ "{" ++ EmptyString ++ "}" ++ " I hope it helps.")%string in
  Consensus.parseContent (parserOf [JObj []]) text = Some (JObj [])
  /\ Report.safeJsonParse (parserOf [JObj []]) text = JObj [].
Proof.
  apply (object_is_read_out_of_prose (parserOf [JObj []])
           "Here is the result: " EmptyString " I hope it helps."); vm_compute; reflexivity.
Defined.

End ObjectInProse.

(** ** The merge: tests stay apart, and a second merge changes nothing *)

Section MergeFacts.
Import AiController.

Lemma mergeOne_apart (x e : finding) (rest : list finding) :
  differentTests x e ->
  Forall (differentTests x) rest ->
  Forall (differentTests x) (mergeOne e rest).
Proof.
  intros Hxe. induction rest as [| y rest IH]; intros Hrest; simpl.
  - constructor; [exact Hxe | constructor].
  - inversion Hrest as [| ? ? Hy Hrest']; subst.
    destruct (sameTest y e).
    + constructor; [| exact Hrest'].
      destruct (nonEmpty (referenceRange e) && negb (nonEmpty (referenceRange y)));
        exact Hy.
    + constructor; [exact Hy | apply IH; exact Hrest'].
Qed.

Lemma mergeOne_oneFindingPerTest (e : finding) (findings : list finding) :
  oneFindingPerTest findings -> oneFindingPerTest (mergeOne e findings).
Proof.
  unfold oneFindingPerTest.
  induction findings as [| x rest IH]; intros H; simpl.
  - constructor; [constructor | constructor].
  - inversion H as [| ? ? Hx Hrest]; subst.
    destruct (sameTest x e) eqn:Hsame.
    + constructor; [| exact Hrest].
      destruct (nonEmpty (referenceRange e) && negb (nonEmpty (referenceRange x)));
        exact Hx.
    + constructor; [apply mergeOne_apart; assumption | apply IH; exact Hrest].
Qed.

(** The merge brings in no second finding of a test: when no two of the
    AI's findings are of the same test, no two findings of the merged list
    are, whatever the extractor found. *)
Theorem merge_keeps_one_finding_per_test (ai extracted : list finding) :
  oneFindingPerTest ai -> oneFindingPerTest (mergeFindings ai extracted).
Proof.
  rewrite mergeFindings_mergeAll. unfold mergeAll.
  revert ai. induction extracted as [| e rest IH]; intros ai H; simpl; [exact H |].
  apply IH. apply mergeOne_oneFindingPerTest. exact H.
Qed.

Lemma merge_keeps_one_finding_per_test_witness :
  oneFindingPerTest
    (mergeFindings [sampleFinding "Hemoglobin" "9.2" EmptyString]
       [sampleFinding "hemoglobin" "9.2" "12.0 - 15.5"; sampleFinding "WBC" "15" "4 - 11";
        sampleFinding "wbc " "15.2" EmptyString]).
Proof.
  apply merge_keeps_one_finding_per_test.
  constructor; [constructor | constructor].
Defined.

Lemma patched_again (extracted : list finding) (f : finding) :
  patched extracted (patched extracted f) = patched extracted f.
Proof.
  assert (Hfixed : forall g, nonEmpty (referenceRange g) = true -> patched extracted g = g).
  { intros g Hg. unfold patched. rewrite Hg. reflexivity. }
  destruct (nonEmpty (referenceRange f)) eqn:Hrange.
  - rewrite (Hfixed f Hrange). apply Hfixed. exact Hrange.
  - assert (Hcases : (exists e, nonEmpty (referenceRange e) = true
                                /\ patched extracted f = withRange f (referenceRange e))
                     \/ (find (fun e => sameTest f e && nonEmpty (referenceRange e)) extracted
                         = None /\ patched extracted f = f)).
    { unfold patched. rewrite Hrange.
      destruct (find (fun e => sameTest f e && nonEmpty (referenceRange e)) extracted)
        as [e |] eqn:Hfind.
      - left. exists e. apply find_some in Hfind. destruct Hfind as [_ Hwanted].
        apply andb_true_iff in Hwanted. split; [tauto | reflexivity].
      - right. split; reflexivity. }
    destruct Hcases as [(e & He & ->) | (Hnone & ->)].
    + apply Hfixed. exact He.
    + unfold patched. rewrite Hrange, Hnone. reflexivity.
Qed.

Lemma sameTest_patched (extracted : list finding) (f e : finding) :
  sameTest (patched extracted f) e = sameTest f e.
Proof.
  unfold patched. destruct (nonEmpty (referenceRange f)); [reflexivity |].
  destruct (find _ extracted); reflexivity.
Qed.

Lemma sameTest_refl (f : finding) : nonEmpty (test f) = true -> sameTest f f = true.
Proof. intros H. unfold sameTest. rewrite H, String.eqb_refl. reflexivity. Qed.

Lemma mergeAll_again (n : nat) :
  forall (extracted merged : list finding),
    length extracted + length merged <= n ->
    (forall e, In e extracted -> nonEmpty (test e) = true) ->
    mergeAll extracted (mergeAll extracted merged) = mergeAll extracted merged.
Proof.
  induction n as [| n IH]; intros extracted merged Hn Hnamed.
  - destruct extracted; [reflexivity | simpl in Hn; lia].
  - destruct merged as [| g rest].
    + destruct extracted as [| x t]; [reflexivity |].
      change (mergeAll (x :: t) []) with (mergeAll t [x]).
      rewrite mergeAll_head.
      set (t' := filter (fun e => negb (sameTest x e)) t).
      change (mergeAll (x :: t) (patched t x :: mergeAll t' []))
        with (mergeAll t (mergeOne x (patched t x :: mergeAll t' []))).
      assert (Hhead : mergeOne x (patched t x :: mergeAll t' [])
                      = patched t x :: mergeAll t' []).
      { cbn [mergeOne]. rewrite sameTest_patched.
        rewrite (sameTest_refl x (Hnamed x (or_introl eq_refl))).
        unfold patched at 1 2.
        destruct (nonEmpty (referenceRange x)) eqn:Hx.
        - rewrite Hx. reflexivity.
        - reflexivity. }
      rewrite Hhead, mergeAll_head, patched_again. f_equal.
      assert (Hfilter : filter (fun e => negb (sameTest (patched t x) e)) t = t').
      { unfold t'. apply filter_ext. intros e. rewrite sameTest_patched. reflexivity. }
      rewrite Hfilter. apply IH.
      * pose proof (filter_length_le (fun e => negb (sameTest x e)) t) as Hle.
        fold t' in Hle. simpl in Hn. simpl. lia.
      * intros e He. apply Hnamed. right. unfold t' in He. apply filter_In in He. tauto.
    + rewrite mergeAll_head.
      set (extracted' := filter (fun e => negb (sameTest g e)) extracted).
      rewrite mergeAll_head, patched_again. f_equal.
      assert (Hfilter : filter (fun e => negb (sameTest (patched extracted g) e)) extracted
                        = extracted').
      { unfold extracted'. apply filter_ext. intros e. rewrite sameTest_patched. reflexivity. }
      rewrite Hfilter. apply IH.
      * pose proof (filter_length_le (fun e => negb (sameTest g e)) extracted) as Hle.
        fold extracted' in Hle. simpl in Hn. lia.
      * intros e He. apply Hnamed. unfold extracted' in He. apply filter_In in He. tauto.
Qed.

(** To merge the same extracted findings a second time changes nothing,
    provided each of them has a test name; so it is for the findings of a
    report and the findings extracted from its text. *)
Theorem merging_again_changes_nothing :
  (forall ai extracted : list finding,
      (forall e, In e extracted -> nonEmpty (test e) = true) ->
      mergeFindings (mergeFindings ai extracted) extracted = mergeFindings ai extracted)
  /\ (forall (abnormal_values : list abnormalValue) (parsedText : string),
         mergeFindings (reportFindings abnormal_values parsedText)
                       (extractAbnormalFromText parsedText)
         = reportFindings abnormal_values parsedText).
Proof.
  assert (Hgeneral : forall ai extracted : list finding,
             (forall e, In e extracted -> nonEmpty (test e) = true) ->
             mergeFindings (mergeFindings ai extracted) extracted
             = mergeFindings ai extracted).
  { intros ai extracted Hnamed. rewrite !mergeFindings_mergeAll.
    apply (mergeAll_again (n := length extracted + length ai)); [lia | exact Hnamed]. }
  split; [exact Hgeneral |].
  intros abnormal_values parsedText. unfold reportFindings. apply Hgeneral.
  intros e He.
  exact (proj1 (proj1 (Forall_forall _ _) (extractAbnormalFromText_named parsedText) e He)).
Qed.

Lemma merging_again_changes_nothing_witness :
  mergeFindings
    (mergeFindings [sampleFinding "Hemoglobin" "9.2" EmptyString]
       [sampleFinding "hemoglobin" "9.2" "12.0 - 15.5"; sampleFinding "WBC" "15" "4 - 11"])
    [sampleFinding "hemoglobin" "9.2" "12.0 - 15.5"; sampleFinding "WBC" "15" "4 - 11"]
  = mergeFindings [sampleFinding "Hemoglobin" "9.2" EmptyString]
      [sampleFinding "hemoglobin" "9.2" "12.0 - 15.5"; sampleFinding "WBC" "15" "4 - 11"].
Proof.
  apply (proj1 merging_again_changes_nothing).
  intros e [<- | [<- | []]]; reflexivity.
Defined.

End MergeFacts.

(** ** The consensus service *)

Section ServiceFacts.
Import Consensus ConsensusService.

Lemma sort_byPriority_sorted (l : list response) :
  StronglySorted (fun a b => priority a < priority b) l -> sort byPriority l = l.
Proof.
  induction 1 as [| x l Hsorted IH Hx]; simpl; [reflexivity |].
  rewrite IH. destruct l as [| y l]; [reflexivity |]. simpl.
  inversion Hx as [| ? ? Hxy _]; subst. unfold byPriority.
  destruct (Z.leb_spec (Z.of_nat (priority x) - Z.of_nat (priority y)) 0);
    [reflexivity | lia].
Qed.

Lemma providersToAsk_sorted (env : AiProvider.environment) :
  StronglySorted (fun p q => a_priority p < a_priority q) (providersToAsk env).
Proof.
  unfold providersToAsk. cbv zeta.
  destruct (nonEmpty (env "GEMINI_API_KEY") && _);
    [destruct (startsWith (env "GEMINI_API_KEY") AiProvider.gatewayPrefix) |];
    destruct (nonEmpty _ && _ && _);
    destruct (nonEmpty (env "GROQ_API_KEY") && _);
    destruct (nonEmpty (env "OPENAI_API_KEY") && _);
    simpl; repeat constructor; simpl; lia.
Qed.

Lemma answers_sorted (outcomeOf : askedProvider -> outcome AiProvider.aiResponse)
    (providers : list askedProvider) :
  StronglySorted (fun p q => a_priority p < a_priority q) providers ->
  StronglySorted (fun a b => priority a < priority b)
    (flat_map (fun p => match settled p (outcomeOf p) with Some r => [r] | None => [] end)
              providers).
Proof.
  induction 1 as [| p providers Hsorted IH Hp]; simpl; [constructor |].
  destruct (outcomeOf p) as [result | err]; simpl; [| exact IH].
  constructor; [exact IH |].
  apply Forall_forall. intros r Hr. apply in_flat_map in Hr.
  destruct Hr as (q & Hq & Hr).
  destruct (outcomeOf q) as [result' | err]; simpl in Hr; [| contradiction].
  destruct Hr as [<- | []]. simpl.
  exact (proj1 (Forall_forall _ _) Hp q Hq).
Qed.

Lemma getMultiProviderResponses_answers (env : AiProvider.environment)
    (outcomeOf : askedProvider -> outcome AiProvider.aiResponse) :
  providersToAsk env <> [] ->
  getMultiProviderResponses env outcomeOf = inr (answersInOrder env outcomeOf).
Proof.
  intros Hasked. unfold getMultiProviderResponses.
  destruct (providersToAsk env) as [| p ps] eqn:Hproviders; [congruence |].
  f_equal. unfold successfulResponses.
  assert (Hsame : flat_map (fun r : option response =>
                              match r with Some x => [x] | None => [] end)
                           (map (fun p => settled p (outcomeOf p)) (p :: ps))
                  = answersInOrder env outcomeOf).
  { unfold answersInOrder. rewrite Hproviders.
    generalize (p :: ps). intros l. induction l as [| q l IH]; simpl; [reflexivity |].
    rewrite IH. reflexivity. }
  rewrite Hsame. apply sort_byPriority_sorted.
  apply answers_sorted. apply providersToAsk_sorted.
Qed.

(** The responses that the synthesis receives are those of the providers
    that answered, in the order in which the providers are asked; their
    priorities increase strictly, so that the sort by priority changes
    nothing; and each carries the name and the model of the provider asked
    and the content that the call for it returned. *)
Theorem responses_come_in_priority_order
    (env : AiProvider.environment)
    (outcomeOf : askedProvider -> outcome AiProvider.aiResponse) :
  getMultiProviderResponses env outcomeOf
  = match providersToAsk env with
    | [] => inl "No AI providers configured"
    | _ :: _ => inr (answersInOrder env outcomeOf)
    end
  /\ StronglySorted (fun a b => priority a < priority b) (answersInOrder env outcomeOf)
  /\ (forall r, In r (answersInOrder env outcomeOf) ->
        exists p result,
          In p (providersToAsk env) /\ outcomeOf p = Returned result
          /\ provider r = a_name p /\ model r = a_model p
          /\ priority r = a_priority p /\ content r = AiProvider.r_content result).
Proof.
  assert (Hsorted : StronglySorted (fun a b => priority a < priority b)
                      (answersInOrder env outcomeOf)).
  { apply answers_sorted. apply providersToAsk_sorted. }
  split; [| split; [exact Hsorted |]].
  - destruct (providersToAsk env) as [| p ps] eqn:Hproviders.
    + unfold getMultiProviderResponses. rewrite Hproviders. reflexivity.
    + apply getMultiProviderResponses_answers. rewrite Hproviders. discriminate.
  - intros r Hr. unfold answersInOrder in Hr. apply in_flat_map in Hr.
    destruct Hr as (p & Hp & Hr).
    destruct (outcomeOf p) as [result | err] eqn:Houtcome; simpl in Hr; [| contradiction].
    destruct Hr as [<- | []]. exists p, result.
    split; [exact Hp |]. split; [exact Houtcome |]. repeat split.
Qed.




(** A provider that is asked but not known.  When the only usable key is a
    gateway key in [ANTHROPIC_API_KEY] (or [OPENROUTER_API_KEY]), the
    consensus asks the gateway for Claude, but the registry lists no
    provider: every call for a provider ends before any request is sent,
    and [getConsensusResponse] fails as insufficient whenever
    [minProviders] is not 0. *)
Theorem claude_is_asked_but_not_registered
    (JSON_parse : string -> option json) (env : AiProvider.environment)
    (World : Type)
    (fetch : AiProvider.httpRequest -> M World AiProvider.httpResponse)
    (sdk : AiProvider.sdkRequest -> M World (option string))
    (messages : list AiProvider.message) (systemPrompt : string)
    (options : consensusOptions) (w : World) :
  noUsableKey env -> gatewayKeyForClaude env ->
  In {| a_name := AiProvider.OPENROUTER; a_model := "anthropic/claude-3.5-sonnet";
        a_priority := 2; a_apiKey := "ANTHROPIC_API_KEY" |} (providersToAsk env)
  /\ (forall p, ask env fetch sdk messages systemPrompt options p w = (Returned None, w))
  /\ (0 < neededOf options ->
      getConsensusResponse JSON_parse env
        (fun p => fst (AiProvider.generateAIResponse env fetch sdk messages systemPrompt
                         (optionsOf options p) w))
        options
      = inl (insufficient 0 (neededOf options))).
Proof.
  intros Hno (Hset & Hplace & Hgate).
  assert (Hcall : forall opts,
             AiProvider.generateAIResponse env fetch sdk messages systemPrompt opts w
             = (Thrown AiProvider.noProvidersMessage, w)).
  { intros opts. unfold AiProvider.generateAIResponse.
    assert (Hnone : AiProvider.getAvailableProviders env (AiProvider.preferredProviders opts)
                    = []).
    { unfold AiProvider.getAvailableProviders.
      rewrite (proj2 (defaultProviders_nil env) Hno).
      unfold AiProvider.reorder. destruct (AiProvider.preferredProviders opts); reflexivity. }
    rewrite Hnone. reflexivity. }
  assert (Hasked : In {| a_name := AiProvider.OPENROUTER;
                         a_model := "anthropic/claude-3.5-sonnet";
                         a_priority := 2; a_apiKey := "ANTHROPIC_API_KEY" |}
                      (providersToAsk env)).
  { unfold providersToAsk. cbv zeta. rewrite Hset, Hgate.
    destruct (String.eqb_spec
                (AiProvider.orElse (env "ANTHROPIC_API_KEY") (env "OPENROUTER_API_KEY"))
                "your_anthropic_api_key_here") as [E | _]; [contradiction |].
    apply in_or_app. right. apply in_or_app. left. left. reflexivity. }
  split; [exact Hasked |]. split.
  - intros p. unfold ask, tryCatch, bind. rewrite Hcall. reflexivity.
  - intros Hneeded.
    assert (Hsome : providersToAsk env <> []).
    { intros E. rewrite E in Hasked. contradiction. }
    unfold getConsensusResponse.
    rewrite (getMultiProviderResponses_answers env _ Hsome).
    assert (Hanswers : answersInOrder env
                         (fun p => fst (AiProvider.generateAIResponse env fetch sdk messages
                                          systemPrompt (optionsOf options p) w)) = []).
    { unfold answersInOrder. generalize (providersToAsk env). intros l.
      induction l as [| p ps IH]; [reflexivity |].
      simpl. rewrite Hcall. simpl. exact IH. }
    rewrite Hanswers. fold (neededOf options).
    destruct (Nat.ltb_spec (length (@nil response)) (neededOf options)) as [_ | Hle];
      [reflexivity | simpl in Hle; lia].
Qed.

Lemma claude_is_asked_but_not_registered_witness :
  let env := envOf [("ANTHROPIC_API_KEY", "sk-or-v1-live")] in
  let fetch := answering (okResponse (AiProvider.ChatAnswer (Some "text"))) in
  let sdk := answering (Some "text") in
  let options := {| sectionType := None; minProviders := None;
                    o_temperature := None; o_maxTokens := None |} in
  getConsensusResponse (parserOf []) env
    (fun p => fst (AiProvider.generateAIResponse env fetch sdk [] EmptyString
                     (optionsOf options p) 0))
    options
  = inl (insufficient 0 1).
Proof.
  intros env fetch sdk options.
  destruct (@claude_is_asked_but_not_registered (parserOf []) env nat fetch sdk
              [] EmptyString options 0) as (_ & _ & H).
  - vm_compute. repeat split; left; reflexivity.
  - vm_compute. repeat split. discriminate.
  - apply H. vm_compute. lia.
Defined.

End ServiceFacts.

(** ** The enrichment of the reference ranges *)

Section EnrichmentFacts.
Import AiController Report.

Lemma withoutRange_withRange (f : finding) (range : string) :
  withoutRange (withRange f range) = withoutRange f.
Proof. reflexivity. Qed.

Lemma withRange_same (f : finding) : withRange f (referenceRange f) = f.
Proof. destruct f; reflexivity. Qed.

Lemma withoutRange_takeEnriched (enriched : list finding) (f : finding) :
  withoutRange (takeEnriched enriched f) = withoutRange f.
Proof.
  unfold takeEnriched. destruct (find _ enriched) as [e |]; [| reflexivity].
  destruct (nonEmpty (referenceRange e) && _); reflexivity.
Qed.

Lemma test_enrichOne (ranges : list rangeEntry) (f : finding) :
  test (enrichOne ranges f) = test f.
Proof.
  unfold enrichOne. destruct (find _ ranges) as [m |]; [| reflexivity].
  destruct (nonEmpty (rr_reference_range m) && _); reflexivity.
Qed.

Lemma find_map (A B : Type) (P : B -> bool) (h : A -> B) (l : list A) :
  find P (map h l) = option_map h (find (fun x => P (h x)) l).
Proof.
  induction l as [| x l IH]; simpl; [reflexivity |].
  destruct (P (h x)); [reflexivity | exact IH].
Qed.

Lemma find_test_absent (q : finding -> bool) (l : list finding) (name : string) :
  ~ In name (map test l) ->
  find (fun x => String.eqb (test x) name) (filter q l) = None.
Proof.
  induction l as [| x l IH]; simpl; [reflexivity |].
  intros Hnotin.
  assert (Hx : String.eqb (test x) name = false).
  { apply String.eqb_neq. intros E. apply Hnotin. left. exact E. }
  destruct (q x); simpl; [rewrite Hx |]; apply IH; intros Hin; apply Hnotin; right; exact Hin.
Qed.

(** Among findings of pairwise different test names, the finding of the
    name of [f] among those that satisfy [q] is [f] itself, or none. *)
Lemma find_own_test (q : finding -> bool) (l : list finding) (f : finding) :
  NoDup (map test l) -> In f l ->
  find (fun x => String.eqb (test x) (test f)) (filter q l)
  = if q f then Some f else None.
Proof.
  induction l as [| x l IH]; simpl; [intros _ [] |].
  intros Hnodup Hin. inversion Hnodup as [| ? ? Hnotin Hrest]; subst.
  destruct Hin as [-> | Hin].
  - destruct (q f); simpl.
    + rewrite String.eqb_refl. reflexivity.
    + apply find_test_absent. exact Hnotin.
  - assert (Hx : String.eqb (test x) (test f) = false).
    { apply String.eqb_neq. intros E. apply Hnotin. rewrite E. apply in_map. exact Hin. }
    destruct (q x); simpl; [rewrite Hx |]; apply IH; assumption.
Qed.

Lemma find_agree (A : Type) (P Q : A -> bool) (l : list A) :
  (forall x, P x = Q x) -> find P l = find Q l.
Proof.
  intros H. induction l as [| x l IH]; simpl; [reflexivity |].
  rewrite H, IH. reflexivity.
Qed.

Lemma map_fixed (A : Type) (h : A -> A) (l : list A) :
  (forall x, In x l -> h x = x) -> map h l = l.
Proof.
  induction l as [| x l IH]; intros H; simpl; [reflexivity |].
  rewrite (H x (or_introl eq_refl)), IH; [reflexivity |].
  intros y Hy. apply H. right. exact Hy.
Qed.

(** The enrichment step changes reference ranges only: the findings keep
    their number, their order and every other field.  When no two findings
    have the same test name, a finding that has a range keeps it, and a
    finding that lacks one gets the range of the first entry of the AI's
    answer that matches its test, unless that range is empty or "Not
    available"; with no answer from the AI nothing changes. *)
Theorem enrichment_fills_missing_ranges
    (referenceRanges : option (list rangeEntry)) (abnormalFindings : list finding) :
  map withoutRange (withEnrichedRanges referenceRanges abnormalFindings)
  = map withoutRange abnormalFindings
  /\ (NoDup (map test abnormalFindings) ->
      withEnrichedRanges referenceRanges abnormalFindings
      = map (fun f => if needsRange f
                      then match referenceRanges with
                           | Some ranges => enrichOne ranges f
                           | None => f
                           end
                      else f)
            abnormalFindings).
Proof.
  unfold withEnrichedRanges. cbv zeta. split.
  - destruct (filter needsRange abnormalFindings) as [| n ns]; [reflexivity |].
    rewrite map_map. apply map_ext. intros f. apply withoutRange_takeEnriched.
  - intros Hnodup.
    destruct (filter needsRange abnormalFindings) as [| n ns] eqn:Hneed.
    + symmetry. apply map_fixed. intros f Hf.
      destruct (needsRange f) eqn:Hq; [| reflexivity].
      assert (Hin : In f (filter needsRange abnormalFindings)).
      { apply filter_In. split; assumption. }
      rewrite Hneed in Hin. contradiction.
    + rewrite <- Hneed. apply map_ext_in. intros f Hf.
      assert (Henriched :
                enrichFindingsWithReferenceRanges referenceRanges
                  (filter needsRange abnormalFindings)
                = map (fun x => match referenceRanges with
                                | Some ranges => enrichOne ranges x
                                | None => x
                                end)
                      (filter needsRange abnormalFindings)).
      { unfold enrichFindingsWithReferenceRanges. rewrite Hneed.
        destruct referenceRanges; [reflexivity | symmetry; apply map_id]. }
      rewrite Henriched. unfold takeEnriched. rewrite find_map.
      assert (Hsame : forall x,
                 String.eqb (test match referenceRanges with
                                  | Some ranges => enrichOne ranges x
                                  | None => x
                                  end) (test f)
                 = String.eqb (test x) (test f)).
      { intros x. destruct referenceRanges; [rewrite test_enrichOne |]; reflexivity. }
      rewrite (find_agree _ _ _ Hsame), (find_own_test needsRange _ _ Hnodup Hf).
      destruct (needsRange f); [| reflexivity]. cbn [option_map].
      set (e := match referenceRanges with
                | Some ranges => enrichOne ranges f
                | None => f
                end).
      assert (He : e = f \/ exists range, nonEmpty range = true /\ e = withRange f range).
      { unfold e. destruct referenceRanges as [ranges |]; [| left; reflexivity].
        unfold enrichOne. destruct (find _ ranges) as [m |]; [| left; reflexivity].
        destruct (nonEmpty (rr_reference_range m)) eqn:Hm; [| left; reflexivity].
        destruct (negb _); [| left; reflexivity].
        right. exists (rr_reference_range m). split; [exact Hm | reflexivity]. }
      destruct He as [-> | (range & Hrange & ->)].
      * rewrite String.eqb_refl, andb_false_r. reflexivity.
      * cbn [referenceRange withRange]. rewrite Hrange. cbn [andb].
        destruct (String.eqb_spec range (referenceRange f)) as [-> | _];
          [symmetry; apply withRange_same | reflexivity].
Qed.

Lemma enrichment_fills_missing_ranges_witness :
  withEnrichedRanges
    (Some [{| rr_test := "hemoglobin (Hb)"; rr_reference_range := "12.0 - 17.5" |};
           {| rr_test := "WBC"; rr_reference_range := "Not available" |}])
    [sampleFinding "Hemoglobin" "9.2" EmptyString; sampleFinding "WBC" "15" EmptyString;
     sampleFinding "Platelets" "90" "150 - 400"]
  = [sampleFinding "Hemoglobin" "9.2" "12.0 - 17.5"; sampleFinding "WBC" "15" EmptyString;
     sampleFinding "Platelets" "90" "150 - 400"].
Proof.
  rewrite (proj2 (enrichment_fills_missing_ranges
                    (Some [{| rr_test := "hemoglobin (Hb)";
                              rr_reference_range := "12.0 - 17.5" |};
                           {| rr_test := "WBC"; rr_reference_range := "Not available" |}])
                    [sampleFinding "Hemoglobin" "9.2" EmptyString;
                     sampleFinding "WBC" "15" EmptyString;
                     sampleFinding "Platelets" "90" "150 - 400"])).
  - vm_compute. reflexivity.
  - vm_compute. repeat constructor; simpl; intuition discriminate.
Defined.

End EnrichmentFacts.

(** ** The reply to a failure of the providers *)

Section FailureReply.
Import AiProvider Report.

Lemma exhaustedMessage_mentions (lastErr : option string) :
  includes (exhaustedMessage lastErr) "All AI providers failed" = true.
Proof. reflexivity. Qed.

(** The error of a provider does not reach the client.  When the chain is
    exhausted, [generateAIResponse] quotes the last provider's error in its
    message; the handler of [interpretReport] answers 500 with one of two
    fixed texts and without details, whatever that error says and whatever
    the mode.  The configuration error gets the first of the two texts. *)
Theorem provider_error_is_not_passed_on
    (env : environment) (lastErr : option string) (code responseMessage : string) :
  let reply := replyTo env {| t_message := Some (exhaustedMessage lastErr);
                              t_code := code;
                              t_responseMessage := responseMessage |} in
  f_status reply = 500
  /\ f_details reply = None
  /\ In (f_message reply)
        ["No AI providers configured. Please set at least one API key (GEMINI_API_KEY, GROQ_API_KEY, or HUGGINGFACE_API_KEY) in server/.env";
         "All AI providers failed. Please check your API keys and try again. The system tried all available providers but none succeeded."]
  /\ replyTo env {| t_message := Some noProvidersMessage;
                    t_code := code;
                    t_responseMessage := responseMessage |}
     = {| f_status := 500;
          f_message := "No AI providers configured. Please set at least one API key (GEMINI_API_KEY, GROQ_API_KEY, or HUGGINGFACE_API_KEY) in server/.env";
          f_details := None |}.
Proof.
  intros reply. unfold reply, replyTo, mentions. cbn [t_message].
  rewrite exhaustedMessage_mentions.
  destruct (includes (exhaustedMessage lastErr) "No AI providers configured").
  - repeat split. left. reflexivity.
  - repeat split. right. left. reflexivity.
Qed.

End FailureReply.

(** ** The flag of an extracted finding *)

Section FlagWords.
Import AiController.

Lemma run_alts (A : Type) (rs : list regex) (st : state) (k : state -> option A) (a : A) :
  run (alts rs) st k = Some a -> exists r, In r rs /\ run r st k = Some a.
Proof.
  induction rs as [| r rs IH]; simpl.
  - destruct (rest st); discriminate.
  - destruct rs as [| r' rs'].
    + intros H. exists r. split; [left; reflexivity | exact H].
    + cbn [run]. destruct (run r st k) as [x |] eqn:Hr.
      * intros [= <-]. exists r. split; [left; reflexivity | exact Hr].
      * intros H. destruct (IH H) as (r0 & Hin & Hrun).
        exists r0. split; [right; exact Hin | exact Hrun].
Qed.

(** A literal under the [i] flag consumes characters that are those of the
    literal up to case. *)
Lemma run_litCharsI (A : Type) (l : list ascii) (st : state) (k : state -> option A) (a : A) :
  run (litCharsI l) st k = Some a ->
  exists consumed st',
    rest st = consumed ++ rest st'
    /\ map lowerChar consumed = map lowerChar l
    /\ pos st' = pos st + length consumed
    /\ caps st' = caps st
    /\ k st' = Some a.
Proof.
  revert st. induction l as [| c l IH]; intros st.
  - simpl. intros H. exists [], st.
    split; [reflexivity |]. split; [reflexivity |]. split; [simpl; lia |].
    split; [reflexivity | exact H].
  - assert (Hstep : forall k',
               run (Chr (fun x => Ascii.eqb (lowerChar x) (lowerChar c))) st k' = Some a ->
               exists x t, rest st = x :: t /\ lowerChar x = lowerChar c
                           /\ k' {| pos := S (pos st); before := Some x; rest := t;
                                    caps := caps st |} = Some a).
    { intros k'. simpl. destruct (rest st) as [| x t]; [discriminate |].
      destruct (Ascii.eqb_spec (lowerChar x) (lowerChar c)) as [E | _]; [| discriminate].
      intros H. exists x, t. repeat split; assumption. }
    destruct l as [| c' l'].
    + intros H. destruct (Hstep k H) as (x & t & Hrest & Hx & Hk).
      exists [x], {| pos := S (pos st); before := Some x; rest := t; caps := caps st |}.
      split; [exact Hrest |]. split; [simpl; rewrite Hx; reflexivity |].
      split; [simpl; lia |]. split; [reflexivity | exact Hk].
    + intros H.
      change (run (Chr (fun x => Ascii.eqb (lowerChar x) (lowerChar c))) st
                  (fun st' => run (litCharsI (c' :: l')) st' k) = Some a) in H.
      destruct (Hstep _ H) as (x & t & Hrest & Hx & Hk).
      destruct (IH _ Hk) as (consumed & st' & Hrest' & Hlower & Hpos & Hcaps & Hk').
      exists (x :: consumed), st'. simpl in *.
      split; [rewrite Hrest, Hrest'; reflexivity |].
      split; [rewrite Hx, Hlower; reflexivity |].
      split; [lia |]. split; assumption.
Qed.

Lemma searchFrom_at (r : regex) (l : list ascii) (i : nat) (prev : option ascii) (m : found) :
  searchFrom r i prev l = Some m ->
  exists pre l' prev',
    l = pre ++ l'
    /\ matchAt r {| pos := i + length pre; before := prev'; rest := l'; caps := [] |} = Some m.
Proof.
  revert i prev. induction l as [| c t IH]; intros i prev; simpl.
  - destruct (matchAt r _) as [m' |] eqn:Hat; [| discriminate].
    intros [= <-]. exists [], [], prev. split; [reflexivity |].
    simpl. rewrite Nat.add_0_r. exact Hat.
  - destruct (matchAt r _) as [m' |] eqn:Hat.
    + intros [= <-]. exists [], (c :: t), prev. split; [reflexivity |].
      simpl. rewrite Nat.add_0_r. exact Hat.
    + intros H. destruct (IH _ _ H) as (pre & l' & prev' & -> & Hm).
      exists (c :: pre), l', prev'. split; [reflexivity |].
      simpl. replace (i + S (length pre)) with (S i + length pre) by lia. exact Hm.
Qed.

Lemma toLowerCase_str (l : list ascii) : toLowerCase (str l) = str (map lowerChar l).
Proof. induction l as [| c l IH]; simpl; [reflexivity | f_equal; exact IH]. Qed.

(** The word that the flag pattern captures is one of the flag terms, up
    to case. *)
Lemma flag_word (s : string) (m : found) :
  exec FLAG_REGEX s = Some m -> In (toLowerCase (group s m 1)) FLAG_TERMS.
Proof.
  unfold exec. intros H.
  destruct (searchFrom_at _ _ _ _ H) as (pre & l' & prev' & Hchars & Hat).
  unfold matchAt, FLAG_REGEX in Hat. cbn [seq run] in Hat.
  match type of Hat with
  | (if ?b then _ else _) = _ => destruct b; [| discriminate]
  end.
  apply run_alts in Hat. destruct Hat as (r & Hr & Hrun).
  apply in_map_iff in Hr. destruct Hr as (term & <- & Hterm).
  unfold litI in Hrun. apply run_litCharsI in Hrun.
  destruct Hrun as (consumed & st' & Hrest & Hlower & Hpos & Hcaps & Hk).
  cbn [run pos before rest caps] in *.
  match type of Hk with
  | (if ?b then _ else _) = _ => destruct b; [| discriminate]
  end.
  injection Hk as <-. unfold group. cbn [final caps lookupCap Nat.eqb].
  rewrite Hpos.
  assert (Hs : s = str (pre ++ consumed ++ rest st')).
  { rewrite <- Hrest, <- Hchars. symmetry. apply str_chars. }
  rewrite Hs. simpl (0 + length pre). rewrite slice_middle, toLowerCase_str, Hlower.
  assert (Hlowered : map lowerChar (chars term) = chars term).
  { revert Hterm. unfold FLAG_TERMS. simpl.
    intuition (subst; reflexivity). }
  rewrite Hlowered, str_chars. exact Hterm.
Qed.

Lemma flag_grades (word : string) :
  In (toLowerCase word) FLAG_TERMS ->
  In (normalizeFlagWord word, deriveSeverity word)
     [("Critical High", "critical"); ("Critical Low", "critical");
      ("High", "high"); ("Low", "low")].
Proof.
  unfold FLAG_TERMS, normalizeFlagWord, deriveSeverity. cbv zeta.
  intros H. simpl in H.
  repeat (destruct H as [H | H]; [rewrite <- H; vm_compute; tauto |]).
  contradiction.
Qed.

Lemma parseAbnormalRow_graded (row fallbackTest : string) (f : finding) :
  parseAbnormalRow row fallbackTest = Some f -> graded f.
Proof.
  unfold parseAbnormalRow. intros H.
  destruct (exec FLAG_REGEX row) as [flagMatch |] eqn:Hflag; [| discriminate].
  pose proof (flag_grades _ (flag_word _ Hflag)) as Hgrades.
  repeat (match type of H with
          | context [match ?x with _ => _ end] => destruct x eqn:?
          end; try discriminate).
  all: injection H as <-; exact Hgrades.
Qed.

Lemma extractTestDataFromLine_graded (line nextLine prevLine : string) (f : finding) :
  extractTestDataFromLine line nextLine prevLine = Some f -> graded f.
Proof.
  unfold extractTestDataFromLine. intros H.
  destruct (exec FLAG_REGEX line) as [flagMatch |] eqn:Hflag; [| discriminate].
  pose proof (flag_grades _ (flag_word _ Hflag)) as Hgrades.
  destruct (Regex.test NORMAL_REGEX _); [discriminate |].
  cbv zeta in H.
  destruct (negb _ || negb _); [discriminate |].
  injection H as <-. exact Hgrades.
Qed.

Lemma tableFindings_graded (lines : list string) (prev : string) :
  Forall graded (tableFindings prev lines).
Proof.
  revert prev. induction lines as [| line rest IH]; intros prev; simpl; [constructor |].
  destruct (Regex.test headerWord line && negb (Regex.test anyDigit line)); [apply IH |].
  destruct (negb (Regex.test anyDigit line)); [apply IH |].
  destruct (extractTestDataFromLine _ _ _) as [extracted |] eqn:E; [| apply IH].
  destruct (nonEmpty (flag extracted) && negb (Regex.test NORMAL_REGEX (flag extracted)));
    [| apply IH].
  constructor; [exact (extractTestDataFromLine_graded _ _ _ E) | apply IH].
Qed.

Lemma addParsedRows_graded (rows : list string) (lastTest : string) (findings : list finding) :
  Forall graded findings -> Forall graded (addParsedRows rows lastTest findings).
Proof.
  revert lastTest findings.
  induction rows as [| row rest IH]; intros lastTest findings H; simpl; [exact H |].
  destruct (parseAbnormalRow row lastTest) as [parsed |] eqn:E; [| apply IH; exact H].
  apply IH. destruct (existsb _ findings); [exact H |].
  apply Forall_app. split; [exact H |].
  constructor; [exact (parseAbnormalRow_graded _ _ E) | constructor].
Qed.

(** Every finding that the extractor emits is graded: its flag is one of
    Critical High, Critical Low, High and Low, and its severity is the one
    that goes with the flag (critical, critical, high, low); so it is for
    each of the two parsers. *)
Theorem extracted_findings_are_graded :
  (forall (text : string) (f : finding), In f (extractAbnormalFromText text) -> graded f)
  /\ (forall (row fallbackTest : string) (f : finding),
         parseAbnormalRow row fallbackTest = Some f -> graded f)
  /\ (forall (line nextLine prevLine : string) (f : finding),
         extractTestDataFromLine line nextLine prevLine = Some f -> graded f).
Proof.
  split; [| split].
  - intros text f Hin.
    assert (H : Forall graded (extractAbnormalFromText text)).
    { unfold extractAbnormalFromText. apply addParsedRows_graded. apply tableFindings_graded. }
    exact (proj1 (Forall_forall _ _) H f Hin).
  - exact parseAbnormalRow_graded.
  - exact extractTestDataFromLine_graded.
Qed.

Lemma extracted_findings_are_graded_witness :
  extractAbnormalFromText "Hemoglobin | 9.2 | g/dL | 12.0-15.5 | Low" <> []
  /\ Forall graded (extractAbnormalFromText "Hemoglobin | 9.2 | g/dL | 12.0-15.5 | Low").
Proof.
  split; [vm_compute; discriminate |].
  apply Forall_forall. apply (proj1 extracted_findings_are_graded).
Defined.

End FlagWords.

(** ** Patterns under the [i] flag *)

Section CaseBlindness.
Import AiController.

Lemma lowerChar_again (c : ascii) : lowerChar (lowerChar c) = lowerChar c.
Proof. destruct c as [[] [] [] [] [] [] [] []]; reflexivity. Qed.

Lemma isWord_lowerChar (c : ascii) : isWord (lowerChar c) = isWord c.
Proof. destruct c as [[] [] [] [] [] [] [] []]; reflexivity. Qed.

Lemma wordBefore_lowered (st : state) : wordBefore (lowered st) = wordBefore st.
Proof.
  unfold wordBefore, lowered. simpl. destruct (before st); simpl;
    [apply isWord_lowerChar | reflexivity].
Qed.

Lemma wordAfter_lowered (st : state) : wordAfter (lowered st) = wordAfter st.
Proof.
  unfold wordAfter, lowered. simpl. destruct (rest st); simpl;
    [reflexivity | apply isWord_lowerChar].
Qed.

(** A pattern that is blind to case matches a text exactly as it matches
    the lower-case form of the text. *)
Lemma run_lowered (r : regex) :
  caseBlind r ->
  forall (A B : Type) (k : state -> option A) (k' : state -> option B),
    (forall st, succeeds (k st) = succeeds (k' (lowered st))) ->
    forall st, succeeds (run r st k) = succeeds (run r (lowered st) k').
Proof.
  induction r as [| accepts | r1 IH1 r2 IH2 | r1 IH1 r2 IH2 | r1 IH1 | n r1 IH1 | | |];
    intros Hblind A B k k' Hk st.
  - simpl. apply Hk.
  - simpl in *. destruct (rest st) as [| c t]; [reflexivity |]. simpl.
    rewrite Hblind. destruct (accepts c); [| reflexivity].
    apply (Hk {| pos := S (pos st); before := Some c; rest := t; caps := caps st |}).
  - destruct Hblind as [H1 H2]. simpl. apply IH1; [exact H1 |].
    intros st1. apply IH2; assumption.
  - destruct Hblind as [H1 H2]. simpl.
    pose proof (IH1 H1 A B k k' Hk st) as E1. pose proof (IH2 H2 A B k k' Hk st) as E2.
    destruct (run r1 st k), (run r1 (lowered st) k'); simpl in *;
      try discriminate; try reflexivity; exact E2.
  - simpl in Hblind.
    pose (iterA := fix iterate (fuel : nat) (st0 : state) : option A :=
                     match fuel with
                     | O => k st0
                     | S fuel' =>
                         match run r1 st0 (fun st' => if pos st' =? pos st0 then None
                                                      else iterate fuel' st') with
                         | Some x => Some x
                         | None => k st0
                         end
                     end).
    pose (iterB := fix iterate (fuel : nat) (st0 : state) : option B :=
                     match fuel with
                     | O => k' st0
                     | S fuel' =>
                         match run r1 st0 (fun st' => if pos st' =? pos st0 then None
                                                      else iterate fuel' st') with
                         | Some x => Some x
                         | None => k' st0
                         end
                     end).
    assert (Hiter : forall fuel st0,
               succeeds (iterA fuel st0) = succeeds (iterB fuel (lowered st0))).
    { induction fuel as [| fuel IHfuel]; intros st0; [apply Hk |].
      change (iterA (S fuel) st0)
        with (match run r1 st0 (fun st' => if pos st' =? pos st0 then None
                                           else iterA fuel st') with
              | Some x => Some x
              | None => k st0
              end).
      change (iterB (S fuel) (lowered st0))
        with (match run r1 (lowered st0)
                      (fun st' => if pos st' =? pos (lowered st0) then None
                                  else iterB fuel st') with
              | Some x => Some x
              | None => k' (lowered st0)
              end).
      assert (E : succeeds (run r1 st0 (fun st' => if pos st' =? pos st0 then None
                                                   else iterA fuel st'))
                  = succeeds (run r1 (lowered st0)
                                (fun st' => if pos st' =? pos (lowered st0) then None
                                            else iterB fuel st'))).
      { apply IH1; [exact Hblind |]. intros st1. simpl (pos (lowered _)).
        destruct (pos st1 =? pos st0); [reflexivity | apply IHfuel]. }
      destruct (run r1 st0 _), (run r1 (lowered st0) _); simpl in E |- *;
        try discriminate; try reflexivity.
      apply Hk. }
    change (succeeds (iterA (S (length (rest st))) st)
            = succeeds (iterB (S (length (rest (lowered st)))) (lowered st))).
    assert (Hlen : length (rest (lowered st)) = length (rest st)) by apply length_map.
    rewrite Hlen. apply Hiter.
  - simpl in Hblind. cbn [run]. apply IH1; [exact Hblind |].
    intros st1.
    apply (Hk {| pos := pos st1; before := before st1; rest := rest st1;
                 caps := (n, (pos st, pos st1)) :: caps st1 |}).
  - simpl. destruct (pos st =? 0); [apply Hk | reflexivity].
  - simpl. destruct (rest st); simpl; [apply Hk | reflexivity].
  - cbn [run]. rewrite wordBefore_lowered, wordAfter_lowered.
    destruct (xorb (wordBefore st) (wordAfter st)); [apply Hk | reflexivity].
Qed.

Lemma searchFrom_lowered (r : regex) (l : list ascii) (i : nat) (prev : option ascii) :
  caseBlind r ->
  succeeds (searchFrom r i prev l)
  = succeeds (searchFrom r i (option_map lowerChar prev) (map lowerChar l)).
Proof.
  intros Hblind. revert i prev. induction l as [| c t IH]; intros i prev.
  - simpl. unfold matchAt.
    pose proof (run_lowered r Hblind
                  (fun st' => Some {| index := i; final := st' |})
                  (fun st' => Some {| index := i; final := st' |})
                  (fun _ => eq_refl)
                  {| pos := i; before := prev; rest := []; caps := [] |}) as E.
    unfold lowered in E. simpl in E.
    destruct (run r _ _), (run r _ _); simpl in *; try discriminate; reflexivity.
  - simpl. unfold matchAt.
    pose proof (run_lowered r Hblind
                  (fun st' => Some {| index := i; final := st' |})
                  (fun st' => Some {| index := i; final := st' |})
                  (fun _ => eq_refl)
                  {| pos := i; before := prev; rest := c :: t; caps := [] |}) as E.
    unfold lowered in E. simpl in E.
    destruct (run r _ _), (run r _ _); simpl in *; try discriminate; try reflexivity.
    apply (IH (S i) (Some c)).
Qed.

Lemma chars_toLowerCase (s : string) : chars (toLowerCase s) = map lowerChar (chars s).
Proof. induction s as [| c s IH]; simpl; [reflexivity | f_equal; exact IH]. Qed.

Lemma test_lowered (r : regex) (s : string) :
  caseBlind r -> Regex.test r s = Regex.test r (toLowerCase s).
Proof.
  intros Hblind. unfold Regex.test, exec. rewrite chars_toLowerCase.
  exact (searchFrom_lowered r (chars s) 0 None Hblind).
Qed.

Lemma litCharsI_caseBlind (l : list ascii) : caseBlind (litCharsI l).
Proof.
  induction l as [| c l IH]; simpl; [exact I |].
  destruct l as [| c' l'].
  - intros x. simpl. rewrite lowerChar_again. reflexivity.
  - split; [| exact IH]. intros x. simpl. rewrite lowerChar_again. reflexivity.
Qed.

Lemma NORMAL_REGEX_caseBlind : caseBlind NORMAL_REGEX.
Proof.
  unfold NORMAL_REGEX. simpl.
  repeat split; try apply litCharsI_caseBlind;
    intros c; rewrite lowerChar_again; reflexivity.
Qed.

(** A row that is flagged "above normal" or "below normal" is dropped.
    Both are flag terms, but the word [normal] in them makes the parsers
    take the row for a normal one: when the flag word of a row is one of
    the two, in whatever case, neither parser returns a finding. *)
Theorem rows_flagged_above_normal_are_dropped (row : string) :
  option_map toLowerCase (flagWordOf row) = Some "above normal"
  \/ option_map toLowerCase (flagWordOf row) = Some "below normal" ->
  (forall fallbackTest, parseAbnormalRow row fallbackTest = None)
  /\ (forall nextLine prevLine, extractTestDataFromLine row nextLine prevLine = None).
Proof.
  unfold flagWordOf. intros Hword.
  destruct (exec FLAG_REGEX row) as [flagMatch |] eqn:Hflag;
    [| destruct Hword; discriminate].
  simpl in Hword.
  assert (Hnormal : Regex.test NORMAL_REGEX (group row flagMatch 1) = true).
  { rewrite (test_lowered _ _ NORMAL_REGEX_caseBlind).
    destruct Hword as [[= ->] | [= ->]]; vm_compute; reflexivity. }
  split.
  - intros fallbackTest. unfold parseAbnormalRow. rewrite Hflag, Hnormal. reflexivity.
  - intros nextLine prevLine. unfold extractTestDataFromLine.
    rewrite Hflag, Hnormal. reflexivity.
Qed.

Lemma rows_flagged_above_normal_are_dropped_witness :
  parseAbnormalRow "Glucose 180 mg/dL 70-100 Above Normal" EmptyString = None.
Proof.
  apply (rows_flagged_above_normal_are_dropped "Glucose 180 mg/dL 70-100 Above Normal").
  left. vm_compute. reflexivity.
Defined.

End CaseBlindness.

(** ** Transports: how many requests *)

Section RequestCount.
Import AiProvider.

Section Bounds.
Variables World Logged : Type.

Lemma sendsAtMost_more (n m : nat) (A : Type) (c : M (World * list Logged) A) :
  sendsAtMost n c -> n <= m -> sendsAtMost m c.
Proof. intros H Hle wl. specialize (H wl). lia. Qed.

Lemma sendsAtMost_ret (A : Type) (a : A) :
  sendsAtMost (World := World) (Logged := Logged) 0 (ret a).
Proof. intros wl. simpl. lia. Qed.

Lemma sendsAtMost_throw (A : Type) (m : string) :
  sendsAtMost (World := World) (Logged := Logged) 0 (throw (A := A) m).
Proof. intros wl. simpl. lia. Qed.

Lemma sendsAtMost_bind (n1 n2 : nat) (A B : Type) (c : M (World * list Logged) A)
    (f : A -> M (World * list Logged) B) :
  sendsAtMost n1 c -> (forall a, sendsAtMost n2 (f a)) -> sendsAtMost (n1 + n2) (bind c f).
Proof.
  intros Hc Hf wl. unfold bind. specialize (Hc wl).
  destruct (c wl) as [[a | m] wl']; simpl in *.
  - specialize (Hf a wl'). lia.
  - lia.
Qed.

Lemma sendsAtMost_tryCatch (n1 n2 : nat) (A : Type) (c : M (World * list Logged) A)
    (h : string -> M (World * list Logged) A) :
  sendsAtMost n1 c -> (forall m, sendsAtMost n2 (h m)) ->
  sendsAtMost (n1 + n2) (tryCatch c h).
Proof.
  intros Hc Hh wl. unfold tryCatch. specialize (Hc wl).
  destruct (c wl) as [[a | m] wl']; simpl in *.
  - lia.
  - specialize (Hh m wl'). lia.
Qed.

Lemma sendsAtMost_recording (Answer : Type) (send : Logged -> M World Answer) (rq : Logged) :
  sendsAtMost 1 (recording send rq).
Proof.
  intros wl. unfold recording. destruct (send rq (fst wl)). simpl.
  rewrite length_app. simpl. lia.
Qed.

Lemma sendsAtMost_unrecorded (Request Answer : Type) (send : Request -> M World Answer)
    (rq : Request) :
  sendsAtMost 0 (unrecorded (Logged := Logged) send rq).
Proof.
  intros wl. unfold unrecorded. destruct (send rq (fst wl)). simpl. lia.
Qed.

Variable env : environment.
Variable fetch : httpRequest -> M (World * list Logged) httpResponse.
Variable sdk : sdkRequest -> M (World * list Logged) (option string).
(** A bound on what one HTTP request and one SDK call add. *)
Variables perFetch perSdk : nat.
Hypothesis fetch_bound : forall rq, sendsAtMost perFetch (fetch rq).
Hypothesis sdk_bound : forall rq, sendsAtMost perSdk (sdk rq).

Ltac silent :=
  eapply sendsAtMost_more; [first [apply sendsAtMost_throw | apply sendsAtMost_ret] | lia].

Lemma openRouterFallbacks_bound (key model : string) (messageArray : list message)
    (t : Q) (m : Z) (fallbackModels : list string) :
  sendsAtMost (length fallbackModels * perFetch)
    (openRouterFallbacks fetch key model messageArray t m fallbackModels).
Proof.
  induction fallbackModels as [| fallbackModel rest IH]; simpl.
  - apply sendsAtMost_ret.
  - destruct (String.eqb fallbackModel model);
      [apply (sendsAtMost_more IH); lia |].
    intros wl.
    pose proof (fetch_bound (openRouterRequest key fallbackModel messageArray t m) wl) as H1.
    destruct (fetch _ wl) as [[response | err] wl']; simpl in H1.
    + destruct (ok response).
      * destruct (hasText (chatContent response)); [simpl; lia |].
        specialize (IH wl'). lia.
      * destruct (status response =? 400); [simpl; lia |].
        specialize (IH wl'). lia.
    + specialize (IH wl'). lia.
Qed.

Lemma openRouterFallbackModels_length (model : string) :
  length (openRouterFallbackModels model) <= 4.
Proof.
  unfold openRouterFallbackModels.
  destruct (includes model "perplexity"); [simpl; lia |].
  destruct (includes model "anthropic" || includes model "claude"); simpl; lia.
Qed.

Lemma callOpenRouter_bound (messages : list message) (systemPrompt : string)
    (options : callOptions) :
  sendsAtMost (5 * perFetch) (callOpenRouter env fetch messages systemPrompt options).
Proof.
  unfold callOpenRouter. cbv zeta.
  destruct (negb (nonEmpty _)); [silent |].
  destruct (negb (startsWith _ _)); [silent |].
  match goal with
  | |- context [openRouterFallbackModels ?model] =>
      pose proof (openRouterFallbackModels_length model) as Hlen
  end.
  eapply sendsAtMost_more.
  - apply (@sendsAtMost_tryCatch (perFetch + 0) (4 * perFetch + 0)).
    + apply sendsAtMost_bind; [apply fetch_bound |].
      intros response. destruct (negb (ok response)); [apply sendsAtMost_throw |].
      destruct (chatContent response) as [content |]; [| apply sendsAtMost_throw].
      destruct (hasText (Some content)); [apply sendsAtMost_ret | apply sendsAtMost_throw].
    + intros err.
      destruct (includes err "404" || includes err "not found" || includes err "model");
        [| silent].
      apply sendsAtMost_bind.
      * eapply sendsAtMost_more; [apply openRouterFallbacks_bound | nia].
      * intros [content |]; [apply sendsAtMost_ret | apply sendsAtMost_throw].
  - lia.
Qed.

Lemma geminiFallbacks_bound (key model fullPrompt : string) (fallbackModels : list string) :
  sendsAtMost (length fallbackModels * perSdk)
    (geminiFallbacks sdk key model fullPrompt fallbackModels).
Proof.
  induction fallbackModels as [| m rest IH]; simpl.
  - apply sendsAtMost_ret.
  - destruct (String.eqb m model); [apply (sendsAtMost_more IH); lia |].
    intros wl. pose proof (sdk_bound (GeminiGenerate key m None fullPrompt) wl) as H1.
    destruct (sdk _ wl) as [[answered | err] wl']; simpl in H1.
    + destruct (hasText answered); [simpl; lia | specialize (IH wl'); lia].
    + specialize (IH wl'). lia.
Qed.

Lemma callGemini_bound (messages : list message) (systemPrompt : string)
    (options : callOptions) :
  sendsAtMost (5 * perSdk) (callGemini env sdk messages systemPrompt options).
Proof.
  unfold callGemini.
  destruct (getGeminiClient env) as [| key | key]; try silent.
  eapply sendsAtMost_more.
  - apply (@sendsAtMost_tryCatch (perSdk + 0) (4 * perSdk + 0)).
    + apply sendsAtMost_bind; [apply sdk_bound |].
      intros [content |]; [| apply sendsAtMost_throw].
      destruct (hasText (Some content)); [apply sendsAtMost_ret | apply sendsAtMost_throw].
    + intros err. destruct (includes err "404" || includes err "not found"); [| silent].
      apply sendsAtMost_bind.
      * apply geminiFallbacks_bound.
      * intros [content |]; [apply sendsAtMost_ret | apply sendsAtMost_throw].
  - lia.
Qed.

Lemma groqLoop_bound (key : string) (messageArray : list message) (options : callOptions)
    (models : list string) (lastError : option string) :
  sendsAtMost (length models * perSdk)
    (groqLoop sdk key messageArray options models lastError).
Proof.
  revert lastError. induction models as [| m rest IH]; intros lastError; simpl.
  - apply sendsAtMost_throw.
  - intros wl.
    pose proof (sdk_bound (GroqCreate key (plainChatBody m messageArray options)) wl) as H1.
    destruct (sdk _ wl) as [[content | err] wl']; simpl in H1; [simpl; lia |].
    destruct (includes err "decommissioned" || includes err "not found" || includes err "404");
      [specialize (IH (Some err) wl'); lia | simpl; lia].
Qed.

Lemma callGroq_bound (messages : list message) (systemPrompt : string)
    (options : callOptions) :
  sendsAtMost (6 * perSdk) (callGroq env sdk messages systemPrompt options).
Proof.
  unfold callGroq. destruct (getGroqClient env) as [key |]; [| silent].
  apply (groqLoop_bound key (withSystem systemPrompt messages) options (groqModels env) None).
Qed.

Lemma huggingFaceLoop_bound (key prompt : string) (options : callOptions)
    (models : list string) (lastError : option string) :
  sendsAtMost (length models * perFetch)
    (huggingFaceLoop fetch key prompt options models lastError).
Proof.
  revert lastError. induction models as [| m rest IH]; intros lastError; simpl.
  - apply sendsAtMost_throw.
  - intros wl.
    assert (Hattempt : sendsAtMost (perFetch + 0)
                         (huggingFaceAttempt fetch key m prompt options)).
    { unfold huggingFaceAttempt. apply sendsAtMost_bind; [apply fetch_bound |].
      intros response. destruct (negb (ok response)).
      - destruct ((status response =? 410) || (status response =? 404));
          [apply sendsAtMost_ret | apply sendsAtMost_throw].
      - destruct (answer response) as [c | [g |] | [g |] | g];
          try apply sendsAtMost_throw; try apply sendsAtMost_ret;
          destruct (nonEmpty g); try apply sendsAtMost_ret; apply sendsAtMost_throw. }
    specialize (Hattempt wl).
    destruct (huggingFaceAttempt fetch key m prompt options wl) as [[[g |] | err] wl'];
      simpl in Hattempt.
    + simpl. lia.
    + match goal with
      | |- context [huggingFaceLoop _ _ _ _ _ ?e _] => specialize (IH e wl')
      end. lia.
    + destruct (includes err "410" || includes err "404" || includes err "not available");
        [specialize (IH (Some err) wl'); lia | simpl; lia].
Qed.

Lemma callHuggingFace_bound (messages : list message) (systemPrompt : string)
    (options : callOptions) :
  sendsAtMost (4 * perFetch) (callHuggingFace env fetch messages systemPrompt options).
Proof.
  unfold callHuggingFace. cbv zeta. destruct (negb _ || _); [silent |].
  apply (huggingFaceLoop_bound _ _ options (huggingFaceModels env) None).
Qed.

Lemma callPerplexity_bound (messages : list message) (systemPrompt : string)
    (options : callOptions) :
  sendsAtMost perFetch (callPerplexity env fetch messages systemPrompt options).
Proof.
  unfold callPerplexity. cbv zeta. destruct (negb _ || _ || _); [silent |].
  eapply sendsAtMost_more.
  - apply (@sendsAtMost_tryCatch (perFetch + 0) 0).
    + apply sendsAtMost_bind; [apply fetch_bound |].
      intros response. destruct (negb (ok response));
        [apply sendsAtMost_throw | apply sendsAtMost_ret].
    + intros err. apply sendsAtMost_throw.
  - lia.
Qed.

Lemma callOpenAI_bound (messages : list message) (systemPrompt : string)
    (options : callOptions) :
  sendsAtMost perSdk (callOpenAI env sdk messages systemPrompt options).
Proof.
  unfold callOpenAI. destruct (getOpenAIClient env) as [key |]; [| silent].
  eapply sendsAtMost_more.
  - apply (@sendsAtMost_bind perSdk 0); [apply sdk_bound |].
    intros content. apply sendsAtMost_ret.
  - lia.
Qed.

Lemma callProvider_bound (providerName : string) (messages : list message)
    (systemPrompt : string) (options : callOptions) :
  sendsAtMost (5 * perFetch + 6 * perSdk)
    (callProvider env fetch sdk providerName messages systemPrompt options).
Proof.
  unfold callProvider.
  destruct (String.eqb providerName GEMINI);
    [apply (sendsAtMost_more (callGemini_bound _ _ _)); lia |].
  destruct (String.eqb providerName OPENROUTER);
    [apply (sendsAtMost_more (callOpenRouter_bound _ _ _)); lia |].
  destruct (String.eqb providerName GROQ);
    [apply (sendsAtMost_more (callGroq_bound _ _ _)); lia |].
  destruct (String.eqb providerName HUGGINGFACE);
    [apply (sendsAtMost_more (callHuggingFace_bound _ _ _)); lia |].
  destruct (String.eqb providerName OPENAI);
    [apply (sendsAtMost_more (callOpenAI_bound _ _ _)); lia |].
  destruct (String.eqb providerName PERPLEXITY);
    [apply (sendsAtMost_more (callPerplexity_bound _ _ _)); lia |].
  silent.
Qed.

Lemma tryProviders_bound (perCall : nat)
    (call : string -> callOptions -> M (World * list Logged) string)
    (options : generateOptions) (providers : list providerDescriptor)
    (lastErr : option string) (errs : list errorInfo) :
  (forall providerName opts, sendsAtMost perCall (call providerName opts)) ->
  sendsAtMost (length providers * perCall) (tryProviders call options providers lastErr errs).
Proof.
  intros Hcall. revert lastErr errs.
  induction providers as [| p rest IH]; intros lastErr errs; simpl.
  - apply sendsAtMost_ret.
  - intros wl. pose proof (Hcall (name p) (optionsFor options p) wl) as H1.
    destruct (call (name p) (optionsFor options p) wl) as [[result | err] wl'];
      simpl in H1; [simpl; lia |].
    match goal with
    | |- context [classify ?e] => destruct (classify e)
    end;
      match goal with
      | |- context [tryProviders _ _ _ ?l ?e _] => specialize (IH l e wl')
      end; lia.
Qed.

Lemma generateAIResponse_bound (messages : list message) (systemPrompt : string)
    (options : generateOptions) :
  sendsAtMost (length (getAvailableProviders env (preferredProviders options))
               * (5 * perFetch + 6 * perSdk))
    (generateAIResponse env fetch sdk messages systemPrompt options).
Proof.
  unfold generateAIResponse, generateFrom.
  destruct (getAvailableProviders env (preferredProviders options)) as [| p ps] eqn:Hps;
    [apply sendsAtMost_throw |].
  eapply sendsAtMost_more.
  - apply (@sendsAtMost_bind (length (p :: ps) * (5 * perFetch + 6 * perSdk)) 0).
    + apply tryProviders_bound. intros providerName opts. apply callProvider_bound.
    + intros e. destruct (found e); [apply sendsAtMost_ret | apply sendsAtMost_throw].
  - lia.
Qed.

End Bounds.

Lemma defaultProviders_length (env : environment) : length (defaultProviders env) <= 5.
Proof.
  unfold defaultProviders. rewrite !length_app.
  assert (H1 : forall (b : bool) (l : list providerDescriptor),
             length l <= 1 -> length (if b then l else []) <= 1).
  { intros [] l H; simpl; lia. }
  repeat match goal with
         | |- context [length (if ?b then ?l else [])] =>
             let H := fresh "H" in
             assert (H : length (if b then l else []) <= 1);
             [apply H1 | generalize dependent (length (if b then l else []))]
         end.
  all: try (intros; lia).
  all: try (simpl; lia).
  - destruct (getGeminiClient env); simpl; lia.
  - destruct (startsWith _ _); [destruct (getOpenRouterClient env _) |]; simpl; lia.
Qed.

(** One call makes a bounded number of requests.  A transport sends at
    most five HTTP requests and makes at most six calls of an SDK (the
    first attempt and its fallback models, none of them twice); the
    registry lists at most five providers, and [generateAIResponse] calls
    each of them at most once, so that one call of it sends at most 5 HTTP
    requests and makes at most 6 SDK calls for each provider listed. *)
Theorem requests_are_bounded
    (World : Type) (env : environment)
    (fetch : httpRequest -> M World httpResponse)
    (sdk : sdkRequest -> M World (option string))
    (messages : list message) (systemPrompt : string) (w : World) :
  (forall (providerName : string) (options : callOptions),
      length (snd (snd (callProvider env (recording fetch) (unrecorded sdk) providerName
                          messages systemPrompt options (w, [])))) <= 5
      /\ length (snd (snd (callProvider env (unrecorded fetch) (recording sdk) providerName
                             messages systemPrompt options (w, [])))) <= 6)
  /\ (forall options : generateOptions,
        let listed := length (getAvailableProviders env (preferredProviders options)) in
        listed <= 5
        /\ length (snd (snd (generateAIResponse env (recording fetch) (unrecorded sdk)
                               messages systemPrompt options (w, [])))) <= 5 * listed
        /\ length (snd (snd (generateAIResponse env (unrecorded fetch) (recording sdk)
                               messages systemPrompt options (w, [])))) <= 6 * listed).
Proof.
  split.
  - intros providerName options. split.
    + pose proof (@callProvider_bound World httpRequest env (recording fetch)
                    (unrecorded sdk) 1 0
                    (fun rq => sendsAtMost_recording fetch rq)
                    (fun rq => sendsAtMost_unrecorded sdk rq)
                    providerName messages systemPrompt options (w, [])) as H.
      simpl in H. lia.
    + pose proof (@callProvider_bound World sdkRequest env (unrecorded fetch)
                    (recording sdk) 0 1
                    (fun rq => sendsAtMost_unrecorded fetch rq)
                    (fun rq => sendsAtMost_recording sdk rq)
                    providerName messages systemPrompt options (w, [])) as H.
      simpl in H. lia.
  - intros options listed. split; [| split].
    + unfold listed.
      rewrite <- (Permutation_length
                    (reordering_keeps_the_providers_lemma env (preferredProviders options))).
      apply defaultProviders_length.
    + pose proof (@generateAIResponse_bound World httpRequest env (recording fetch)
                    (unrecorded sdk) 1 0
                    (fun rq => sendsAtMost_recording fetch rq)
                    (fun rq => sendsAtMost_unrecorded sdk rq)
                    messages systemPrompt options (w, [])) as H.
      fold listed in H. simpl in H. lia.
    + pose proof (@generateAIResponse_bound World sdkRequest env (unrecorded fetch)
                    (recording sdk) 0 1
                    (fun rq => sendsAtMost_unrecorded fetch rq)
                    (fun rq => sendsAtMost_recording sdk rq)
                    messages systemPrompt options (w, [])) as H.
      fold listed in H. simpl in H. lia.
Qed.

End RequestCount.

(** ** What the patterns accept *)


(** ** What a pattern consumes *)

Section PatternSoundness.
Import AiController.

(** The matcher consumes a text of the pattern. *)
Lemma run_derives (r : regex) :
  forall (A : Type) (st : state) (k : state -> option A) (a : A),
    run r st k = Some a ->
    exists w st',
      derives r w /\ rest st = w ++ rest st' /\ pos st' = pos st + length w
      /\ k st' = Some a.
Proof.
  induction r as [| accepts | r1 IH1 r2 IH2 | r1 IH1 r2 IH2 | r1 IH1 | n r1 IH1 | | |];
    intros A st k a H.
  - exists [], st. simpl in *. repeat split; [constructor | lia | exact H].
  - simpl in H. destruct (rest st) as [| c t] eqn:Hrest; [discriminate |].
    destruct (accepts c) eqn:Hc; [| discriminate].
    exists [c], {| pos := S (pos st); before := Some c; rest := t; caps := caps st |}.
    simpl. repeat split; [constructor; exact Hc | lia | exact H].
  - simpl in H. destruct (IH1 _ _ _ _ H) as (w1 & st1 & Hw1 & Hrest1 & Hpos1 & Hk1).
    destruct (IH2 _ _ _ _ Hk1) as (w2 & st2 & Hw2 & Hrest2 & Hpos2 & Hk2).
    exists (w1 ++ w2), st2. split; [constructor; assumption |].
    split; [rewrite Hrest1, Hrest2, app_assoc; reflexivity |].
    split; [rewrite length_app; lia | exact Hk2].
  - simpl in H. destruct (run r1 st k) as [x |] eqn:H1.
    + injection H as <-. destruct (IH1 _ _ _ _ H1) as (w & st' & Hw & Hrest & Hpos & Hk).
      exists w, st'. split; [apply derives_alt_left; exact Hw |]. repeat split; assumption.
    + destruct (IH2 _ _ _ _ H) as (w & st' & Hw & Hrest & Hpos & Hk).
      exists w, st'. split; [apply derives_alt_right; exact Hw |]. repeat split; assumption.
  - pose (iter := fix iterate (fuel : nat) (st0 : state) : option A :=
                    match fuel with
                    | O => k st0
                    | S fuel' =>
                        match run r1 st0 (fun st' => if pos st' =? pos st0 then None
                                                     else iterate fuel' st') with
                        | Some x => Some x
                        | None => k st0
                        end
                    end).
    change (iter (S (length (rest st))) st = Some a) in H.
    revert H. generalize (S (length (rest st))). intros fuel. revert st.
    induction fuel as [| fuel IHfuel]; intros st H.
    + exists [], st. simpl in *. repeat split; [constructor | lia | exact H].
    + change (iter (S fuel) st)
        with (match run r1 st (fun st' => if pos st' =? pos st then None
                                          else iter fuel st') with
              | Some x => Some x
              | None => k st
              end) in H.
      destruct (run r1 st _) as [x |] eqn:Hstep.
      * injection H as <-.
        destruct (IH1 _ _ _ _ Hstep) as (w1 & st1 & Hw1 & Hrest1 & Hpos1 & Hk1).
        destruct (pos st1 =? pos st); [discriminate |].
        destruct (IHfuel _ Hk1) as (w2 & st2 & Hw2 & Hrest2 & Hpos2 & Hk2).
        exists (w1 ++ w2), st2. split; [apply derives_star_more; assumption |].
        split; [rewrite Hrest1, Hrest2, app_assoc; reflexivity |].
        split; [rewrite length_app; lia | exact Hk2].
      * exists [], st. simpl. repeat split; [constructor | lia | exact H].
  - simpl in H. destruct (IH1 _ _ _ _ H) as (w & st' & Hw & Hrest & Hpos & Hk).
    eexists w, _. split; [constructor; exact Hw |].
    split; [| split; [| exact Hk]]; simpl; assumption.
  - simpl in H. destruct (pos st =? 0); [| discriminate].
    exists [], st. simpl. repeat split; [constructor | lia | exact H].
  - simpl in H. destruct (rest st) eqn:Hrest; [| discriminate].
    exists [], st. simpl. repeat split; [constructor | rewrite Hrest; reflexivity | lia | exact H].
  - simpl in H. destruct (xorb _ _); [| discriminate].
    exists [], st. simpl. repeat split; [constructor | lia | exact H].
Qed.

Lemma matchAt_derives (r : regex) (st : state) (m : found) :
  matchAt r st = Some m ->
  exists w,
    derives r w /\ rest st = w ++ rest (final m)
    /\ index m = pos st /\ stop m = pos st + length w.
Proof.
  unfold matchAt. intros H.
  destruct (run_derives r _ _ H) as (w & st' & Hw & Hrest & Hpos & Hk).
  injection Hk as <-. exists w. unfold stop. simpl. repeat split; assumption.
Qed.

Lemma searchFrom_derives (r : regex) (l : list ascii) (i : nat) (prev : option ascii)
    (m : found) :
  searchFrom r i prev l = Some m ->
  exists pre w,
    l = pre ++ w ++ rest (final m) /\ derives r w
    /\ index m = i + length pre /\ stop m = index m + length w.
Proof.
  intros H. destruct (searchFrom_at _ _ _ _ H) as (pre & l' & prev' & -> & Hat).
  destruct (matchAt_derives _ _ Hat) as (w & Hw & Hrest & Hindex & Hstop).
  simpl in *. exists pre, w. rewrite Hrest. repeat split; [exact Hw | exact Hindex | lia].
Qed.

Lemma matchesFrom_derives (r : regex) (fuel : nat) :
  forall (l : list ascii) (i : nat) (prev : option ascii) (m : found),
    In m (matchesFrom fuel r i prev l) ->
    exists pre w post,
      l = pre ++ w ++ post /\ derives r w
      /\ index m = i + length pre /\ stop m = index m + length w.
Proof.
  induction fuel as [| fuel IH]; intros l i prev m; simpl; [intros [] |].
  destruct (searchFrom r i prev l) as [m0 |] eqn:Hsearch; [| intros []].
  destruct (searchFrom_derives _ _ _ _ Hsearch) as (pre & w & Hl & Hw & Hindex & Hstop).
  assert (Hfirst : exists pre' w' post',
             l = pre' ++ w' ++ post' /\ derives r w'
             /\ index m0 = i + length pre' /\ stop m0 = index m0 + length w').
  { exists pre, w, (rest (final m0)). repeat split; assumption. }
  assert (Hlater : forall l' i' prev' skipped,
             rest (final m0) = skipped ++ l' ->
             i' = stop m0 + length skipped ->
             In m (matchesFrom fuel r i' prev' l') ->
             exists pre' w' post',
               l = pre' ++ w' ++ post' /\ derives r w'
               /\ index m = i + length pre' /\ stop m = index m + length w').
  { intros l' i' prev' skipped Hrest Hi' Hin.
    destruct (IH _ _ _ _ Hin) as (pre' & w' & post' & Hl' & Hw' & Hindex' & Hstop').
    exists (pre ++ w ++ skipped ++ pre'), w', post'.
    split; [rewrite Hl, Hrest, Hl', <- !app_assoc; reflexivity |].
    split; [exact Hw' |]. split; [rewrite !length_app; lia | exact Hstop']. }
  destruct (pos (final m0) =? index m0).
  - destruct (rest (final m0)) as [| c t] eqn:Hrest.
    + intros [<- | []]. exact Hfirst.
    + intros [<- | Hin]; [exact Hfirst |].
      apply (Hlater t (S (pos (final m0))) (Some c) [c]); [reflexivity | | exact Hin].
      unfold stop. simpl. lia.
  - intros [<- | Hin]; [exact Hfirst |].
    apply (Hlater (rest (final m0)) (pos (final m0)) (before (final m0)) []);
      [reflexivity | | exact Hin].
    unfold stop. simpl. lia.
Qed.

(** Every text that a pattern with the [g] flag finds is a text of the
    pattern. *)
Lemma matchAll_derives (r : regex) (s x : string) :
  In x (matchAll r s) -> exists w, x = str w /\ derives r w.
Proof.
  unfold matchAll, matches. intros H. apply in_map_iff in H.
  destruct H as (m & <- & Hm).
  destruct (matchesFrom_derives _ _ _ _ _ _ Hm) as (pre & w & post & Hl & Hw & Hindex & Hstop).
  exists w. split; [| exact Hw].
  unfold matched. rewrite <- (str_chars s), Hl, Hstop, Hindex. simpl.
  apply slice_middle.
Qed.

Lemma derives_star_digits (w : list ascii) :
  derives (Star digit) w -> Forall (fun c => isDigit c = true) w.
Proof.
  intros H. remember (Star digit) as r eqn:Hr.
  induction H as [| | | | | | r0 w1 w2 H1 _ H2 IH2 | | | |]; try discriminate.
  - constructor.
  - injection Hr as ->. apply Forall_app. split; [| apply IH2; reflexivity].
    inversion H1; subst. constructor; [assumption | constructor].
Qed.

Lemma derives_plus_digits (w : list ascii) :
  derives (plus digit) w -> w <> [] /\ Forall (fun c => isDigit c = true) w.
Proof.
  unfold plus. intros H. inversion H as [| | r1 r2 w1 w2 H1 H2 | | | | | | | |]; subst.
  inversion H1; subst. split; [discriminate |].
  constructor; [assumption | apply derives_star_digits; exact H2].
Qed.

Lemma derives_opt_chr (c : ascii) (w : list ascii) :
  derives (opt (chr c)) w -> w = [] \/ w = [c].
Proof.
  unfold opt, chr. intros H. inversion H as [| | | r1 r2 w0 H1 | r1 r2 w0 H1 | | | | | |]; subst.
  - inversion H1 as [| accepts c0 Hc | | | | | | | | |]; subst.
    apply Ascii.eqb_eq in Hc. subst. right. reflexivity.
  - inversion H1. left. reflexivity.
Qed.

Lemma signedNumber_numberText (w : list ascii) :
  derives signedNumber w -> numberText (str w).
Proof.
  unfold signedNumber. cbn [seq]. intros H.
  inversion H as [| | r1 r2 sign w23 Hsign H23 | | | | | | | |]; subst.
  inversion H23 as [| | r1 r2 whole fraction Hwhole Hfraction | | | | | | | |]; subst.
  apply derives_opt_chr in Hsign. apply derives_plus_digits in Hwhole.
  exists sign, whole, fraction. rewrite chars_str.
  split; [reflexivity |]. split; [exact Hsign |]. split; [tauto |]. split; [tauto |].
  unfold opt in Hfraction.
  inversion Hfraction as [| | | r1 r2 w0 H1 | r1 r2 w0 H1 | | | | | |]; subst.
  - right. inversion H1 as [| | r1 r2 point digits Hpoint Hdigits | | | | | | | |]; subst.
    inversion Hpoint as [| accepts c0 Hc | | | | | | | | |]; subst.
    apply Ascii.eqb_eq in Hc. subst c0.
    exists digits. split; [reflexivity |]. apply derives_plus_digits. exact Hdigits.
  - left. inversion H1. reflexivity.
Qed.

End PatternSoundness.

(** ** The values of the extracted findings *)

Section NumericValues.
Import AiController.

Lemma isDigit_not_space (c : ascii) : isDigit c = true -> isSpace c = false.
Proof. destruct c as [[] [] [] [] [] [] [] []]; simpl; intros H; try discriminate; reflexivity. Qed.

Lemma dropSpaces_unspaced (c : ascii) (l : list ascii) :
  isSpace c = false -> dropSpaces (c :: l) = c :: l.
Proof. intros H. simpl. rewrite H. reflexivity. Qed.

Lemma trimList_fixed (l : list ascii) :
  Forall (fun c => isSpace c = false) l -> trimList l = l.
Proof.
  intros H. unfold trimList.
  assert (Hdrop : forall l0, Forall (fun c => isSpace c = false) l0 -> dropSpaces l0 = l0).
  { intros l0 H0. destruct H0 as [| c t Hc Ht]; [reflexivity | apply dropSpaces_unspaced; exact Hc]. }
  rewrite (Hdrop l H). rewrite Hdrop; [apply rev_involutive |].
  apply Forall_rev. exact H.
Qed.

Lemma numberText_no_space (s : string) :
  numberText s -> Forall (fun c => isSpace c = false) (chars s).
Proof.
  intros (sign & whole & fraction & -> & Hsign & _ & Hwhole & Hfraction).
  assert (Hdigits : forall l, Forall (fun c => isDigit c = true) l ->
                              Forall (fun c => isSpace c = false) l).
  { intros l Hl. eapply Forall_impl; [| exact Hl]. exact isDigit_not_space. }
  apply Forall_app. split.
  - destruct Hsign as [-> | ->]; [constructor | constructor; [reflexivity | constructor]].
  - apply Forall_app. split; [apply Hdigits; exact Hwhole |].
    destruct Hfraction as [-> | (digits & -> & Hd)]; [constructor |].
    constructor; [reflexivity | apply Hdigits; exact Hd].
Qed.

Lemma trim_numberText (s : string) : numberText s -> trim s = s.
Proof.
  intros H. unfold trim. rewrite (trimList_fixed (numberText_no_space H)).
  apply str_chars.
Qed.

Lemma run_cat (A : Type) (r1 r2 : regex) (st : state) (k : state -> option A) :
  run (Cat r1 r2) st k = run r1 st (fun st' => run r2 st' k).
Proof. reflexivity. Qed.

Lemma run_bol (A : Type) (st : state) (k : state -> option A) :
  run Bol st k = if pos st =? 0 then k st else None.
Proof. reflexivity. Qed.

Lemma run_eol (A : Type) (st : state) (k : state -> option A) :
  run Eol st k = match rest st with [] => k st | _ :: _ => None end.
Proof. reflexivity. Qed.

(** A text that the anchored pattern of a number accepts is the text of a
    number. *)
Lemma bareNumber_numberText (part : string) :
  Regex.test bareNumber part = true -> numberText part.
Proof.
  unfold Regex.test, exec. destruct (searchFrom _ _ _ _) as [m |] eqn:Hsearch; [| discriminate].
  intros _. destruct (searchFrom_at _ _ _ _ Hsearch) as (pre & l' & prev' & Hl & Hat).
  unfold matchAt, bareNumber in Hat. cbn [seq] in Hat.
  rewrite run_cat, run_bol in Hat. cbn [pos] in Hat.
  destruct pre as [| c pre]; [| discriminate].
  cbn [length Nat.add Nat.eqb app] in Hat, Hl. subst l'.
  rewrite run_cat in Hat.
  destruct (run_derives (opt (chr "-")) _ _ Hat) as (sign & st1 & Hsign & Hrest1 & _ & H1).
  rewrite run_cat in H1.
  destruct (run_derives (plus digit) _ _ H1) as (whole & st2 & Hwhole & Hrest2 & _ & H2).
  rewrite run_cat in H2.
  destruct (run_derives (opt (chr ".")) _ _ H2) as (point & st3 & Hpoint & Hrest3 & _ & H3).
  rewrite run_cat in H3.
  destruct (run_derives (Star digit) _ _ H3) as (digits & st4 & Hdigits & Hrest4 & _ & H4).
  rewrite run_eol in H4. destruct (rest st4) eqn:Hrest5; [| discriminate].
  simpl in Hrest1. rewrite Hrest2, Hrest3, Hrest4, app_nil_r in Hrest1.
  apply derives_opt_chr in Hsign. apply derives_plus_digits in Hwhole.
  apply derives_opt_chr in Hpoint. apply derives_star_digits in Hdigits.
  destruct Hpoint as [-> | ->].
  - exists sign, (whole ++ digits), []. rewrite Hrest1, app_nil_r. simpl.
    split; [reflexivity |]. split; [exact Hsign |].
    split; [destruct whole; [tauto | discriminate] |].
    split; [apply Forall_app; tauto | left; reflexivity].
  - exists sign, whole, ("."%char :: digits). rewrite Hrest1.
    split; [reflexivity |]. split; [exact Hsign |]. split; [tauto |]. split; [tauto |].
    right. exists digits. split; [reflexivity | exact Hdigits].
Qed.

Lemma classifyPart_value (flagWord : string) (acc : fields) (part : string) :
  f_value acc = EmptyString \/ numberText (f_value acc) ->
  f_value (classifyPart flagWord acc part) = EmptyString
  \/ numberText (f_value (classifyPart flagWord acc part)).
Proof.
  intros H. unfold classifyPart.
  destruct (Regex.test bareNumber part) eqn:Hnumber; simpl.
  - destruct (negb (nonEmpty (f_value acc))); simpl.
    + right. apply bareNumber_numberText. exact Hnumber.
    + repeat (match goal with
              | |- context [if ?b then _ else _] => destruct b
              end; simpl); exact H.
  - repeat (match goal with
            | |- context [if ?b then _ else _] => destruct b
            end; simpl); exact H.
Qed.

Lemma classified_value (flagWord : string) (parts : list string) :
  forall acc : fields,
    f_value acc = EmptyString \/ numberText (f_value acc) ->
    f_value (fold_left (classifyPart flagWord) parts acc) = EmptyString
    \/ numberText (f_value (fold_left (classifyPart flagWord) parts acc)).
Proof.
  induction parts as [| part rest IH]; intros acc H; simpl; [exact H |].
  apply IH. apply classifyPart_value. exact H.
Qed.

Lemma extractTestDataFromLine_value (line nextLine prevLine : string) (f : finding) :
  extractTestDataFromLine line nextLine prevLine = Some f -> numberText (value f).
Proof.
  unfold extractTestDataFromLine. intros H.
  destruct (exec FLAG_REGEX line) as [flagMatch |]; [| discriminate].
  destruct (Regex.test NORMAL_REGEX _); [discriminate |].
  cbv zeta in H.
  match type of H with
  | context [fold_left ?step ?l ?a] =>
      destruct (@classified_value (group line flagMatch 1) l a (or_introl eq_refl))
        as [Hempty | Hvalue];
      remember (fold_left step l a) as acc eqn:Hacc
  end.
  - rewrite Hempty in H. simpl in H. rewrite orb_true_r in H. discriminate.
  - destruct (negb _ || negb _); [discriminate |].
    injection H as <-. simpl. rewrite (trim_numberText Hvalue). exact Hvalue.
Qed.

Lemma parseAbnormalRow_value (row fallbackTest : string) (f : finding) :
  parseAbnormalRow row fallbackTest = Some f -> numberText (value f).
Proof.
  unfold parseAbnormalRow. intros H.
  destruct (exec FLAG_REGEX row) as [flagMatch |]; [| discriminate].
  destruct (Regex.test NORMAL_REGEX _); [discriminate |].
  cbv zeta in H.
  match type of H with
  | (let '(_, _) := ?x in _) = _ => destruct x as [referenceRange working]
  end.
  destruct (rev (matchAll NUMBER_REGEX working)) as [| last others] eqn:Hrev.
  - destruct (exec UNIT_REGEX working); simpl in H; rewrite orb_true_r in H; discriminate.
  - assert (Hlast : numberText last).
    { assert (Hin : In last (matchAll NUMBER_REGEX working)).
      { apply in_rev. rewrite Hrev. left. reflexivity. }
      destruct (matchAll_derives _ _ _ Hin) as (w & -> & Hw).
      apply signedNumber_numberText. exact Hw. }
    destruct (lastIndexOf working last);
      match type of H with
      | context [exec UNIT_REGEX ?w] => destruct (exec UNIT_REGEX w)
      end;
      destruct (negb _ || negb _); try discriminate;
      injection H as <-; exact Hlast.
Qed.

Lemma tableFindings_value (lines : list string) (prev : string) :
  Forall (fun f => numberText (value f)) (tableFindings prev lines).
Proof.
  revert prev. induction lines as [| line rest IH]; intros prev; simpl; [constructor |].
  destruct (Regex.test headerWord line && negb (Regex.test anyDigit line)); [apply IH |].
  destruct (negb (Regex.test anyDigit line)); [apply IH |].
  destruct (extractTestDataFromLine _ _ _) as [extracted |] eqn:E; [| apply IH].
  destruct (nonEmpty (flag extracted) && negb (Regex.test NORMAL_REGEX (flag extracted)));
    [| apply IH].
  constructor; [exact (extractTestDataFromLine_value _ _ _ E) | apply IH].
Qed.

Lemma addParsedRows_value (rows : list string) (lastTest : string) (findings : list finding) :
  Forall (fun f => numberText (value f)) findings ->
  Forall (fun f => numberText (value f)) (addParsedRows rows lastTest findings).
Proof.
  revert lastTest findings.
  induction rows as [| row rest IH]; intros lastTest findings H; simpl; [exact H |].
  destruct (parseAbnormalRow row lastTest) as [parsed |] eqn:E; [| apply IH; exact H].
  apply IH. destruct (existsb _ findings); [exact H |].
  apply Forall_app. split; [exact H |].
  constructor; [exact (parseAbnormalRow_value _ _ E) | constructor].
Qed.

(** Every finding that the extractor emits carries the text of a number as
    its value: digits, possibly after a minus sign and possibly followed by
    a point and further digits, with no space and no unit in it; so it is
    for each of the two parsers.  A row or line from which no number can be
    read gives no finding. *)
Theorem extracted_values_are_numbers :
  (forall (text : string) (f : finding),
      In f (extractAbnormalFromText text) -> numberText (value f))
  /\ (forall (row fallbackTest : string) (f : finding),
         parseAbnormalRow row fallbackTest = Some f -> numberText (value f))
  /\ (forall (line nextLine prevLine : string) (f : finding),
         extractTestDataFromLine line nextLine prevLine = Some f -> numberText (value f)).
Proof.
  split; [| split].
  - intros text f Hin.
    assert (H : Forall (fun f => numberText (value f)) (extractAbnormalFromText text)).
    { unfold extractAbnormalFromText. apply addParsedRows_value. apply tableFindings_value. }
    exact (proj1 (Forall_forall _ _) H f Hin).
  - exact parseAbnormalRow_value.
  - exact extractTestDataFromLine_value.
Qed.

Lemma extracted_values_are_numbers_witness :
  map value (extractAbnormalFromText "Hemoglobin | 9.2 | g/dL | 12.0-15.5 | Low")
  = ["9.2"; "9.2"]
  /\ Forall (fun f => numberText (value f))
        (extractAbnormalFromText "Hemoglobin | 9.2 | g/dL | 12.0-15.5 | Low").
Proof.
  split; [vm_compute; reflexivity |].
  apply Forall_forall. apply (proj1 extracted_values_are_numbers).
Defined.

End NumericValues.
